(** * proxy-server.js: the response-normalization engine

    A shallow embedding of [src/proxy-server.js]: the list normalizer
    ([normalizeToList] and the resize step of [POST /generate]), the table
    normalizer of [POST /generateTable] (structured parse, header fallback,
    row fallback), the extraction of the model text from the response
    envelope, and the key selection of [POST /token].

    JavaScript strings are sequences of UTF-16 code units; they are modelled
    as lists of [N].  Values that come out of [JSON.parse] are modelled by
    [jsval].  Exceptions are explicit ([result]); [try]/[catch] blocks are
    pattern matches on it.  The integers of a request ([count], [rows],
    [cols]) are in [Z].  Regular expressions are data ([regex]) run by a
    backtracking matcher, so that each pattern of the source is written down
    once, piece by piece.

    Outside the model: the network calls (the handlers are modelled from the
    parsed upstream response on), logging, and the limits of an engine
    (memory, the longest string it can hold).  The greatest array length of
    the language (4294967295) is in the model, where the source makes an
    array of a length the request gives.  The draws of [Math.random()] are
    rationals and are scaled exactly, where the runtime rounds doubles; no
    property below depends on the value drawn, only on its being below 1. *)

From Stdlib Require Import String Ascii DecimalString.
From Stdlib Require Import List ZArith NArith QArith Qround Lia Bool.
Import ListNotations.
Close Scope Q_scope.
Open Scope list_scope.

Set Implicit Arguments.

(** ** Strings *)

Abbreviation cu := N (only parsing).
Abbreviation jstr := (list cu) (only parsing).

(** A string literal of the source (ASCII), as code units. *)
Definition lit (s : string) : jstr := map N_of_ascii (list_ascii_of_string s).
Definition ch (a : ascii) : cu := N_of_ascii a.

(** The double quote, written by code so that no literal has to escape it. *)
Definition DQ : cu := 34%N.
Definition SQ : cu := 39%N.

Definition cu_eqb (a b : cu) : bool := N.eqb a b.

Fixpoint jstr_eqb (a b : jstr) : bool :=
  match a, b with
  | [], [] => true
  | x :: a', y :: b' => cu_eqb x y && jstr_eqb a' b'
  | _, _ => false
  end.

(** ECMAScript WhiteSpace and LineTerminator code units: what [trim] strips
    and what [\s] matches. *)
Definition isWhiteSpace (c : cu) : bool :=
  existsb (cu_eqb c)
    [9; 10; 11; 12; 13; 32; 160; 5760; 8232; 8233; 8239; 8287; 12288; 65279]%N
  || (N.leb 8192 c && N.leb c 8202).

Fixpoint trimStart (s : jstr) : jstr :=
  match s with
  | c :: r => if isWhiteSpace c then trimStart r else s
  | [] => []
  end.

Definition trimEnd (s : jstr) : jstr := rev (trimStart (rev s)).

(** [String.prototype.trim] *)
Definition trim (s : jstr) : jstr := trimEnd (trimStart s).

(** [s.startsWith(p)] *)
Fixpoint startsWith (p s : jstr) : bool :=
  match p, s with
  | [], _ => true
  | x :: p', y :: s' => cu_eqb x y && startsWith p' s'
  | _ :: _, [] => false
  end.

(** [s.endsWith(p)] *)
Definition endsWith (p s : jstr) : bool := startsWith (rev p) (rev s).

(** [s.includes(p)] *)
Fixpoint includes (p s : jstr) : bool :=
  startsWith p s ||
  match s with
  | [] => false
  | _ :: s' => includes p s'
  end.

(** [s.split(sep)] for a separator of one code unit (the source splits on a
    comma and on a line feed); the empty string splits into one empty piece. *)
Fixpoint split (sep : cu) (s : jstr) : list jstr :=
  match s with
  | [] => [[]]
  | c :: r =>
      if cu_eqb c sep then [] :: split sep r
      else match split sep r with
           | p :: ps => (c :: p) :: ps
           | [] => [[c]]
           end
  end.

(** [a.slice(0, e)] on arrays and strings: a negative end counts from the
    back. *)
Definition slice0 (A : Type) (l : list A) (e : Z) : list A :=
  if (e <? 0)%Z then firstn (Z.to_nat (Z.of_nat (length l) + e)) l
  else firstn (Z.to_nat e) l.

(** Decimal digits of an integer, as a template literal prints a Number
    that holds an integer below 10^21. *)
Definition dec (z : Z) : jstr := lit (NilZero.string_of_int (Z.to_int z)).

(** ** Regular expressions

    The subset of ECMAScript regular expressions the source uses, with the
    backtracking semantics of the language: greedy and lazy repetition of a
    character class, optional class, alternation, capture groups, the
    anchors (no [m] flag: [^] is the start of the subject, [$] its end) and
    positive lookahead. *)

Inductive citem :=
| IChr (c : cu)             (* a literal character *)
| IRng (lo hi : cu)         (* lo-hi *)
| ISpc                      (* \s *)
| IDig.                     (* \d *)

Inductive cclass :=
| COne (c : cu)             (* a literal character *)
| CSet (its : list citem)   (* [...] *)
| CNot (its : list citem)   (* [^...] *)
| CDot.                     (* . *)

Definition citem_ok (i : citem) (c : cu) : bool :=
  match i with
  | IChr x => cu_eqb c x
  | IRng lo hi => N.leb lo c && N.leb c hi
  | ISpc => isWhiteSpace c
  | IDig => N.leb 48 c && N.leb c 57
  end.

Definition isLineTerminator (c : cu) : bool :=
  existsb (cu_eqb c) [10; 13; 8232; 8233]%N.

Definition class_ok (k : cclass) (c : cu) : bool :=
  match k with
  | COne x => cu_eqb c x
  | CSet its => existsb (fun i => citem_ok i c) its
  | CNot its => negb (existsb (fun i => citem_ok i c) its)
  | CDot => negb (isLineTerminator c)
  end.

Inductive regex :=
| REps
| RChr (k : cclass)
| RStar (k : cclass)        (* k*  *)
| RPlus (k : cclass)        (* k+  *)
| RLazy (k : cclass)        (* k*? *)
| ROpt (k : cclass)         (* k?  *)
| RBol                      (* ^ *)
| REol                      (* $ *)
| RSeq (a b : regex)
| RAlt (a b : regex)        (* a|b *)
| RGrp (i : nat) (a : regex)  (* the i-th capture group *)
| RAhead (a : regex).       (* (?=a) *)

Definition rseq (l : list regex) : regex := fold_right RSeq REps l.

Definition caps := list (nat * jstr).

Fixpoint cap (i : nat) (cs : caps) : jstr :=
  match cs with
  | [] => []
  | (j, s) :: r => if Nat.eqb i j then s else cap i r
  end.

Definition orElse (A : Type) (x y : option A) : option A :=
  match x with Some v => Some v | None => y end.

(** Greedy [k*]: the longest run first, giving characters back one at a
    time.  [bol] tells whether the position is the start of the subject. *)
Fixpoint star_greedy (R : Type) (k : cclass) (bol : bool) (s : jstr)
    (cont : bool -> jstr -> option R) : option R :=
  match s with
  | c :: r =>
      if class_ok k c then orElse (star_greedy k false r cont) (cont bol s)
      else cont bol s
  | [] => cont bol s
  end.

(** Lazy [k*?]: the shortest run first. *)
Fixpoint star_lazy (R : Type) (k : cclass) (bol : bool) (s : jstr)
    (cont : bool -> jstr -> option R) : option R :=
  match cont bol s with
  | Some v => Some v
  | None =>
      match s with
      | c :: r => if class_ok k c then star_lazy k false r cont else None
      | [] => None
      end
  end.

(** The matcher, in continuation-passing style: [rmatch re bol s cs cont]
    matches [re] at the head of [s] and hands what is left to [cont];
    a [None] from the continuation makes the matcher backtrack. *)
Fixpoint rmatch (R : Type) (re : regex) (bol : bool) (s : jstr) (cs : caps)
    (cont : bool -> jstr -> caps -> option R) {struct re} : option R :=
  match re with
  | REps => cont bol s cs
  | RChr k =>
      match s with
      | c :: r => if class_ok k c then cont false r cs else None
      | [] => None
      end
  | RStar k => star_greedy k bol s (fun b r => cont b r cs)
  | RPlus k =>
      match s with
      | c :: r =>
          if class_ok k c then star_greedy k false r (fun b r' => cont b r' cs)
          else None
      | [] => None
      end
  | RLazy k => star_lazy k bol s (fun b r => cont b r cs)
  | ROpt k =>
      match s with
      | c :: r =>
          if class_ok k c then orElse (cont false r cs) (cont bol s cs)
          else cont bol s cs
      | [] => cont bol s cs
      end
  | RBol => if bol then cont bol s cs else None
  | REol => match s with [] => cont bol s cs | _ :: _ => None end
  | RSeq a b => rmatch a bol s cs (fun b' s' cs' => rmatch b b' s' cs' cont)
  | RAlt a b => orElse (rmatch a bol s cs cont) (rmatch b bol s cs cont)
  | RGrp i a =>
      rmatch a bol s cs
        (fun b' s' cs' => cont b' s' ((i, firstn (length s - length s') s) :: cs'))
  | RAhead a =>
      match rmatch a bol s cs (fun _ _ cs' => Some cs') with
      | Some cs' => cont bol s cs'
      | None => None
      end
  end.

(** One match attempt at a position: what is left after the match, and the
    captures. *)
Definition match_here (re : regex) (bol : bool) (s : jstr) : option (jstr * caps) :=
  rmatch re bol s [] (fun _ s' cs => Some (s', cs)).

(** Replacement templates: literal text and [$i]. *)
Inductive rpiece := Txt (s : jstr) | Ref (i : nat).

Definition expand (t : list rpiece) (cs : caps) : jstr :=
  flat_map (fun p => match p with Txt s => s | Ref i => cap i cs end) t.

(** [s.replace(re, t)] with the [g] flag: matches are searched left to right,
    each new search starting where the previous match ended (one further
    when the match was empty).  [skip] counts the characters of the current
    match still to drop. *)
Fixpoint replace_go (re : regex) (t : list rpiece) (bol : bool) (skip : nat)
    (s : jstr) : jstr :=
  match skip with
  | S n =>
      match s with
      | _ :: r => replace_go re t false n r
      | [] => []
      end
  | O =>
      match match_here re bol s with
      | Some (s', cs) =>
          expand t cs ++
          match s with
          | c :: r =>
              match length s - length s' with
              | O => c :: replace_go re t false 0 r
              | S m => replace_go re t false m r
              end
          | [] => []
          end
      | None =>
          match s with
          | c :: r => c :: replace_go re t false 0 r
          | [] => []
          end
      end
  end.

Definition replaceAll (re : regex) (t : list rpiece) (s : jstr) : jstr :=
  replace_go re t true 0 s.

(** [s.replace(re, t)] without the [g] flag: the leftmost match only. *)
Fixpoint replace_first_go (re : regex) (t : list rpiece) (bol : bool) (s : jstr) : jstr :=
  match match_here re bol s with
  | Some (s', cs) => expand t cs ++ s'
  | None =>
      match s with
      | c :: r => c :: replace_first_go re t false r
      | [] => []
      end
  end.

Definition replaceFirst (re : regex) (t : list rpiece) (s : jstr) : jstr :=
  replace_first_go re t true s.

(** ** Values and [JSON.parse] *)

(** What [JSON.parse] and property reads produce.  A number keeps the
    literal it was read from; its double value belongs to the platform. *)
#[warnings="-register-all"] Inductive jsval :=
| JUndef
| JNull
| JBool (b : bool)
| JNum (literal : jstr)
| JStr (s : jstr)
| JArr (l : list jsval)
| JObj (fields : list (jstr * jsval)).

(** Outcome of a parsing function: a value and the rest of the input, a
    syntax error, or the recursion budget exhausted. *)
Inductive pres (A : Type) :=
| POk (a : A) (rest : jstr)
| PErr
| PFuel.
Arguments PErr {A}.
Arguments PFuel {A}.

Definition pmap (A B : Type) (f : A -> B) (p : pres A) : pres B :=
  match p with
  | POk a r => POk (f a) r
  | PErr => PErr
  | PFuel => PFuel
  end.

(** JSON whitespace: space, tab, line feed, carriage return. *)
Definition isJsonWs (c : cu) : bool := existsb (cu_eqb c) [32; 9; 10; 13]%N.

Fixpoint skip_ws (s : jstr) : jstr :=
  match s with
  | c :: r => if isJsonWs c then skip_ws r else s
  | [] => []
  end.

Definition hexval (c : cu) : option N :=
  if N.leb 48 c && N.leb c 57 then Some (c - 48)%N
  else if N.leb 97 c && N.leb c 102 then Some (c - 87)%N
  else if N.leb 65 c && N.leb c 70 then Some (c - 55)%N
  else None.

Definition hex4 (a b c d : cu) : option cu :=
  match hexval a, hexval b, hexval c, hexval d with
  | Some x, Some y, Some z, Some w => Some (((x * 16 + y) * 16 + z) * 16 + w)%N
  | _, _, _, _ => None
  end.

(** The character after a backslash, [u] apart. *)
Definition escape_char (e : cu) : option cu :=
  if cu_eqb e DQ then Some DQ
  else if cu_eqb e 92 then Some 92%N
  else if cu_eqb e 47 then Some 47%N
  else if cu_eqb e 98 then Some 8%N        (* \b *)
  else if cu_eqb e 102 then Some 12%N      (* \f *)
  else if cu_eqb e 110 then Some 10%N      (* \n *)
  else if cu_eqb e 114 then Some 13%N      (* \r *)
  else if cu_eqb e 116 then Some 9%N       (* \t *)
  else None.

(** The characters of a string literal, after its opening quote. *)
Fixpoint parse_chars (s : jstr) : pres jstr :=
  match s with
  | [] => PErr
  | c :: r =>
      if cu_eqb c DQ then POk [] r
      else if cu_eqb c 92 then
        match r with
        | e :: r1 =>
            if cu_eqb e 117 then
              match r1 with
              | h1 :: h2 :: h3 :: h4 :: r2 =>
                  match hex4 h1 h2 h3 h4 with
                  | Some u => pmap (cons u) (parse_chars r2)
                  | None => PErr
                  end
              | _ => PErr
              end
            else
              match escape_char e with
              | Some u => pmap (cons u) (parse_chars r1)
              | None => PErr
              end
        | [] => PErr
        end
      else if N.ltb c 32 then PErr
      else pmap (cons c) (parse_chars r)
  end.

Definition isDigit (c : cu) : bool := N.leb 48 c && N.leb c 57.

Fixpoint take_digits (s : jstr) : jstr * jstr :=
  match s with
  | c :: r =>
      if isDigit c then let (d, r') := take_digits r in (c :: d, r') else ([], s)
  | [] => ([], [])
  end.

(** Integer part: [0], or a non-zero digit and digits. *)
Definition lex_int (s : jstr) : option (jstr * jstr) :=
  match s with
  | c :: r =>
      if cu_eqb c 48 then Some ([c], r)
      else if isDigit c then let (d, r') := take_digits r in Some (c :: d, r')
      else None
  | [] => None
  end.

(** Optional fraction: a dot and at least one digit. *)
Definition lex_frac (s : jstr) : option (jstr * jstr) :=
  match s with
  | c :: r =>
      if cu_eqb c 46 then
        match take_digits r with
        | ([], _) => None
        | (d, r') => Some (c :: d, r')
        end
      else Some ([], s)
  | [] => Some ([], s)
  end.

(** Optional exponent: [e] or [E], an optional sign, at least one digit. *)
Definition lex_exp (s : jstr) : option (jstr * jstr) :=
  match s with
  | c :: r =>
      if cu_eqb c 101 || cu_eqb c 69 then
        let (sign, r0) :=
          match r with
          | g :: r1 => if cu_eqb g 43 || cu_eqb g 45 then ([g], r1) else ([], r)
          | [] => ([], r)
          end in
        match take_digits r0 with
        | ([], _) => None
        | (d, r') => Some (c :: sign ++ d, r')
        end
      else Some ([], s)
  | [] => Some ([], s)
  end.

Definition lex_number (s : jstr) : pres jstr :=
  let (minus, s0) :=
    match s with
    | c :: r => if cu_eqb c 45 then ([c], r) else ([], s)
    | [] => ([], s)
    end in
  match lex_int s0 with
  | None => PErr
  | Some (i, s1) =>
      match lex_frac s1 with
      | None => PErr
      | Some (f, s2) =>
          match lex_exp s2 with
          | None => PErr
          | Some (e, s3) => POk (minus ++ i ++ f ++ e) s3
          end
      end
  end.

(** A keyword ([true], [false], [null]). *)
Definition expect (A : Type) (kw : jstr) (v : A) (s : jstr) : pres A :=
  if startsWith kw s then POk v (skipn (length kw) s) else PErr.

(** The elements of an array after the first position is known not to be
    the closing bracket: a value, then a comma and more, or the bracket. *)
Fixpoint parse_elems (pv : jstr -> pres jsval) (m : nat) (s : jstr)
    : pres (list jsval) :=
  match m with
  | O => PFuel
  | S m' =>
      match pv s with
      | POk v rest =>
          match skip_ws rest with
          | c :: r =>
              if cu_eqb c 44 then pmap (cons v) (parse_elems pv m' (skip_ws r))
              else if cu_eqb c 93 then POk [v] r
              else PErr
          | [] => PErr
          end
      | PErr => PErr
      | PFuel => PFuel
      end
  end.

(** The members of an object, likewise: a string, a colon, a value, then a
    comma and more, or the closing brace. *)
Fixpoint parse_members (pv : jstr -> pres jsval) (m : nat) (s : jstr)
    : pres (list (jstr * jsval)) :=
  match m with
  | O => PFuel
  | S m' =>
      match s with
      | q :: s0 =>
          if cu_eqb q DQ then
            match parse_chars s0 with
            | POk key rest0 =>
                match skip_ws rest0 with
                | c0 :: r0 =>
                    if cu_eqb c0 58 then
                      match pv (skip_ws r0) with
                      | POk v rest =>
                          match skip_ws rest with
                          | c :: r =>
                              if cu_eqb c 44 then
                                pmap (cons (key, v)) (parse_members pv m' (skip_ws r))
                              else if cu_eqb c 125 then POk [(key, v)] r
                              else PErr
                          | [] => PErr
                          end
                      | PErr => PErr
                      | PFuel => PFuel
                      end
                    else PErr
                | [] => PErr
                end
            | PErr => PErr
            | PFuel => PFuel
            end
          else PErr
      | [] => PErr
      end
  end.

(** A JSON value at the head of [s] (leading whitespace already skipped).
    [n] bounds the nesting depth and the number of elements of a container;
    [JSON_parse] starts it above the length of the text. *)
Fixpoint parse_value (n : nat) (s : jstr) : pres jsval :=
  match n with
  | O => PFuel
  | S n' =>
      match s with
      | [] => PErr
      | c :: r =>
          if cu_eqb c DQ then pmap JStr (parse_chars r)
          else if cu_eqb c 91 then
            match skip_ws r with
            | c1 :: r1 =>
                if cu_eqb c1 93 then POk (JArr []) r1
                else pmap JArr (parse_elems (parse_value n') n' (c1 :: r1))
            | [] => PErr
            end
          else if cu_eqb c 123 then
            match skip_ws r with
            | c1 :: r1 =>
                if cu_eqb c1 125 then POk (JObj []) r1
                else pmap JObj (parse_members (parse_value n') n' (c1 :: r1))
            | [] => PErr
            end
          else if cu_eqb c 116 then expect (lit "true") (JBool true) s
          else if cu_eqb c 102 then expect (lit "false") (JBool false) s
          else if cu_eqb c 110 then expect (lit "null") JNull s
          else pmap JNum (lex_number s)
      end
  end.

(** [JSON.parse(s)]: one value between optional whitespace, nothing after.
    [PErr] is the SyntaxError; the budget is enough for every text
    ([JSON_parse_total] below), so [PFuel] never comes out. *)
Definition JSON_parse_fuel (n : nat) (s : jstr) : pres jsval :=
  match parse_value n (skip_ws s) with
  | POk v rest => match skip_ws rest with [] => POk v [] | _ :: _ => PErr end
  | PErr => PErr
  | PFuel => PFuel
  end.

Definition JSON_parse (s : jstr) : pres jsval := JSON_parse_fuel (S (length s)) s.

(** ** Exceptions and responses *)

Inductive exn :=
| TypeError
| SyntaxError
| RangeError
| URIError
| Error (message : jstr).

Inductive result (A : Type) :=
| Ok (a : A)
| Throw (e : exn).
Arguments Throw {A}.

Definition bind (A B : Type) (x : result A) (k : A -> result B) : result B :=
  match x with
  | Ok a => k a
  | Throw e => Throw e
  end.

Notation "x <- e ;; k" := (bind e (fun x => k))
  (at level 61, e at next level, right associativity).

Fixpoint mapM (A B : Type) (f : A -> result B) (l : list A) : result (list B) :=
  match l with
  | [] => Ok []
  | x :: r => y <- f x;; ys <- mapM f r;; Ok (y :: ys)
  end.

(** What a handler sends: [res.json(body)], or [res.status(500).json(...)]
    from its [catch]. *)
Inductive response (A : Type) :=
| Json200 (body : A)
| Status500 (e : exn).
Arguments Status500 {A}.

Definition respond (A : Type) (r : result A) : response A :=
  match r with
  | Ok a => Json200 a
  | Throw e => Status500 e
  end.

(** ** The platform

    What the embedding takes from the JavaScript runtime without defining it:
    Unicode case mapping, the double behind a number literal, number and
    date formatting, the clock and the random source of one run.
    [Math_random k] is the value of the k-th call of [Math.random()], a
    number in the interval from 0 (included) to 1 (excluded); [Date_now k] is
    what [Date.now()] reads when called just before that draw. *)
Class Platform := {
  toLowerCase : jstr -> jstr;
  Number_isZero : jstr -> bool;
  Number_toString : jstr -> jstr;
  toFixed1 : Q -> jstr;
  toISOString : Z -> jstr;
  Date_now : nat -> Z;
  Math_random : nat -> Q;
  Math_random_range : forall k, (0 <= Math_random k)%Q /\ (Math_random k < 1)%Q
}.

Definition isEmpty (s : jstr) : bool :=
  match s with [] => true | _ :: _ => false end.

(** Own property of an object built by [JSON.parse]: of two members with
    the same key the later one stays. *)
Fixpoint own (k : jstr) (f : list (jstr * jsval)) : option jsval :=
  match f with
  | [] => None
  | (k', v) :: r =>
      match own k r with
      | Some x => Some x
      | None => if jstr_eqb k k' then Some v else None
      end
  end.

(** [v.k] for the property names the source reads ([choices], [results],
    [output], [message], [content], [generated_text], [headers], [rows],
    [apiKey]): none is defined on a prototype, so only own properties of
    objects answer; reading a property of [undefined] or [null] throws. *)
Definition get (v : jsval) (k : jstr) : result jsval :=
  match v with
  | JUndef | JNull => Throw TypeError
  | JObj f => Ok (match own k f with Some x => x | None => JUndef end)
  | _ => Ok JUndef
  end.

(** [v[0]] *)
Definition get0 (v : jsval) : result jsval :=
  match v with
  | JUndef | JNull => Throw TypeError
  | JArr l => Ok (match l with x :: _ => x | [] => JUndef end)
  | JStr s => Ok (match s with c :: _ => JStr [c] | [] => JUndef end)
  | JObj f => Ok (match own (lit "0") f with Some x => x | None => JUndef end)
  | _ => Ok JUndef
  end.

Definition isArray (v : jsval) : bool :=
  match v with JArr _ => true | _ => false end.

Section Engine.
Context {P : Platform}.

(** [!!v] *)
Definition truthy (v : jsval) : bool :=
  match v with
  | JUndef | JNull => false
  | JBool b => b
  | JNum l => negb (Number_isZero l)
  | JStr s => negb (isEmpty s)
  | JArr _ | JObj _ => true
  end.

(** [String(v)].  An array joins its elements with commas, [null] and
    [undefined] elements as empty strings.  A plain object prints as
    [[object Object]] through [Object.prototype.toString]; an own member
    named [toString] hides that method and is not callable, and then the
    conversion throws. *)
Fixpoint ToString (v : jsval) : result jstr :=
  match v with
  | JUndef => Ok (lit "undefined")
  | JNull => Ok (lit "null")
  | JBool b => Ok (if b then lit "true" else lit "false")
  | JNum l => Ok (Number_toString l)
  | JStr s => Ok s
  | JArr l =>
      (fix join (l : list jsval) : result jstr :=
         match l with
         | [] => Ok []
         | x :: r =>
             sx <- match x with
                   | JUndef | JNull => Ok []
                   | _ => ToString x
                   end;;
             match r with
             | [] => Ok sx
             | _ :: _ => sr <- join r;; Ok (sx ++ lit "," ++ sr)
             end
         end) l
  | JObj f =>
      match own (lit "toString") f with
      | Some _ => Throw TypeError
      | None => Ok (lit "[object Object]")
      end
  end.

(** ** List mode *)

(** Line 67, the list-start rule: group 1 is the start of the text, spaces,
    the opening bracket, spaces; then a single quote, group 2 (a run free of
    single quotes) and a single quote.  Replaced by the bracket and group 2
    in double quotes. *)
Definition re_list_start : regex :=
  rseq [RGrp 1 (rseq [RBol; RStar (CSet [ISpc]); RChr (COne (ch "["));
                      RStar (CSet [ISpc])]);
        RChr (COne SQ); RGrp 2 (RStar (CNot [IChr SQ])); RChr (COne SQ)].
Definition to_list_start : list rpiece := [Txt [ch "["; DQ]; Ref 2; Txt [DQ]].

(** Line 68, the mid-list rule: a comma, at once a single quote, group 1 (a
    run free of single quotes), a single quote.  Replaced by the comma and
    group 1 in double quotes. *)
Definition re_list_mid : regex :=
  rseq [RChr (COne (ch ",")); RChr (COne SQ); RGrp 1 (RStar (CNot [IChr SQ]));
        RChr (COne SQ)].
Definition to_list_mid : list rpiece := [Txt [ch ","; DQ]; Ref 1; Txt [DQ]].

(** Line 69, the list-end rule: a single quote, group 1 (a run free of
    single quotes), a single quote, spaces, the closing bracket.  Replaced by
    group 1 in double quotes and the bracket. *)
Definition re_list_end : regex :=
  rseq [RChr (COne SQ); RGrp 1 (RStar (CNot [IChr SQ])); RChr (COne SQ);
        RStar (CSet [ISpc]); RChr (COne (ch "]"))].
Definition to_list_end : list rpiece := [Txt [DQ]; Ref 1; Txt [DQ; ch "]"]].

(** Lines 80 and 86: the quote [q] at the start of the text, or at its
    end. *)
Definition re_edge (q : cu) : regex :=
  RAlt (rseq [RBol; RChr (COne q)]) (rseq [RChr (COne q); REol]).

(** Line 85, the list marker: at the start of the line, one or more of
    dash, star, digit, dot, closing parenthesis, space. *)
Definition re_marker : regex :=
  rseq [RBol; RPlus (CSet [IChr (ch "-"); IChr (ch "*"); IDig; IChr (ch ".");
                           IChr (ch ")"); ISpc])].

(** One layer of double quotes, then one of single quotes, stripped from
    the two ends. *)
Definition strip_quotes (s : jstr) : jstr :=
  replaceAll (re_edge SQ) [] (replaceAll (re_edge DQ) [] s).

Definition nonEmpty (s : jstr) : bool := negb (isEmpty s).

(** The quote repair of the bracketed branch. *)
Definition jsonLike (t : jstr) : jstr :=
  replaceAll re_list_end to_list_end
    (replaceAll re_list_mid to_list_mid
       (replaceAll re_list_start to_list_start t)).

(** The [try] block of [normalizeToList]: [Some] is its [return]; [None]
    is falling out of it, by a parse that is no array or by an exception
    the empty [catch] swallows. *)
Definition try_json_array (t : jstr) : option (list jstr) :=
  match JSON_parse (jsonLike t) with
  | POk (JArr arr) _ =>
      match mapM (fun x => s <- ToString x;; Ok (trim s)) arr with
      | Ok l => Some (filter nonEmpty l)
      | Throw _ => None
      end
  | _ => None
  end.

(** [normalizeToList] on a string. *)
Definition normalizeToList_text (text : jstr) : list jstr :=
  if isEmpty text then []
  else
    let t := trim text in
    let bracketed :=
      (startsWith (lit "[") t && endsWith (lit "]") t)
      || (startsWith (lit "[") t && includes (lit "]") t) in
    match (if bracketed then try_json_array t else None) with
    | Some l => l
    | None =>
        if includes (lit ",") t && negb (includes [10%N] t) then
          filter nonEmpty (map strip_quotes (map trim (split (ch ",") t)))
        else
          filter nonEmpty
            (map strip_quotes
               (map (fun s => trim (replaceFirst re_marker [] s))
                    (split 10%N t)))
    end.

(** [normalizeToList] on any value: a falsy one gives the empty list, and a
    truthy one that is no string has no [trim] to call. *)
Definition normalizeToList (text : jsval) : result (list jstr) :=
  if negb (truthy text) then Ok []
  else match text with
       | JStr s => Ok (normalizeToList_text s)
       | _ => Throw TypeError
       end.

(** [list[i] || ''] *)
Definition orEmpty (x : option jstr) : jstr :=
  match x with
  | Some s => if isEmpty s then [] else s
  | None => []
  end.

(** The padding loop of [/generate]: [k] iterations are left, [i] is the
    loop counter, and the list [lst] is pushed to while it is read. *)
Fixpoint pad_loop (k i : nat) (lst : list jstr) : list jstr :=
  match k with
  | O => lst
  | S k' =>
      pad_loop k' (S i)
        (lst ++ [orEmpty (nth_error lst (i mod Nat.max 1 (length lst)))])
  end.

(** Lines 155-160 of the handler. *)
Definition resize (lst : list jstr) (count : Z) : list jstr :=
  let padded :=
    if (Z.of_nat (length lst) <? count)%Z
    then pad_loop (Z.to_nat (count - Z.of_nat (length lst))) 0 lst
    else lst in
  slice0 padded count.

(** The list pipeline on a model text: [normalizeToList], then the resize. *)
Definition generate_list (text : jstr) (count : Z) : list jstr :=
  resize (normalizeToList_text text) count.

(** [g.choices && g.choices[0] && g.choices[0].message], as the condition
    of an [if] (lines 139 and 257). *)
Definition chat_shape (genData : jsval) : result bool :=
  choices <- get genData (lit "choices");;
  if truthy choices then
    c0 <- get0 choices;;
    if truthy c0 then m <- get c0 (lit "message");; Ok (truthy m)
    else Ok false
  else Ok false.

(** [g.choices[0].message.content] *)
Definition chat_text (genData : jsval) : result jsval :=
  choices <- get genData (lit "choices");;
  c0 <- get0 choices;;
  m <- get c0 (lit "message");;
  get m (lit "content").


(** [g.results[0].generated_text] *)
Definition legacy_text (genData : jsval) : result jsval :=
  results <- get genData (lit "results");;
  r0 <- get0 results;;
  get r0 (lit "generated_text").




(** ** Table mode: the structured parse *)

(** Line 276, the code fence: at the start of the text three backticks,
    letters and a line feed; or three backticks at its end. *)
Definition re_fence : regex :=
  RAlt (rseq [RBol; RChr (COne 96); RChr (COne 96); RChr (COne 96);
              RStar (CSet [IRng 97 122; IRng 65 90]); RChr (COne 10)])
       (rseq [RChr (COne 96); RChr (COne 96); RChr (COne 96); REol]).

(** Line 292, keys: an optional double quote, group 1 (one or more letters,
    digits, underscores or spaces), an optional double quote, spaces, a
    colon.  Replaced by group 1 in double quotes and the colon. *)
Definition re_keys : regex :=
  rseq [ROpt (COne DQ);
        RGrp 1 (RPlus (CSet [IRng 97 122; IRng 65 90; IRng 48 57; IChr 95; ISpc]));
        ROpt (COne DQ); RStar (CSet [ISpc]); RChr (COne 58)].
Definition to_keys : list rpiece := [Txt [DQ]; Ref 1; Txt [DQ; 58%N]].

(** Line 293, single quotes: group 1 is the start of the text or one
    character that is no backslash; then a single quote, group 2 (the
    shortest run of characters of one line), a single quote, and, not
    consumed, a comma or a closing bracket or brace.  The replacer returns
    group 1 and group 2 in double quotes. *)
Definition re_squote : regex :=
  rseq [RGrp 1 (RAlt RBol (RChr (CNot [IChr 92])));
        RChr (COne SQ); RGrp 2 (RLazy CDot); RChr (COne SQ);
        RAhead (RChr (CSet [IChr 44; IChr 93; IChr 125]))].
Definition to_squote : list rpiece := [Ref 1; Txt [DQ]; Ref 2; Txt [DQ]].

(** Line 294, trailing commas: a comma, spaces, group 1 (a closing bracket
    or brace).  Replaced by group 1. *)
Definition re_trailing : regex :=
  rseq [RChr (COne 44); RStar (CSet [ISpc]);
        RGrp 1 (RChr (CSet [IChr 93; IChr 125]))].
Definition to_trailing : list rpiece := [Ref 1].

(** Lines 295-297, a key:value pair inside one string of an array: bracket,
    double quote, group 1 (no double quote), a colon, spaces, group 2 (no
    double quote), double quote, bracket.  Replaced by the two groups as two
    strings. *)
Definition re_pair : regex :=
  rseq [RChr (COne 91); RChr (COne DQ); RGrp 1 (RStar (CNot [IChr DQ]));
        RChr (COne 58); RStar (CSet [ISpc]); RGrp 2 (RStar (CNot [IChr DQ]));
        RChr (COne DQ); RChr (COne 93)].
Definition to_pair : list rpiece :=
  [Txt [91%N; DQ]; Ref 1; Txt ([DQ] ++ lit ", " ++ [DQ]); Ref 2; Txt [DQ; 93%N]].

(** Line 276 *)
Definition cleanText (text : jstr) : jstr :=
  trim (replaceAll re_fence [] (trim text)).

(** Lines 291-297 *)
Definition normalizeJson (cleaned : jstr) : jstr :=
  replaceAll re_pair to_pair
    (replaceAll re_pair to_pair
       (replaceAll re_pair to_pair
          (replaceAll re_trailing to_trailing
             (replaceAll re_squote to_squote
                (replaceAll re_keys to_keys cleaned))))).

(** Lines 276-312: the object read from the model text, by a direct parse
    or by a parse of the repaired text; a text that is no string has no
    [trim] to call. *)
Definition parse_object (text : jsval) : result jsval :=
  match text with
  | JStr s =>
      let cleaned := cleanText s in
      match JSON_parse cleaned with
      | POk obj _ => Ok obj
      | _ =>
          match JSON_parse (normalizeJson cleaned) with
          | POk obj _ => Ok obj
          | _ => Throw (Error (lit "Failed to parse JSON after cleanup"))
          end
      end
  | _ => Throw TypeError
  end.

(** Lines 316-319 *)
Definition clean_headers (hs : list jsval) (cols : Z) : result (list jstr) :=
  strs <- mapM ToString hs;;
  Ok (slice0
        (filter (fun x => nonEmpty x && nonEmpty (trim x)
                          && negb (includes (lit "[") x)
                          && negb (includes (lit "{") x)) strs)
        cols).

(** [Array(n)], for an integer [n]: a RangeError unless [n] is an array
    length. *)
Definition Array_new (n : Z) : result nat :=
  if ((n <? 0) || (4294967295 <? n))%Z then Throw RangeError
  else Ok (Z.to_nat n).

(** Line 328: a row cut to [cols] cells, or filled up to [cols] with empty
    strings. *)
Definition fit_row (cols : Z) (r : list jstr) : result (list jstr) :=
  if (cols <? Z.of_nat (length r))%Z then Ok (slice0 r cols)
  else n <- Array_new (cols - Z.of_nat (length r));; Ok (r ++ repeat [] n).

(** Lines 326-330 *)
Definition clean_rows (rs : list jsval) (rows cols : Z) : result (list (list jstr)) :=
  strs <- mapM (fun r => match r with
                         | JArr cells => mapM ToString cells
                         | _ => Ok []
                         end) rs;;
  fitted <- mapM (fit_row cols) strs;;
  Ok (slice0 (filter (fun row => negb (Nat.eqb (length row) 0)) fitted) rows).

(** How the [try] block of lines 274-342 ended. *)
Inductive completion :=
| Normal
| Caught (e : exn).

(** The [try] block with its [catch]: [headers] and [bodyRows] as they
    stand after it.  [headers] is assigned before [bodyRows] is computed, so
    an exception in the rows leaves the headers in place. *)
Definition structured_parse (text : jsval) (rows cols : Z)
    : list jstr * list (list jstr) * completion :=
  match parse_object text with
  | Throw e => ([], [], Caught e)
  | Ok obj =>
      if truthy obj then
        match get obj (lit "headers"), get obj (lit "rows") with
        | Ok (JArr hs), Ok (JArr rs) =>
            match clean_headers hs cols with
            | Throw e => ([], [], Caught e)
            | Ok headers =>
                match clean_rows rs rows cols with
                | Throw e => (headers, [], Caught e)
                | Ok bodyRows => (headers, bodyRows, Normal)
                end
            end
        | _, _ => ([], [], Normal)
        end
      else ([], [], Normal)
  end.

(** ** Table mode: header fallback *)

Definition userBase := map lit ["User ID"; "Name"; "Email"; "Role"; "Department"; "Status"]%string.
Definition userExtras := map lit ["Username"; "Phone"; "Location"; "Manager"; "Last Login"; "Created At"; "Country"; "City"]%string.
Definition productBase := map lit ["Product ID"; "Name"; "Category"; "Price"; "Stock"; "Rating"]%string.
Definition productExtras := map lit ["SKU"; "Brand"; "Color"; "Weight"; "Dimensions"; "Release Date"; "Supplier"; "Warehouse"]%string.
Definition orderBase := map lit ["Order ID"; "Customer"; "Product"; "Quantity"; "Price"; "Date"]%string.
Definition orderExtras := map lit ["Status"; "Shipping Address"; "Payment Method"; "Tracking No"; "Sales Rep"; "Discount"; "Tax"; "Total"]%string.
Definition perfBase := map lit ["Application"; "Hostname"; "Method"; "Start Time"; "Response Time (ms)"; "Load Time (ms)"; "Downtime (min)"; "Status"]%string.
Definition perfExtras := map lit ["Region"; "SLA (%)"; "Error Rate (%)"; "CPU (%)"; "Memory (%)"; "Disk (%)"; "Endpoint"; "Env"]%string.

(** Lines 362-373 *)
Definition proposed_headers (promptLower : jstr) : list jstr :=
  if includes (lit "user") promptLower || includes (lit "management") promptLower
  then userBase ++ userExtras
  else if includes (lit "product") promptLower
  then productBase ++ productExtras
  else if includes (lit "order") promptLower || includes (lit "sales") promptLower
  then orderBase ++ orderExtras
  else if includes (lit "performance") promptLower
          || includes (lit "downtime") promptLower
          || includes (lit "uptime") promptLower
  then perfBase ++ perfExtras
  else [].

(** The loop of line 380, [k] pushes left. *)
Fixpoint pad_headers (k : nat) (headers : list jstr) : list jstr :=
  match k with
  | O => headers
  | S k' =>
      pad_headers k'
        (headers ++ [lit "Column " ++ dec (Z.of_nat (length headers) + 1)])
  end.

(** Lines 348-381 *)
Definition fallback_headers (prompt : jstr) (cols : Z) : list jstr :=
  let proposed := proposed_headers (toLowerCase prompt) in
  if (cols <=? Z.of_nat (length proposed))%Z then slice0 proposed cols
  else pad_headers (Z.to_nat (cols - Z.of_nat (length proposed))) proposed.

(** ** Table mode: row fallback *)

(** A cell of a synthesized row: a string, or [None] for [undefined] (an
    array read out of its bounds). *)
Definition cell := option jstr.

(** A computation that draws from [Math.random()]: the number of draws made
    so far goes in and comes out. *)
Definition M (A : Type) := nat -> A * nat.
Definition ret (A : Type) (a : A) : M A := fun k => (a, k).
Definition bindM (A B : Type) (m : M A) (f : A -> M B) : M B :=
  fun k => let (a, k') := m k in f a k'.

Notation "x <~ e ;; k" := (bindM e (fun x => k))
  (at level 61, e at next level, right associativity).

(** [Math.random()] *)
Definition random : M Q := fun k => (Math_random k, S k).

(** [arr[i]] for an integer index *)
Definition at_index (A : Type) (arr : list A) (i : Z) : option A :=
  if (i <? 0)%Z then None else nth_error arr (Z.to_nat i).

Definition firstNames := map lit ["Liam";"Noah";"Oliver";"Elijah";"James";"William";"Benjamin";"Lucas";"Henry";"Alexander";"Emma";"Olivia";"Ava";"Isabella";"Sophia";"Mia";"Charlotte";"Amelia";"Harper";"Evelyn"]%string.
Definition lastNames := map lit ["Smith";"Johnson";"Williams";"Brown";"Jones";"Garcia";"Miller";"Davis";"Rodriguez";"Martinez";"Hernandez";"Lopez";"Gonzalez";"Wilson";"Anderson";"Thomas";"Taylor";"Moore";"Jackson";"Martin"]%string.
Definition roles := map lit ["Admin";"Manager";"Editor";"Viewer";"Analyst";"Developer";"Designer";"Support"]%string.
Definition departments := map lit ["Engineering";"Sales";"Marketing";"Finance";"HR";"Operations";"Customer Success";"IT"]%string.
Definition cities := map lit ["New York";"San Francisco";"London";"Berlin";"Paris";"Toronto";"Sydney";"Tokyo"]%string.
Definition httpMethods := map lit ["GET";"POST";"PUT";"DELETE";"PATCH"]%string.
Definition regions := map lit ["us-east-1";"us-west-2";"eu-central-1";"ap-south-1"]%string.
Definition envs := map lit ["prod";"staging";"dev"]%string.

Definition QofZ (z : Z) : Q := inject_Z z.

(** [arr[Math.floor(Math.random() * arr.length)]] *)
Definition rand (arr : list jstr) : M cell :=
  q <~ random;;
  ret (at_index arr (Qfloor (q * QofZ (Z.of_nat (length arr)))%Q)).

(** A value inside a template literal. *)
Definition tmpl (x : cell) : jstr :=
  match x with
  | Some s => s
  | None => lit "undefined"
  end.

Definition randomName : M jstr :=
  f <~ rand firstNames;;
  l <~ rand lastNames;;
  ret (tmpl f ++ lit " " ++ tmpl l).

(** Line 404: one or more characters outside a-z. *)
Definition re_nonlower : regex := RPlus (CNot [IRng 97 122]).

Definition usernameFrom (name : jstr) : jstr :=
  slice0 (replaceAll re_nonlower [] (toLowerCase name)) 12.

Definition emailFrom (name : jstr) (i : Z) : jstr :=
  usernameFrom name ++ dec (i + 1) ++ lit "@example.com".

Definition phone : M jstr :=
  a <~ random;;
  b <~ random;;
  c <~ random;;
  ret (lit "+1-" ++ dec (Qfloor (200 + a * 700)%Q) ++ lit "-"
       ++ dec (Qfloor (200 + b * 700)%Q) ++ lit "-"
       ++ dec (Qfloor (1000 + c * 9000)%Q)).

Definition id (i : Z) : jstr := lit "USR-" ++ dec (1000 + i).

Definition dateRecent : M jstr :=
  fun k =>
    let now := Date_now k in
    let (q, k') := random k in
    (slice0 (toISOString (now - Qfloor (q * 1000 * 60 * 60 * 24 * 90)%Q)%Z) 10, k').

Definition timeOfDay : M jstr :=
  fun k =>
    let now := Date_now k in
    let (q, k') := random k in
    (slice0 (replaceFirst (RChr (COne (ch "T"))) [Txt (lit " ")]
               (toISOString (now - Qfloor (q * 1000 * 60 * 60 * 24 * 7)%Q)%Z)) 19,
     k').

Definition hostname (i : Z) : jstr := lit "host" ++ dec (i + 1) ++ lit ".example.com".

Definition endpoint (i : Z) : jstr :=
  lit "/api/v" ++ dec (1 + i mod 3) ++ lit "/resource/" ++ dec (100 + i).

Definition pct (min max : Q) : M jstr :=
  q <~ random;;
  ret (toFixed1 (min + q * (max - min))%Q).

Definition int (min max : Z) : M Z :=
  q <~ random;;
  ret (Qfloor (QofZ min + q * QofZ (max - min + 1)%Z)%Q).

(** [h.includes(x)] and [h === x] for a literal [x] *)
Definition has (h : jstr) (x : string) : bool := includes (lit x) h.
Definition eqs (h : jstr) (x : string) : bool := jstr_eqb h (lit x).

(** Lines 425-457: the cell of row [r] and column [c] under the lower-cased
    header [h]; the first rule that matches answers. *)
Definition synth_cell (name : jstr) (r c : Z) (h : jstr) : M cell :=
  if has h "user id" || eqs h "id" || eqs h "userid"
     || (has h "id" && negb (has h "order") && negb (has h "product"))
  then ret (Some (id r))
  else if eqs h "name" || has h "full name" then ret (Some name)
  else if has h "username" then ret (Some (usernameFrom name))
  else if has h "email" then ret (Some (emailFrom name r))
  else if has h "role" then rand roles
  else if has h "department" then rand departments
  else if has h "status" && negb (has h "http" || has h "code")
  then ret (Some (if (r mod 2 =? 0)%Z then lit "Active" else lit "Inactive"))
  else if has h "phone" then x <~ phone;; ret (Some x)
  else if has h "location" || has h "city" then rand cities
  else if has h "manager" then x <~ randomName;; ret (Some x)
  else if has h "last login" then x <~ dateRecent;; ret (Some x)
  else if has h "created" then x <~ dateRecent;; ret (Some x)
  else if has h "updated" then x <~ dateRecent;; ret (Some x)
  else if has h "application" then ret (Some (lit "Application " ++ dec (r + 1)))
  else if has h "hostname" then ret (Some (hostname r))
  else if has h "method" then rand httpMethods
  else if has h "start time" then x <~ timeOfDay;; ret (Some x)
  else if has h "response time" then x <~ int 50 1200;; ret (Some (dec x))
  else if has h "load time" then x <~ int 200 5000;; ret (Some (dec x))
  else if has h "downtime" then x <~ int 0 120;; ret (Some (dec x))
  else if has h "sla" then x <~ pct 95%Q (9999 # 100)%Q;; ret (Some x)
  else if has h "error rate" then x <~ pct 0%Q 5%Q;; ret (Some x)
  else if has h "cpu" then x <~ pct 5%Q 95%Q;; ret (Some x)
  else if has h "memory" then x <~ pct 5%Q 95%Q;; ret (Some x)
  else if has h "disk" then x <~ pct 5%Q 95%Q;; ret (Some x)
  else if has h "endpoint" then ret (Some (endpoint r))
  else if has h "env" then rand envs
  else if has h "region" then rand regions
  else if eqs h "status"
  then x <~ int 0 1;; ret (Some (if (x =? 0)%Z then lit "Down" else lit "Up"))
  else ret (Some (lit "Value " ++ dec (r + 1) ++ lit "-" ++ dec (c + 1))).

(** Line 425: [(headers[c] || '').toLowerCase()] *)
Definition header_at (headers : list jstr) (c : Z) : jstr :=
  toLowerCase (orEmpty (at_index headers c)).

(** The loop of lines 424-458 over the columns [c], [c+1], ..., [k] of them
    left. *)
Fixpoint synth_cols (headers : list jstr) (name : jstr) (r : Z) (k : nat) (c : Z)
    : M (list cell) :=
  match k with
  | O => ret []
  | S k' =>
      x <~ synth_cell name r c (header_at headers c);;
      xs <~ synth_cols headers name r k' (c + 1)%Z;;
      ret (x :: xs)
  end.

(** One row: lines 422-459. *)
Definition synth_row (headers : list jstr) (cols : Z) (r : Z) : M (list cell) :=
  name <~ randomName;;
  synth_cols headers name r (Z.to_nat cols) 0.

(** [Array.from({ length: rows }, (_, r) => ...)]: rows [r], [r+1], ...,
    [k] of them left. *)
Fixpoint synth_rows (headers : list jstr) (cols : Z) (k : nat) (r : Z)
    : M (list (list cell)) :=
  match k with
  | O => ret []
  | S k' =>
      row <~ synth_row headers cols r;;
      more <~ synth_rows headers cols k' (r + 1)%Z;;
      ret (row :: more)
  end.

(** [Array.from({ length: n }, f)] for an integer [n]: the length is read
    as a length (a negative one is 0) and an array of that length is made, a
    RangeError when it is above the greatest array length; [f] is then
    called for every index. *)
Definition Array_from (n : Z) : result nat :=
  if (4294967295 <? n)%Z then Throw RangeError else Ok (Z.to_nat n).

(** Line 421 *)
Definition fallback_rows (headers : list jstr) (rows cols : Z)
    : result (list (list cell)) :=
  k <- Array_from rows;;
  Ok (fst (synth_rows headers cols k 0 0%nat)).

(** ** Table mode: the handler *)

Record table := { tbl_headers : list jstr; tbl_rows : list (list cell) }.

(** Lines 270-467: from the model text to the response body. *)
Definition table_of_text (text : jsval) (prompt : jstr) (rows cols : Z)
    : result table :=
  let '(parsedHeaders, parsedRows, _) := structured_parse text rows cols in
  let headers :=
    if negb (Z.of_nat (length parsedHeaders) =? cols)%Z
    then fallback_headers prompt cols
    else parsedHeaders in
  bodyRows <- (if negb (Z.of_nat (length parsedRows) =? rows)%Z
               then fallback_rows headers rows cols
               else Ok (map (map Some) parsedRows));;
  Ok {| tbl_headers := headers; tbl_rows := bodyRows |}.

(** Lines 175-179: the two placeholder texts.  Nothing reads them, but they
    are made at the start of the handler, before the model is called: one
    array of [cols] entries, then one of [rows] entries (each entry from an
    array of [cols] entries), a RangeError when [cols] or [rows] is above
    the greatest array length. *)
Definition placeholders (rows cols : Z) : result unit :=
  _ <- Array_from cols;;
  _ <- Array_from rows;;
  Ok tt.

(** [g.results && g.results[0] && g.results[0].generated_text], as the
    condition of an [if] (line 255). *)
Definition legacy_shape_table (genData : jsval) : result bool :=
  results <- get genData (lit "results");;
  if truthy results then
    r0 <- get0 results;;
    if truthy r0 then g <- get r0 (lit "generated_text");; Ok (truthy g)
    else Ok false
  else Ok false.

Definition unexpected_structure : exn :=
  Error (lit "Unexpected response structure from watsonx.ai").

(** The text of the response envelope, table mode (lines 252-262). *)
Definition extract_text_table (genData : jsval) : result jsval :=
  isLegacy <- legacy_shape_table genData;;
  if (isLegacy : bool) then legacy_text genData
  else
    isChat <- chat_shape genData;;
    if (isChat : bool) then chat_text genData
    else Throw unexpected_structure.

(** [POST /generateTable]: the placeholders, then the handler from the
    parsed upstream response on. *)
Definition generateTable (genData : jsval) (prompt : jstr) (rows cols : Z)
    : response table :=
  respond (_ <- placeholders rows cols;;
           text <- extract_text_table genData;;
           table_of_text text prompt rows cols).

(** ** The token endpoint *)

(** Characters [encodeURIComponent] leaves as they are: letters, digits and
    - _ . ! ~ * ' ( ) *)
Definition isUnreserved (c : cu) : bool :=
  (N.leb 65 c && N.leb c 90) || (N.leb 97 c && N.leb c 122)
  || (N.leb 48 c && N.leb c 57)
  || existsb (cu_eqb c) [45; 95; 46; 33; 126; 42; 39; 40; 41]%N.

Definition hexDigit (n : N) : cu := if N.ltb n 10 then (48 + n)%N else (55 + n)%N.

Definition pctByte (b : N) : jstr := [37%N; hexDigit (b / 16); hexDigit (b mod 16)].

(** The UTF-8 bytes of a code point. *)
Definition utf8 (cp : N) : list N :=
  if N.ltb cp 128 then [cp]
  else if N.ltb cp 2048 then [192 + cp / 64; 128 + cp mod 64]%N
  else if N.ltb cp 65536 then
    [224 + cp / 4096; 128 + (cp / 64) mod 64; 128 + cp mod 64]%N
  else [240 + cp / 262144; 128 + (cp / 4096) mod 64;
        128 + (cp / 64) mod 64; 128 + cp mod 64]%N.

Definition isHighSurrogate (c : cu) : bool := N.leb 55296 c && N.leb c 56319.
Definition isLowSurrogate (c : cu) : bool := N.leb 56320 c && N.leb c 57343.

(** [encodeURIComponent(s)]: a surrogate without its partner is a
    URIError. *)
Fixpoint encodeURIComponent (s : jstr) : result jstr :=
  match s with
  | [] => Ok []
  | c :: r =>
      if isUnreserved c then e <- encodeURIComponent r;; Ok (c :: e)
      else if isLowSurrogate c then Throw URIError
      else if isHighSurrogate c then
        match r with
        | d :: r' =>
            if isLowSurrogate d then
              e <- encodeURIComponent r';;
              Ok (flat_map pctByte
                    (utf8 ((c - 55296) * 1024 + (d - 56320) + 65536)%N) ++ e)
            else Throw URIError
        | [] => Throw URIError
        end
      else e <- encodeURIComponent r;; Ok (flat_map pctByte (utf8 c) ++ e)
  end.

(** What the handler passes to [fetch]. *)
Record fetch_request := {
  fetch_url : jstr;
  fetch_method : jstr;
  fetch_headers : list (jstr * jstr);
  fetch_body : jstr
}.

(** [process.env.WATSON_API_KEY]: a string when the variable is in the
    environment, [undefined] when it is not. *)
Definition env_value (v : option jstr) : jsval :=
  match v with
  | Some s => JStr s
  | None => JUndef
  end.

(** Lines 15 and 31: [!!WATSON_API_KEY], logged as the key existing. *)
Definition key_exists (WATSON_API_KEY : option jstr) : bool :=
  truthy (env_value WATSON_API_KEY).

(** Line 28: [WATSON_API_KEY || req.body.apiKey] *)
Definition token_apiKey (WATSON_API_KEY : option jstr) (body : jsval) : result jsval :=
  if truthy (env_value WATSON_API_KEY) then Ok (env_value WATSON_API_KEY)
  else get body (lit "apiKey").

(** Lines 37-44: the [fetch] call, as a function of the chosen key. *)
Definition exchange_request (apiKey : jsval) : result fetch_request :=
  s <- ToString apiKey;;
  e <- encodeURIComponent s;;
  Ok {| fetch_url := lit "https://iam.cloud.ibm.com/identity/token";
        fetch_method := lit "POST";
        fetch_headers :=
          [(lit "Content-Type", lit "application/x-www-form-urlencoded");
           (lit "Accept", lit "application/json")];
        fetch_body :=
          lit "grant_type=urn:ibm:params:oauth:grant-type:apikey&apikey=" ++ e |}.

(** Lines 28-44: the request sent to the credential exchange service.  Line
    32 reads [req.body.apiKey] for the log whichever key was chosen. *)
Definition token_request (WATSON_API_KEY : option jstr) (body : jsval)
    : result fetch_request :=
  apiKey <- token_apiKey WATSON_API_KEY body;;
  _ <- get body (lit "apiKey");;
  exchange_request apiKey.

End Engine.

(** ** A reference platform

    Used to evaluate the handlers on concrete inputs.  Case mapping is the
    ASCII one and a number prints as its literal: exact on ASCII text and on
    plain integer literals, which is all the evaluated inputs contain.  The
    random source is the constant one half and the clock stands still. *)

Definition ascii_toLowerCase (s : jstr) : jstr :=
  map (fun c => if N.leb 65 c && N.leb c 90 then (c + 32)%N else c) s.

(** Whether a literal denotes zero: no digit of its mantissa is non-zero. *)
Fixpoint literal_isZero (l : jstr) : bool :=
  match l with
  | [] => true
  | c :: r =>
      if cu_eqb c 101 || cu_eqb c 69 then true
      else if N.leb 49 c && N.leb c 57 then false
      else literal_isZero r
  end.

(** Rounding to one decimal, for a non-negative argument. *)
Definition ref_toFixed1 (q : Q) : jstr :=
  let n := Qfloor (q * 10 + (1 # 2))%Q in
  dec (n / 10) ++ lit "." ++ dec (n mod 10).

Definition pad0 (width : nat) (z : Z) : jstr :=
  let d := dec z in repeat 48%N (width - length d) ++ d.

(** Year, month and day of a day count from 1970-01-01. *)
Definition civil (days : Z) : Z * Z * Z :=
  let z := (days + 719468)%Z in
  let era := (z / 146097)%Z in
  let doe := (z mod 146097)%Z in
  let yoe := ((doe - doe / 1460 + doe / 36524 - doe / 146096) / 365)%Z in
  let doy := (doe - (365 * yoe + yoe / 4 - yoe / 100))%Z in
  let mp := ((5 * doy + 2) / 153)%Z in
  let d := (doy - (153 * mp + 2) / 5 + 1)%Z in
  let m := (if mp <? 10 then mp + 3 else mp - 9)%Z in
  ((if m <=? 2 then yoe + era * 400 + 1 else yoe + era * 400)%Z, m, d).

(** [new Date(ms).toISOString()] for the years 0000 to 9999. *)
Definition ref_toISOString (ms : Z) : jstr :=
  let '(y, m, d) := civil (ms / 86400000) in
  let t := (ms mod 86400000)%Z in
  pad0 4 y ++ lit "-" ++ pad0 2 m ++ lit "-" ++ pad0 2 d ++ lit "T"
  ++ pad0 2 (t / 3600000) ++ lit ":" ++ pad0 2 ((t / 60000) mod 60) ++ lit ":"
  ++ pad0 2 ((t / 1000) mod 60) ++ lit "." ++ pad0 3 (t mod 1000) ++ lit "Z".

Definition half_in_range : forall k : nat, (0 <= 1 # 2)%Q /\ (1 # 2 < 1)%Q :=
  fun _ => conj (fun H : (0 * 2 ?= 1 * 1)%Z = Gt =>
                   match H in _ = c return match c with Gt => False | _ => True end
                   with eq_refl => I end)
                eq_refl.

Definition reference : Platform := {|
  toLowerCase := ascii_toLowerCase;
  Number_isZero := literal_isZero;
  Number_toString := fun l => l;
  toFixed1 := ref_toFixed1;
  toISOString := ref_toISOString;
  Date_now := fun _ => 1700000000000%Z;
  Math_random := fun _ => (1 # 2)%Q;
  Math_random_range := half_in_range
|}.

(** A text written with backticks where the source text has double
    quotes. *)
Definition bq (s : string) : jstr :=
  map (fun c => if cu_eqb c 96 then DQ else c) (lit s).

(** A chat envelope with the given content. *)
Definition chat_envelope (content : jstr) : jsval :=
  JObj [(lit "choices",
         JArr [JObj [(lit "message", JObj [(lit "content", JStr content)])]])].

(** The header fallback in the words of the specification: an ordered table
    of keyword lists and templates, the first row with a keyword found in
    the lower-cased prompt selecting its template; the template cut to
    [cols] entries, then [Column N] for the positions N after it. *)
Definition keyword_table : list (list string * list jstr) :=
  [ (["user"; "management"]%string, userBase ++ userExtras);
    (["product"]%string, productBase ++ productExtras);
    (["order"; "sales"]%string, orderBase ++ orderExtras);
    (["performance"; "downtime"; "uptime"]%string, perfBase ++ perfExtras) ].

Definition spec_template (promptLower : jstr) : list jstr :=
  match find (fun row => existsb (fun kw => includes (lit kw) promptLower) (fst row))
             keyword_table with
  | Some row => snd row
  | None => []
  end.

Definition column_label (n : nat) : jstr := lit "Column " ++ dec (Z.of_nat n).

Definition spec_fallback_headers (promptLower : jstr) (cols : nat) : list jstr :=
  let template := spec_template promptLower in
  firstn cols template
  ++ map column_label (seq (length template + 1) (cols - length template)).

(** The rules of the row fallback that are tried before the status rule
    (lines 427-432). *)
Definition rules_before_status (h : jstr) : bool :=
  (has h "user id" || eqs h "id" || eqs h "userid"
   || (has h "id" && negb (has h "order") && negb (has h "product")))
  || (eqs h "name" || has h "full name")
  || has h "username" || has h "email" || has h "role" || has h "department".

(** The cell of row [r] and column [c] of a table body. *)
Definition cell_at (body : list (list cell)) (r c : nat) : option cell :=
  match nth_error body r with
  | Some row => nth_error row c
  | None => None
  end.

(** Line 314: an object with an array [headers] and an array [rows]. *)
Definition has_table_shape {P : Platform} (obj : jsval) : bool :=
  truthy obj
  && match get obj (lit "headers"), get obj (lit "rows") with
     | Ok (JArr _), Ok (JArr _) => true
     | _, _ => false
     end.

(** The table when nothing was parsed: both fallbacks. *)
Definition full_fallback {P : Platform} (prompt : jstr) (rows cols : Z)
    : result table :=
  bodyRows <- fallback_rows (fallback_headers prompt cols) rows cols;;
  Ok {| tbl_headers := fallback_headers prompt cols; tbl_rows := bodyRows |}.

(** Whether every match of a pattern contains the character [c] (a
    sufficient syntactic test). *)
Fixpoint needs (c : cu) (re : regex) : bool :=
  match re with
  | RChr (COne x) => cu_eqb x c
  | RPlus (COne x) => cu_eqb x c
  | RSeq a b => needs c a || needs c b
  | RAlt a b => needs c a && needs c b
  | RGrp _ a => needs c a
  | RAhead a => needs c a
  | _ => false
  end.

(** [rest] is what is left of [s] after a prefix was read; [advances s
    rest]: after a non-empty prefix. *)
Definition tail_of (rest s : jstr) : Prop := exists pre, s = pre ++ rest.

Definition advances (s rest : jstr) : Prop :=
  match s with
  | [] => False
  | _ :: r => tail_of rest r
  end.

(** A drawing computation whose cell is never [undefined]. *)
Definition present (m : M cell) : Prop := forall k, fst (m k) <> None.

(** A rest of text before which a number literal ends: no digit, dot or
    exponent mark comes first. *)
Definition numberChar (c : cu) : bool :=
  isDigit c || cu_eqb c 46 || cu_eqb c 101 || cu_eqb c 69.

Definition stops (tl : jstr) : Prop :=
  match tl with
  | [] => True
  | c :: _ => numberChar c = false
  end.

(** A text whose last character is [c]. *)
Definition ends_with (c : cu) (s : jstr) : Prop := exists s0, s = s0 ++ [c].

(** The first character of a rest, if any, fails the test [p]. *)
Definition head_fails (p : cu -> bool) (tl : jstr) : Prop :=
  match tl with
  | [] => True
  | c :: _ => p c = false
  end.

(** The parsers [pvf m] answer as [pv] did on the core [pv] read, whatever
    follows the core, when [m] is above its length. *)
Definition local_for (pv : jstr -> pres jsval) (pvf : nat -> jstr -> pres jsval) : Prop :=
  forall s v rest, pv s = POk v rest ->
    exists core, s = core ++ rest /\ core <> []
      /\ forall m tl, length core < m -> stops tl -> pvf m (core ++ tl) = POk v tl.

(** ** The address of the model endpoint, and the prompt of a table request *)

(** Lines 95 and 174: a slash at the end of the text. *)
Definition re_end_slash : regex := rseq [RChr (COne (ch "/")); REol].

(** Lines 95 and 174: [genUrl], for the endpoint the request names (a
    string). *)
Definition genUrl (base : jstr) : jstr :=
  replaceFirst re_end_slash [] base ++ lit "/ml/v1/text/chat?version=2023-05-29".

Section Requests.
Context {P : Platform}.

(** Lines 348-381 with the prompt as the request carries it: only a string
    has [toLowerCase] to call. *)
Definition fallback_headers_of (prompt : jsval) (cols : Z) : result (list jstr) :=
  match prompt with
  | JStr p => Ok (fallback_headers p cols)
  | _ => Throw TypeError
  end.

(** Lines 270-467 with the prompt as the request carries it. *)
Definition table_of_request (text prompt : jsval) (rows cols : Z) : result table :=
  let '(parsedHeaders, parsedRows, _) := structured_parse text rows cols in
  headers <- (if negb (Z.of_nat (length parsedHeaders) =? cols)%Z
              then fallback_headers_of prompt cols
              else Ok parsedHeaders);;
  bodyRows <- (if negb (Z.of_nat (length parsedRows) =? rows)%Z
               then fallback_rows headers rows cols
               else Ok (map (map Some) parsedRows));;
  Ok {| tbl_headers := headers; tbl_rows := bodyRows |}.

(** [POST /generateTable] for any prompt.  The placeholders are made first
    (lines 175-179); the prompt is printed into the instruction of line 202
    before the model is called, and that conversion comes next. *)
Definition generateTable_request (genData prompt : jsval) (rows cols : Z)
    : response table :=
  respond (_ <- placeholders rows cols;;
           _ <- ToString prompt;;
           text <- extract_text_table genData;;
           table_of_request text prompt rows cols).

End Requests.

(** ** Vocabulary of the further properties *)

(** Line 318: the test a header of the model has to pass. *)
Definition header_ok (x : jstr) : bool :=
  nonEmpty x && nonEmpty (trim x)
  && negb (includes (lit "[") x) && negb (includes (lit "{") x).

(** Line 328 in one expression: a row cut to [cols] cells or filled up with
    empty strings. *)
Definition fit (cols : nat) (r : list jstr) : list jstr :=
  firstn cols r ++ repeat [] (cols - length r).

(** The JSON value of a list of rows of strings. *)
Definition rows_value (R : list (list jstr)) : jsval :=
  JArr (map (fun r => JArr (map JStr r)) R).

(** A text inside a code fence: three backticks, a tag, a line feed, the
    text, three backticks. *)
Definition fenced (tag body : jstr) : jstr :=
  lit "```" ++ tag ++ [10%N] ++ body ++ lit "```".

Definition isLetter (c : cu) : bool :=
  (N.leb 97 c && N.leb c 122) || (N.leb 65 c && N.leb c 90).

Definition isLower (c : cu) : bool := N.leb 97 c && N.leb c 122.

(** The characters line 85 strips from the start of a line. *)
Definition isMarker (c : cu) : bool :=
  class_ok (CSet [IChr (ch "-"); IChr (ch "*"); IDig; IChr (ch "."); IChr (ch ")"); ISpc]) c.

(** [l.join(sep)] *)
Fixpoint join (sep : jstr) (l : list jstr) : jstr :=
  match l with
  | [] => []
  | [x] => x
  | x :: r => x ++ sep ++ join sep r
  end.

(** A text without whitespace at its two ends. *)
Definition tight (s : jstr) : Prop :=
  head_fails isWhiteSpace s /\ head_fails isWhiteSpace (rev s).

(** A text that neither starts nor ends with a quote. *)
Definition unquoted (s : jstr) : Prop :=
  head_fails (fun c => cu_eqb c DQ || cu_eqb c SQ) s
  /\ head_fails (fun c => cu_eqb c DQ || cu_eqb c SQ) (rev s).

(** What [encodeURIComponent] writes: unreserved characters and the percent
    sign. *)
Definition uri_char (c : cu) : bool := isUnreserved c || cu_eqb c 37.

(** The table of generic labels: [Column N] over [Value R-C]. *)
Definition value_label (r c : nat) : jstr :=
  lit "Value " ++ dec (Z.of_nat r) ++ lit "-" ++ dec (Z.of_nat c).

Definition generic_table (rows cols : nat) : table :=
  {| tbl_headers := map column_label (seq 1 cols);
     tbl_rows := map (fun r => map (fun c => Some (value_label r c)) (seq 1 cols))
                     (seq 1 rows) |}.

(** The keywords the header fallback looks for in the prompt (lines
    363-369). *)
Definition prompt_keywords : list string :=
  ["user"; "management"; "product"; "order"; "sales"; "performance";
   "downtime"; "uptime"]%string.

(** The identifier rule of the row fallback (line 427) and the name rule
    (line 428). *)
Definition rule_id (h : jstr) : bool :=
  has h "user id" || eqs h "id" || eqs h "userid"
  || (has h "id" && negb (has h "order") && negb (has h "product")).

Definition rule_name (h : jstr) : bool := eqs h "name" || has h "full name".

(** The characters of a generic column label. *)
Definition label_char (c : cu) : bool :=
  existsb (cu_eqb c) (lit "Column ") || isDigit c.

(** The characters of a lower-cased generic column label. *)
Definition low_char (c : cu) : bool :=
  existsb (cu_eqb c) (lit "column ") || isDigit c.

(** An item of a list as a model writes it: not empty, no whitespace and no
    quote at its two ends. *)
Definition plain_item (a : jstr) : Prop := a <> [] /\ trim a = a /\ unquoted a.

(** A line of a list: a marker (dashes, stars, digits, dots, closing
    parentheses, spaces) and an item. *)
Definition line_of (l : jstr * jstr) : jstr := fst l ++ snd l.

(** A line as the source reads it: the marker is made of marker characters,
    the item is plain and does not start with one, and no line feed is
    inside. *)
Definition marked_line (l : jstr * jstr) : Prop :=
  Forall (fun c => isMarker c = true) (fst l) /\ ~ In 10%N (fst l)
  /\ plain_item (snd l) /\ ~ In 10%N (snd l) /\ head_fails isMarker (snd l).

(** A character that stands for itself between the quotes of a JSON string
    and is no single quote. *)
Definition item_char (c : cu) : bool :=
  negb (cu_eqb c SQ) && negb (cu_eqb c DQ) && negb (cu_eqb c 92) && N.leb 32 c.

(** An array of strings in the quotes [q], nothing between a comma and the
    quote after it. *)
Definition quoted_array (q : cu) (first : jstr) (more : list jstr) : jstr :=
  [91%N; q] ++ first ++ [q] ++ flat_map (fun a => [44%N; q] ++ a ++ [q]) more ++ [93%N].

(** Whether [x] is somewhere in the text directly followed by [y]. *)
Fixpoint follows (x y : cu) (s : jstr) : bool :=
  match s with
  | [] => false
  | c :: r =>
      match r with
      | d :: _ => (cu_eqb c x && cu_eqb d y) || follows x y r
      | [] => false
      end
  end.

(** An item between single quotes. *)
Definition in_quotes (a : jstr) : jstr := [SQ] ++ a ++ [SQ].

(** An array of two or more strings in single quotes, a comma and a space
    between them: the opening bracket and the first item, the items in the
    middle (none in an array of two), the last item and the closing
    bracket. *)
Definition spaced_array (first : jstr) (middle : list jstr) (last : jstr) : jstr :=
  join [44%N; 32%N]
       (([91%N] ++ in_quotes first) :: map in_quotes middle
        ++ [in_quotes last ++ [93%N]]).

(** A character of an item of such an array: as above, and no comma. *)
Definition word_char (c : cu) : bool := item_char c && negb (cu_eqb c 44).

(** * Properties *)

(** ** Lists and strings *)

Lemma filter_nonEmpty_all (l : list jstr) :
  Forall (fun s => s <> []) (filter nonEmpty l).
Proof.
  induction l as [|x l IH]; simpl; auto.
  destruct x; simpl; auto.
  constructor; [discriminate | exact IH].
Qed.

Lemma filter_nonEmpty_id (l : list jstr) :
  Forall (fun s => s <> []) l -> filter nonEmpty l = l.
Proof.
  induction 1 as [|x l Hx _ IH]; simpl; auto.
  destruct x; [congruence | simpl; now rewrite IH].
Qed.

Lemma slice0_nonneg (A : Type) (l : list A) (e : Z) :
  (0 <= e)%Z -> slice0 l e = firstn (Z.to_nat e) l.
Proof.
  intros H. unfold slice0.
  destruct (Z.ltb_spec e 0); [lia | reflexivity].
Qed.

Lemma orEmpty_nonempty (x : jstr) : x <> [] -> orEmpty (Some x) = x.
Proof. destruct x; [congruence | reflexivity]. Qed.

Lemma orEmpty_repeat (n j : nat) : orEmpty (nth_error (repeat ([] : jstr) n) j) = [].
Proof.
  revert j; induction n as [|n IH]; intros [|j]; simpl; auto.
Qed.

Lemma repeat_snoc (A : Type) (x : A) (n : nat) : repeat x n ++ [x] = repeat x (S n).
Proof. induction n as [|n IH]; simpl; [reflexivity | now rewrite IH]. Qed.

(** ** The padding loop *)

Lemma pad_loop_empty (k i : nat) :
  pad_loop k i (repeat [] i) = repeat [] (i + k).
Proof.
  revert i; induction k as [|k IH]; intros i; simpl.
  - now rewrite Nat.add_0_r.
  - rewrite orEmpty_repeat, repeat_snoc, IH. f_equal. lia.
Qed.

Lemma pad_loop_cycle (l0 : list jstr) :
  l0 <> [] -> Forall (fun s => s <> []) l0 ->
  forall k i lst,
    length lst = length l0 + i ->
    (forall j, j < length lst -> nth_error lst j = nth_error l0 (j mod length l0)) ->
    length (pad_loop k i lst) = length l0 + i + k
    /\ forall j, j < length l0 + i + k ->
         nth_error (pad_loop k i lst) j = nth_error l0 (j mod length l0).
Proof.
  intros Hne Hall.
  assert (Hpos : 0 < length l0) by (destruct l0; [congruence | simpl; lia]).
  induction k as [|k IH]; intros i lst Hlen Hcyc; cbn [pad_loop].
  - split; [lia |]. intros j Hj. apply Hcyc. lia.
  - assert (Hmax : Nat.max 1 (length lst) = length lst) by lia.
    rewrite Hmax.
    assert (Hi : i mod length lst = i) by (apply Nat.mod_small; lia).
    rewrite Hi, (Hcyc i) by lia.
    destruct (nth_error l0 (i mod length l0)) as [x|] eqn:Hx.
    2:{ apply nth_error_None in Hx.
        pose proof (Nat.mod_upper_bound i (length l0)). lia. }
    assert (Hxne : x <> []).
    { rewrite Forall_forall in Hall. apply Hall. eapply nth_error_In; eauto. }
    rewrite (orEmpty_nonempty Hxne).
    destruct (IH (S i) (lst ++ [x])) as [IHlen IHcyc].
    + rewrite length_app; simpl; lia.
    + intros j Hj. rewrite length_app in Hj; simpl in Hj.
      destruct (Nat.eq_dec j (length lst)) as [->|Hneq].
      * rewrite nth_error_app2, Nat.sub_diag by lia. simpl.
        rewrite Hlen, Nat.add_comm.
        replace (i + length l0) with (i + 1 * length l0) by lia.
        rewrite Nat.Div0.mod_add. now rewrite Hx.
      * rewrite nth_error_app1 by lia. apply Hcyc. lia.
    + split; [lia |]. intros j Hj. apply IHcyc. lia.
Qed.

(** ** Regular expressions: a needed character *)

Lemma star_greedy_fail (R : Type) (k : cclass) (s : jstr) :
  forall (bol : bool) (cont : bool -> jstr -> option R),
  (forall b s', incl s' s -> cont b s' = None) ->
  star_greedy k bol s cont = None.
Proof.
  induction s as [|c r IH]; intros bol cont H; cbn [star_greedy].
  - apply H, incl_refl.
  - destruct (class_ok k c).
    + rewrite IH by (intros; apply H; now apply incl_tl).
      cbn. apply H, incl_refl.
    + apply H, incl_refl.
Qed.

Lemma star_lazy_fail (R : Type) (k : cclass) (s : jstr) :
  forall (bol : bool) (cont : bool -> jstr -> option R),
  (forall b s', incl s' s -> cont b s' = None) ->
  star_lazy k bol s cont = None.
Proof.
  induction s as [|c r IH]; intros bol cont H; cbn [star_lazy];
    rewrite (H bol _ (incl_refl _)); [reflexivity |].
  destruct (class_ok k c); [| reflexivity].
  apply IH. intros; apply H; now apply incl_tl.
Qed.

(** A matcher whose continuation fails on every rest of the text fails. *)
Lemma rmatch_fail (R : Type) (re : regex) :
  forall (bol : bool) (s : jstr) (cs : caps) (cont : bool -> jstr -> caps -> option R),
  (forall b s' cs', incl s' s -> cont b s' cs' = None) ->
  rmatch re bol s cs cont = None.
Proof.
  induction re as [| k | k | k | k | k | | | a IHa b IHb | a IHa b IHb | i a IHa | a IHa];
    intros bol s cs cont H; cbn [rmatch].
  - apply H, incl_refl.
  - destruct s as [|c r]; [reflexivity |].
    destruct (class_ok k c); [| reflexivity]. apply H. now apply incl_tl, incl_refl.
  - apply star_greedy_fail. intros; now apply H.
  - destruct s as [|c r]; [reflexivity |].
    destruct (class_ok k c); [| reflexivity].
    apply star_greedy_fail. intros; apply H. now apply incl_tl.
  - apply star_lazy_fail. intros; now apply H.
  - destruct s as [|c r]; [apply H, incl_refl |].
    destruct (class_ok k c).
    + rewrite (H false r cs) by (apply incl_tl, incl_refl). cbn. apply H, incl_refl.
    + apply H, incl_refl.
  - destruct bol; [apply H, incl_refl | reflexivity].
  - destruct s; [apply H, incl_refl | reflexivity].
  - apply IHa. intros b' s' cs' Hs'. apply IHb.
    intros b'' s'' cs'' Hs''. apply H. eapply incl_tran; eauto.
  - rewrite IHa, IHb by assumption. reflexivity.
  - apply IHa. intros; now apply H.
  - destruct (rmatch a bol s cs _); [apply H, incl_refl | reflexivity].
Qed.

Lemma rmatch_needs (c : cu) (re : regex) :
  needs c re = true ->
  forall (R : Type) (bol : bool) (s : jstr) (cs : caps)
         (cont : bool -> jstr -> caps -> option R),
  ~ In c s -> rmatch re bol s cs cont = None.
Proof.
  induction re as [| k | k | k | k | k | | | a IHa b IHb | a IHa b IHb | i a IHa | a IHa];
    cbn [needs]; try discriminate; intros Hn R bol s cs cont Hc; cbn [rmatch].
  - destruct k; try discriminate. apply N.eqb_eq in Hn. subst c0.
    destruct s as [|y r]; [reflexivity |]. cbn [class_ok].
    destruct (cu_eqb y c) eqn:E; [| reflexivity].
    apply N.eqb_eq in E. subst y. exfalso. apply Hc. now left.
  - destruct k; try discriminate. apply N.eqb_eq in Hn. subst c0.
    destruct s as [|y r]; [reflexivity |]. cbn [class_ok].
    destruct (cu_eqb y c) eqn:E; [| reflexivity].
    apply N.eqb_eq in E. subst y. exfalso. apply Hc. now left.
  - destruct (needs c a) eqn:Na.
    + now apply IHa.
    + cbn [orb] in Hn. apply rmatch_fail. intros b' s' cs' Hs'.
      apply IHb; [assumption |]. intros Hin. apply Hc. now apply Hs'.
  - apply andb_true_iff in Hn. destruct Hn as [Na Nb].
    rewrite IHa, IHb by assumption. reflexivity.
  - now apply IHa.
  - rewrite IHa by assumption. reflexivity.
Qed.

Lemma replace_go_no_match (re : regex) (t : list rpiece) (s : jstr) :
  forall bol,
  (forall b s', incl s' s -> match_here re b s' = None) ->
  replace_go re t bol 0 s = s.
Proof.
  induction s as [|c r IH]; intros bol H; cbn [replace_go];
    rewrite (H bol _ (incl_refl _)); [reflexivity |].
  f_equal. apply IH. intros; apply H. now apply incl_tl.
Qed.

Lemma replaceAll_needs (c : cu) (re : regex) (t : list rpiece) (s : jstr) :
  needs c re = true -> ~ In c s -> replaceAll re t s = s.
Proof.
  intros Hn Hc. apply replace_go_no_match. intros b s' Hs'.
  unfold match_here. apply rmatch_needs with (c := c); [assumption |].
  intros Hin. apply Hc. now apply Hs'.
Qed.

(** ** The parser reads a prefix *)

Lemma tail_refl (s : jstr) : tail_of s s.
Proof. now exists []. Qed.

Lemma tail_cons (c : cu) (rest s : jstr) : tail_of rest s -> tail_of rest (c :: s).
Proof. intros [pre ->]. now exists (c :: pre). Qed.

Lemma tail_trans (a b c : jstr) : tail_of a b -> tail_of b c -> tail_of a c.
Proof. intros [p ->] [q ->]. exists (q ++ p). now rewrite app_assoc. Qed.

Lemma tail_length (rest s : jstr) : tail_of rest s -> length rest <= length s.
Proof. intros [pre ->]. rewrite length_app. lia. Qed.

Lemma tail_incl (rest s : jstr) : tail_of rest s -> incl rest s.
Proof. intros [pre ->]. now apply incl_appr, incl_refl. Qed.

Lemma advances_tail (s rest : jstr) : advances s rest -> tail_of rest s.
Proof. destruct s; cbn; [tauto | apply tail_cons]. Qed.

Lemma advances_length (s rest : jstr) : advances s rest -> length rest < length s.
Proof. destruct s; cbn; [tauto |]. intros H%tail_length. lia. Qed.

Lemma advances_then (s r1 r2 : jstr) : advances s r1 -> tail_of r2 r1 -> advances s r2.
Proof. destruct s; cbn; [tauto |]. intros; eapply tail_trans; eauto. Qed.

Lemma tail_then_advances (s r1 r2 : jstr) : tail_of r1 s -> advances r1 r2 -> advances s r2.
Proof.
  intros [pre ->] H. destruct pre as [|c pre]; [exact H |].
  cbn. apply advances_tail in H. eapply tail_trans; [exact H |]. now exists pre.
Qed.

Lemma skip_ws_tail (s : jstr) : tail_of (skip_ws s) s.
Proof.
  induction s as [|c r IH]; cbn [skip_ws]; [apply tail_refl |].
  destruct (isJsonWs c); [now apply tail_cons | apply tail_refl].
Qed.

Lemma pmap_ok (A B : Type) (f : A -> B) (p : pres A) (v : B) (rest : jstr) :
  pmap f p = POk v rest -> exists a, p = POk a rest /\ v = f a.
Proof. destruct p; cbn; intros [= <- <-] || discriminate. eauto. Qed.

Lemma parse_chars_advances_bounded (n : nat) :
  forall s v rest, length s <= n -> parse_chars s = POk v rest -> advances s rest.
Proof.
  induction n as [|n IH]; intros s v rest Hn; destruct s as [|c r];
    cbn [parse_chars]; try discriminate; cbn [length] in Hn; [lia |].
  cbn [advances].
  destruct (cu_eqb c DQ); [intros [= <- <-]; apply tail_refl |].
  destruct (cu_eqb c 92).
  - destruct r as [|e r1]; [discriminate |].
    destruct (cu_eqb e 117).
    + destruct r1 as [|h1 [|h2 [|h3 [|h4 r2]]]]; try discriminate.
      destruct (hex4 h1 h2 h3 h4); [| discriminate].
      intros (a & E & _)%pmap_ok.
      apply IH in E; [| cbn [length] in Hn; lia].
      do 5 apply tail_cons. now apply advances_tail.
    + destruct (escape_char e); [| discriminate].
      intros (a & E & _)%pmap_ok.
      apply IH in E; [| cbn [length] in Hn; lia].
      apply tail_cons. now apply advances_tail.
  - destruct (N.ltb c 32); [discriminate |].
    intros (a & E & _)%pmap_ok.
    apply IH in E; [| lia]. now apply advances_tail.
Qed.

Lemma parse_chars_advances (s v rest : jstr) :
  parse_chars s = POk v rest -> advances s rest.
Proof. now apply parse_chars_advances_bounded with (n := length s). Qed.

Lemma take_digits_tail (s d r : jstr) : take_digits s = (d, r) -> tail_of r s.
Proof.
  revert d r; induction s as [|c s IH]; intros d r; cbn [take_digits].
  - intros [= <- <-]. apply tail_refl.
  - destruct (isDigit c).
    + destruct (take_digits s) as [d' r'] eqn:E. intros [= <- <-].
      apply tail_cons. eapply IH; reflexivity.
    + intros [= <- <-]. apply tail_refl.
Qed.

Lemma lex_number_advances (s l rest : jstr) :
  lex_number s = POk l rest -> advances s rest.
Proof.
  unfold lex_number.
  set (ms := match s with
             | c :: r => if cu_eqb c 45 then ([c], r) else ([], s)
             | [] => ([], s)
             end).
  assert (Hms : tail_of (snd ms) s).
  { subst ms. destruct s as [|c r]; [apply tail_refl |].
    destruct (cu_eqb c 45); cbn; [apply tail_cons |]; apply tail_refl. }
  destruct ms as [minus s0]. cbn [snd] in Hms.
  destruct (lex_int s0) as [[i s1]|] eqn:Ei; [| discriminate].
  assert (Hi : advances s0 s1).
  { unfold lex_int in Ei. destruct s0 as [|c r]; [discriminate |].
    destruct (cu_eqb c 48); [injection Ei as <- <-; apply tail_refl |].
    destruct (isDigit c); [| discriminate].
    destruct (take_digits r) as [d r'] eqn:Ed. injection Ei as <- <-.
    cbn. eapply take_digits_tail; eauto. }
  destruct (lex_frac s1) as [[f s2]|] eqn:Ef; [| discriminate].
  assert (Hf : tail_of s2 s1).
  { unfold lex_frac in Ef. destruct s1 as [|c r]; [injection Ef as <- <-; apply tail_refl |].
    destruct (cu_eqb c 46); [| injection Ef as <- <-; apply tail_refl].
    destruct (take_digits r) as [[|d0 d] r'] eqn:Ed; [discriminate |].
    injection Ef as <- <-. apply tail_cons. eapply take_digits_tail; eauto. }
  destruct (lex_exp s2) as [[e s3]|] eqn:Ee; [| discriminate].
  assert (He : tail_of s3 s2).
  { unfold lex_exp in Ee. destruct s2 as [|c r]; [injection Ee as <- <-; apply tail_refl |].
    destruct (cu_eqb c 101 || cu_eqb c 69); [| injection Ee as <- <-; apply tail_refl].
    set (sr := match r with
               | g :: r1 => if cu_eqb g 43 || cu_eqb g 45 then ([g], r1) else ([], r)
               | [] => ([], r)
               end) in Ee.
    assert (Hsr : tail_of (snd sr) r).
    { subst sr. destruct r as [|g r1]; [apply tail_refl |].
      destruct (cu_eqb g 43 || cu_eqb g 45); cbn; [apply tail_cons |]; apply tail_refl. }
    destruct sr as [sign r0]. cbn [snd] in Hsr.
    destruct (take_digits r0) as [[|d0 d] r'] eqn:Ed; [discriminate |].
    injection Ee as <- <-. apply tail_cons.
    eapply tail_trans; [| exact Hsr]. eapply take_digits_tail; eauto. }
  intros [= <- <-].
  eapply tail_then_advances; [exact Hms |].
  eapply advances_then; [exact Hi |].
  eapply tail_trans; eauto.
Qed.

Lemma expect_advances (A : Type) (kw : jstr) (v v' : A) (s rest : jstr) :
  kw <> [] -> expect kw v s = POk v' rest -> advances s rest.
Proof.
  intros Hk. unfold expect. destruct (startsWith kw s) eqn:E; [| discriminate].
  intros [= <- <-]. destruct kw as [|k kw]; [congruence |].
  destruct s as [|c r]; [discriminate |]. cbn [length skipn advances].
  exists (firstn (length kw) r). now rewrite firstn_skipn.
Qed.

Lemma parse_elems_advances (pv : jstr -> pres jsval) :
  (forall s v rest, pv s = POk v rest -> advances s rest) ->
  forall m s vs rest,
    parse_elems pv m s = POk vs rest -> advances s rest /\ In 93%N s.
Proof.
  intros Hpv. induction m as [|m IH]; intros s vs rest; cbn [parse_elems];
    [discriminate |].
  destruct (pv s) as [v r0| |] eqn:Ev; try discriminate.
  apply Hpv in Ev.
  pose proof (skip_ws_tail r0) as Hws.
  destruct (skip_ws r0) as [|c r] eqn:Es; [discriminate |].
  assert (Hr : advances s r).
  { eapply advances_then; [exact Ev |].
    eapply tail_trans; [| exact Hws]. apply tail_cons, tail_refl. }
  destruct (cu_eqb c 44).
  - intros (a & E & _)%pmap_ok. apply IH in E. destruct E as [E1 E2].
    split.
    + eapply advances_then; [exact Hr |].
      eapply tail_trans; [apply advances_tail; exact E1 | apply skip_ws_tail].
    + apply advances_tail, tail_incl in Hr. apply Hr.
      apply (tail_incl (skip_ws_tail r)). exact E2.
  - destruct (cu_eqb c 93) eqn:Ec; [| discriminate].
    intros [= <- <-]. split; [exact Hr |].
    apply N.eqb_eq in Ec. subst c.
    apply advances_tail, tail_incl in Ev. apply Ev.
    apply tail_incl in Hws. apply Hws. now left.
Qed.

Lemma parse_members_advances (pv : jstr -> pres jsval) :
  (forall s v rest, pv s = POk v rest -> advances s rest) ->
  forall m s vs rest,
    parse_members pv m s = POk vs rest -> advances s rest.
Proof.
  intros Hpv. induction m as [|m IH]; intros s vs rest; cbn [parse_members];
    [discriminate |].
  destruct s as [|q s0]; [discriminate |].
  destruct (cu_eqb q DQ); [| discriminate].
  destruct (parse_chars s0) as [key rest0| |] eqn:Ek; try discriminate.
  apply parse_chars_advances, advances_tail in Ek.
  pose proof (skip_ws_tail rest0) as Hw0.
  destruct (skip_ws rest0) as [|c0 r0]; [discriminate |].
  destruct (cu_eqb c0 58); [| discriminate].
  assert (H0 : tail_of (skip_ws r0) s0).
  { eapply tail_trans; [apply skip_ws_tail |].
    eapply tail_trans; [| exact Ek].
    eapply tail_trans; [| exact Hw0]. apply tail_cons, tail_refl. }
  destruct (pv (skip_ws r0)) as [v r1| |] eqn:Ev; try discriminate.
  apply Hpv, advances_tail in Ev.
  pose proof (skip_ws_tail r1) as Hw1.
  destruct (skip_ws r1) as [|c r]; [discriminate |].
  assert (Hr : tail_of r s0).
  { eapply tail_trans; [| exact H0]. eapply tail_trans; [| exact Ev].
    eapply tail_trans; [| exact Hw1]. apply tail_cons, tail_refl. }
  cbn [advances].
  destruct (cu_eqb c 44).
  - intros (a & E & _)%pmap_ok. apply IH in E.
    eapply tail_trans; [apply advances_tail; exact E |].
    eapply tail_trans; [apply skip_ws_tail | exact Hr].
  - destruct (cu_eqb c 125); [| discriminate].
    intros [= <- <-]. exact Hr.
Qed.

Lemma lit_nonempty_true : lit "true" <> [].
Proof. discriminate. Qed.
Lemma lit_nonempty_false : lit "false" <> [].
Proof. discriminate. Qed.
Lemma lit_nonempty_null : lit "null" <> [].
Proof. discriminate. Qed.

Lemma parse_value_advances (n : nat) :
  forall s v rest, parse_value n s = POk v rest -> advances s rest.
Proof.
  induction n as [|n IH]; intros s v rest; cbn [parse_value]; [discriminate |].
  destruct s as [|c r]; [discriminate |].
  destruct (cu_eqb c DQ).
  { intros (a & E & _)%pmap_ok. apply parse_chars_advances in E.
    cbn. now apply advances_tail. }
  destruct (cu_eqb c 91).
  { pose proof (skip_ws_tail r) as Hw.
    destruct (skip_ws r) as [|c1 r1]; [discriminate |].
    destruct (cu_eqb c1 93).
    - intros [= <- <-]. cbn. eapply tail_trans; [| exact Hw]. apply tail_cons, tail_refl.
    - intros (a & E & _)%pmap_ok.
      apply (parse_elems_advances _ IH) in E. destruct E as [E _].
      cbn. eapply tail_trans; [apply advances_tail; exact E | exact Hw]. }
  destruct (cu_eqb c 123).
  { pose proof (skip_ws_tail r) as Hw.
    destruct (skip_ws r) as [|c1 r1]; [discriminate |].
    destruct (cu_eqb c1 125).
    - intros [= <- <-]. cbn. eapply tail_trans; [| exact Hw]. apply tail_cons, tail_refl.
    - intros (a & E & _)%pmap_ok.
      apply (parse_members_advances _ IH) in E.
      cbn. eapply tail_trans; [apply advances_tail; exact E | exact Hw]. }
  destruct (cu_eqb c 116); [apply expect_advances, lit_nonempty_true |].
  destruct (cu_eqb c 102); [apply expect_advances, lit_nonempty_false |].
  destruct (cu_eqb c 110); [apply expect_advances, lit_nonempty_null |].
  intros (a & E & _)%pmap_ok. now apply lex_number_advances in E.
Qed.

(** An array is read from a text that opens with a bracket and holds a
    closing one. *)
Lemma parse_value_array (n : nat) (s : jstr) (vs : list jsval) (rest : jstr) :
  parse_value n s = POk (JArr vs) rest ->
  startsWith (lit "[") s = true /\ In 93%N s.
Proof.
  destruct n as [|n]; cbn [parse_value]; [discriminate |].
  destruct s as [|c r]; [discriminate |].
  destruct (cu_eqb c DQ); [intros (a & _ & [=])%pmap_ok |].
  destruct (cu_eqb c 91) eqn:Ec.
  { apply N.eqb_eq in Ec. subst c. split; [reflexivity |].
    pose proof (skip_ws_tail r) as Hw.
    destruct (skip_ws r) as [|c1 r1]; [discriminate |].
    right. apply tail_incl in Hw. apply Hw.
    destruct (cu_eqb c1 93) eqn:E1.
    - apply N.eqb_eq in E1. subst c1. now left.
    - apply pmap_ok in H. destruct H as (a & E & _).
      now apply (parse_elems_advances _ (parse_value_advances n)) in E. }
  destruct (cu_eqb c 123).
  { destruct (skip_ws r) as [|c1 r1]; [discriminate |].
    destruct (cu_eqb c1 125); [discriminate |].
    intros (a & _ & [=])%pmap_ok. }
  unfold expect.
  destruct (cu_eqb c 116); [destruct (startsWith _ _); discriminate |].
  destruct (cu_eqb c 102); [destruct (startsWith _ _); discriminate |].
  destruct (cu_eqb c 110); [destruct (startsWith _ _); discriminate |].
  intros (a & _ & [=])%pmap_ok.
Qed.

(** ** The recursion budget of [JSON_parse] is never exhausted *)

Lemma pmap_fuel (A B : Type) (f : A -> B) (p : pres A) :
  p <> PFuel -> pmap f p <> PFuel.
Proof. destruct p; cbn; congruence. Qed.

Lemma parse_chars_no_fuel_bounded (n : nat) :
  forall s, length s <= n -> parse_chars s <> PFuel.
Proof.
  induction n as [|n IH]; intros s Hn; destruct s as [|c r];
    cbn [parse_chars]; try discriminate; cbn [length] in Hn; [lia |].
  destruct (cu_eqb c DQ); [discriminate |].
  destruct (cu_eqb c 92).
  - destruct r as [|e r1]; [discriminate |].
    destruct (cu_eqb e 117).
    + destruct r1 as [|h1 [|h2 [|h3 [|h4 r2]]]]; try discriminate.
      destruct (hex4 h1 h2 h3 h4); [| discriminate].
      apply pmap_fuel, IH. cbn [length] in Hn. lia.
    + destruct (escape_char e); [| discriminate].
      apply pmap_fuel, IH. cbn [length] in Hn. lia.
  - destruct (N.ltb c 32); [discriminate |].
    apply pmap_fuel, IH. lia.
Qed.

Lemma parse_chars_no_fuel (s : jstr) : parse_chars s <> PFuel.
Proof. now apply parse_chars_no_fuel_bounded with (n := length s). Qed.

Lemma lex_number_no_fuel (s : jstr) : lex_number s <> PFuel.
Proof.
  unfold lex_number.
  destruct (match s with
            | c :: r => if cu_eqb c 45 then ([c], r) else ([], s)
            | [] => ([], s)
            end) as [minus s0].
  destruct (lex_int s0) as [[i s1]|]; [| discriminate].
  destruct (lex_frac s1) as [[f s2]|]; [| discriminate].
  destruct (lex_exp s2) as [[e s3]|]; discriminate.
Qed.

Lemma expect_no_fuel (A : Type) (kw : jstr) (v : A) (s : jstr) : expect kw v s <> PFuel.
Proof. unfold expect. destruct (startsWith kw s); discriminate. Qed.

Lemma parse_elems_no_fuel (pv : jstr -> pres jsval) :
  (forall s v rest, pv s = POk v rest -> advances s rest) ->
  forall m s,
    (forall s', length s' <= length s -> pv s' <> PFuel) ->
    length s < m -> parse_elems pv m s <> PFuel.
Proof.
  intros Hadv. induction m as [|m IH]; intros s Hpv Hm; [lia |].
  cbn [parse_elems].
  destruct (pv s) as [v r0| |] eqn:Ev; [| discriminate | now apply Hpv in Ev].
  apply Hadv, advances_length in Ev.
  pose proof (tail_length (skip_ws_tail r0)) as Hw.
  destruct (skip_ws r0) as [|c r]; [discriminate |]. cbn [length] in Hw.
  pose proof (tail_length (skip_ws_tail r)) as Hw'.
  destruct (cu_eqb c 44).
  - apply pmap_fuel, IH; [| lia]. intros s' Hs'. apply Hpv. lia.
  - destruct (cu_eqb c 93); discriminate.
Qed.

Lemma parse_members_no_fuel (pv : jstr -> pres jsval) :
  (forall s v rest, pv s = POk v rest -> advances s rest) ->
  forall m s,
    (forall s', length s' <= length s -> pv s' <> PFuel) ->
    length s < m -> parse_members pv m s <> PFuel.
Proof.
  intros Hadv. induction m as [|m IH]; intros s Hpv Hm; [lia |].
  cbn [parse_members].
  destruct s as [|q s0]; [discriminate |]. cbn [length] in *.
  destruct (cu_eqb q DQ); [| discriminate].
  destruct (parse_chars s0) as [key rest0| |] eqn:Ek;
    [| discriminate | now apply parse_chars_no_fuel in Ek].
  apply parse_chars_advances, advances_length in Ek.
  pose proof (tail_length (skip_ws_tail rest0)) as Hw0.
  destruct (skip_ws rest0) as [|c0 r0]; [discriminate |]. cbn [length] in Hw0.
  destruct (cu_eqb c0 58); [| discriminate].
  pose proof (tail_length (skip_ws_tail r0)) as Hw0'.
  destruct (pv (skip_ws r0)) as [v r1| |] eqn:Ev;
    [| discriminate | apply Hpv in Ev; [tauto | lia]].
  apply Hadv, advances_length in Ev.
  pose proof (tail_length (skip_ws_tail r1)) as Hw1.
  destruct (skip_ws r1) as [|c r]; [discriminate |]. cbn [length] in Hw1.
  pose proof (tail_length (skip_ws_tail r)) as Hw1'.
  destruct (cu_eqb c 44).
  - apply pmap_fuel, IH; [| lia]. intros s' Hs'. apply Hpv. lia.
  - destruct (cu_eqb c 125); discriminate.
Qed.

Lemma parse_value_no_fuel (n : nat) :
  forall s, length s < n -> parse_value n s <> PFuel.
Proof.
  induction n as [|n IH]; intros s Hn; [lia |]. cbn [parse_value].
  destruct s as [|c r]; [discriminate |]. cbn [length] in Hn.
  destruct (cu_eqb c DQ); [apply pmap_fuel, parse_chars_no_fuel |].
  pose proof (tail_length (skip_ws_tail r)) as Hw.
  destruct (cu_eqb c 91).
  { destruct (skip_ws r) as [|c1 r1]; [discriminate |].
    destruct (cu_eqb c1 93); [discriminate |].
    apply pmap_fuel, parse_elems_no_fuel.
    - apply parse_value_advances.
    - intros s' Hs'. apply IH. lia.
    - lia. }
  destruct (cu_eqb c 123).
  { destruct (skip_ws r) as [|c1 r1]; [discriminate |].
    destruct (cu_eqb c1 125); [discriminate |].
    apply pmap_fuel, parse_members_no_fuel.
    - apply parse_value_advances.
    - intros s' Hs'. apply IH. lia.
    - lia. }
  destruct (cu_eqb c 116); [apply expect_no_fuel |].
  destruct (cu_eqb c 102); [apply expect_no_fuel |].
  destruct (cu_eqb c 110); [apply expect_no_fuel |].
  apply pmap_fuel, lex_number_no_fuel.
Qed.

(** [JSON_parse] always answers with a value or with the syntax error. *)
Lemma JSON_parse_total (s : jstr) : JSON_parse s <> PFuel.
Proof.
  unfold JSON_parse, JSON_parse_fuel.
  pose proof (tail_length (skip_ws_tail s)) as Hw.
  destruct (parse_value (S (length s)) (skip_ws s)) as [v rest| |] eqn:E.
  - destruct (skip_ws rest); discriminate.
  - discriminate.
  - apply parse_value_no_fuel in E; [tauto | lia].
Qed.

(** ** The resize step *)

Lemma resize_shape (l : list jstr) (count : Z) :
  Forall (fun s => s <> []) l -> (0 <= count)%Z ->
  length (resize l count) = Z.to_nat count
  /\ (Z.to_nat count <= length l -> resize l count = firstn (Z.to_nat count) l)
  /\ (length l < Z.to_nat count -> l <> [] ->
      forall j, j < Z.to_nat count ->
        nth_error (resize l count) j = nth_error l (j mod length l))
  /\ (l = [] -> resize l count = repeat [] (Z.to_nat count)).
Proof.
  intros Hall Hc. unfold resize.
  rewrite slice0_nonneg by assumption.
  destruct (Z.ltb_spec (Z.of_nat (length l)) count) as [Hlt|Hge].
  - (* fewer than count collected: the loop runs *)
    replace (Z.to_nat (count - Z.of_nat (length l)))
      with (Z.to_nat count - length l) by lia.
    destruct l as [|x l].
    + pose proof (pad_loop_empty (Z.to_nat count) 0) as E.
      cbn [repeat Nat.add] in E.
      cbn [length].
      match goal with
      | |- context [pad_loop ?k 0 ?l] =>
          replace (pad_loop k 0 l) with (repeat (@nil cu) (Z.to_nat count))
            by (symmetry; rewrite Nat.sub_0_r; exact E)
      end.
      rewrite firstn_all2 by (rewrite repeat_length; lia).
      rewrite repeat_length.
      repeat split; auto; try (cbn [length]; lia).
      intros _ Hne. exfalso. apply Hne. reflexivity.
    + destruct (@pad_loop_cycle (x :: l) ltac:(discriminate) Hall
                  (Z.to_nat count - length (x :: l)) 0 (x :: l)) as [Hlen Hcyc].
      * lia.
      * intros j Hj. now rewrite Nat.mod_small.
      * rewrite Nat.add_0_r in Hlen, Hcyc.
        replace (length (x :: l) + (Z.to_nat count - length (x :: l)))
          with (Z.to_nat count) in Hlen, Hcyc by lia.
        rewrite firstn_all2 by lia.
        repeat split; auto; try lia; try discriminate.
  - (* enough collected: only the cut *)
    repeat split.
    + rewrite length_firstn. lia.
    + lia.
    + intros ->. simpl in Hge. replace (Z.to_nat count) with 0 by lia. reflexivity.
Qed.

(** The entries of a resized list are all non-empty, or all empty. *)
Lemma resize_entries (l : list jstr) (count : Z) :
  Forall (fun s => s <> []) l -> (0 <= count)%Z ->
  Forall (fun s => s <> []) (resize l count)
  \/ resize l count = repeat [] (Z.to_nat count).
Proof.
  intros Hall Hc.
  destruct (resize_shape Hall Hc) as (Hlen & Hcut & Hcyc & Hnil).
  destruct l as [|x l]; [right; now apply Hnil |]. left.
  destruct (Nat.le_gt_cases (Z.to_nat count) (length (x :: l))) as [Hle|Hgt].
  - rewrite (Hcut Hle). clear -Hall.
    revert Hall. generalize (x :: l). generalize (Z.to_nat count).
    intros n l0 H. revert n; induction H as [|y l0 Hy _ IH]; intros [|n];
      cbn [firstn]; constructor; auto.
  - apply Forall_forall. intros y Hy.
    apply In_nth_error in Hy. destruct Hy as [j Hj].
    assert (Hjc : j < Z.to_nat count).
    { rewrite <- Hlen. apply nth_error_Some. congruence. }
    rewrite (Hcyc Hgt ltac:(discriminate) j Hjc) in Hj.
    rewrite Forall_forall in Hall. apply Hall. eapply nth_error_In; eauto.
Qed.

Section Properties.
Context {P : Platform}.

(** ** List mode *)

Lemma normalizeToList_text_nonempty (text : jstr) :
  Forall (fun s => s <> []) (normalizeToList_text text).
Proof.
  unfold normalizeToList_text.
  destruct (isEmpty text); [constructor |].
  set (t := trim text).
  destruct (_ || _).
  - unfold try_json_array.
    destruct (JSON_parse (jsonLike t)) as [[| | | | |arr|] rest| |];
      try (destruct (_ && _); apply filter_nonEmpty_all).
    destruct (mapM _ arr); [apply filter_nonEmpty_all|].
    destruct (_ && _); apply filter_nonEmpty_all.
  - destruct (_ && _); apply filter_nonEmpty_all.
Qed.


(** C7: on the text ['Acme Corp', 'Globex', 'Initech'] with count 3 the
    pipeline does not return the three names: the mid-list rule of the quote
    repair wants the quote right after the comma, the text has a space there,
    the repaired text is no JSON, and the comma branch splits the raw text,
    leaving the bracket on the first and on the last entry. *)
Theorem C7_acme_scenario :
  generate_list (lit "['Acme Corp', 'Globex', 'Initech']") 3
  = [lit "['Acme Corp"; lit "Globex"; lit "Initech']"].
Proof. vm_compute. reflexivity. Qed.

(** ** Header fallback *)

Lemma pad_headers_labels (k : nat) (hs : list jstr) :
  pad_headers k hs = hs ++ map column_label (seq (length hs + 1) k).
Proof.
  revert hs; induction k as [|k IH]; intros hs; cbn [pad_headers seq map].
  - now rewrite app_nil_r.
  - rewrite IH, length_app, <- app_assoc. cbn [length app].
    unfold column_label at 2.
    rewrite Nat2Z.inj_add. change (Z.of_nat 1) with 1%Z.
    replace (length hs + 1 + 1) with (S (length hs + 1)) by lia.
    reflexivity.
Qed.

Lemma proposed_headers_table (p : jstr) : proposed_headers p = spec_template p.
Proof.
  unfold proposed_headers, spec_template, keyword_table.
  cbn [find existsb fst snd].
  destruct (includes (lit "user") p), (includes (lit "management") p),
           (includes (lit "product") p), (includes (lit "order") p),
           (includes (lit "sales") p), (includes (lit "performance") p),
           (includes (lit "downtime") p), (includes (lit "uptime") p);
    reflexivity.
Qed.

Lemma fallback_headers_spec (prompt : jstr) (cols : Z) :
  (0 <= cols)%Z ->
  fallback_headers prompt cols
  = spec_fallback_headers (toLowerCase prompt) (Z.to_nat cols)
  /\ length (fallback_headers prompt cols) = Z.to_nat cols.
Proof.
  intros Hc. unfold fallback_headers, spec_fallback_headers.
  rewrite <- proposed_headers_table.
  set (t := proposed_headers (toLowerCase prompt)).
  destruct (Z.leb_spec cols (Z.of_nat (length t))) as [Hle|Hgt].
  - rewrite slice0_nonneg by assumption.
    replace (Z.to_nat cols - length t) with 0 by lia.
    cbn [seq map]. rewrite app_nil_r. split; [reflexivity |].
    rewrite length_firstn. lia.
  - rewrite pad_headers_labels.
    rewrite firstn_all2 by lia.
    replace (Z.to_nat (cols - Z.of_nat (length t))) with (Z.to_nat cols - length t) by lia.
    split; [reflexivity |].
    rewrite length_app, length_map, length_seq. lia.
Qed.

(** C6: header fallback.  The keyword rows are tried in the order
    user/management, product, order/sales, performance/downtime/uptime and
    the first row with a keyword in the lower-cased prompt gives the
    template (none: the empty template); the result is the template cut to
    cols entries followed by [Column N] for every position N past the
    template, and has exactly cols entries. *)
Theorem C6_header_fallback (prompt : jstr) (cols : Z) :
  (0 <= cols)%Z ->
  fallback_headers prompt cols
  = spec_fallback_headers (toLowerCase prompt) (Z.to_nat cols)
  /\ length (fallback_headers prompt cols) = Z.to_nat cols.
Proof. exact (fallback_headers_spec prompt (cols := cols)). Qed.

(** ** The token endpoint *)

(** A text of unreserved characters is encoded as itself. *)
Lemma encode_unreserved (s : jstr) :
  Forall (fun c => isUnreserved c = true) s -> encodeURIComponent s = Ok s.
Proof.
  intros H. induction H as [|c r Hc _ IH]; [reflexivity |].
  cbn [encodeURIComponent]. rewrite Hc, IH. reflexivity.
Qed.

(** C10: when WATSON_API_KEY is set to a non-empty string, the request sent
    to the credential exchange service is the POST of lines 37-44 whose form
    body ends with that key, URI-encoded (a key of unreserved characters as
    it is), and it is the same for any two request bodies; when the
    variable is not set, or set to the empty string, the form body ends
    with the apiKey of the request body instead (printed as a string,
    URI-encoded). *)
Theorem C10_token_key (key : jstr) (f1 f2 : list (jstr * jsval)) :
  key <> [] ->
  token_request (Some key) (JObj f1) = token_request (Some key) (JObj f2)
  /\ token_request (Some key) (JObj f1)
     = (e <- encodeURIComponent key;;
        Ok {| fetch_url := lit "https://iam.cloud.ibm.com/identity/token";
              fetch_method := lit "POST";
              fetch_headers :=
                [(lit "Content-Type", lit "application/x-www-form-urlencoded");
                 (lit "Accept", lit "application/json")];
              fetch_body :=
                lit "grant_type=urn:ibm:params:oauth:grant-type:apikey&apikey="
                ++ e |})
  /\ (Forall (fun c => isUnreserved c = true) key ->
      exists req,
        token_request (Some key) (JObj f1) = Ok req
        /\ fetch_url req = lit "https://iam.cloud.ibm.com/identity/token"
        /\ fetch_body req
           = lit "grant_type=urn:ibm:params:oauth:grant-type:apikey&apikey=" ++ key)
  /\ (forall env, env = None \/ env = Some [] ->
      token_request env (JObj f1)
      = (s <- ToString (match own (lit "apiKey") f1 with
                        | Some v => v
                        | None => JUndef
                        end);;
         e <- encodeURIComponent s;;
         Ok {| fetch_url := lit "https://iam.cloud.ibm.com/identity/token";
               fetch_method := lit "POST";
               fetch_headers :=
                 [(lit "Content-Type", lit "application/x-www-form-urlencoded");
                  (lit "Accept", lit "application/json")];
               fetch_body :=
                 lit "grant_type=urn:ibm:params:oauth:grant-type:apikey&apikey="
                 ++ e |})).
Proof.
  intros Hk.
  assert (E : forall f, token_request (Some key) (JObj f)
                        = exchange_request (JStr key)).
  { intros f. unfold token_request, token_apiKey. cbn [env_value truthy].
    destruct key as [|c k]; [congruence |]. reflexivity. }
  split; [rewrite !E; reflexivity |]. split; [| split].
  - rewrite E. unfold exchange_request. cbn [ToString bind]. reflexivity.
  - intros Hu. rewrite E. unfold exchange_request. cbn [ToString bind].
    rewrite (encode_unreserved Hu). cbn [bind].
    eexists. split; [reflexivity |]. split; reflexivity.
  - intros env [-> | ->]; unfold token_request, token_apiKey;
      cbn [env_value truthy isEmpty negb get bind]; unfold exchange_request;
      reflexivity.
Qed.

(** ** Table mode: the structured parse *)

Lemma fallback_headers_zero (prompt : jstr) : fallback_headers prompt 0 = [].
Proof.
  unfold fallback_headers.
  destruct (Z.leb_spec 0 (Z.of_nat (length (proposed_headers (toLowerCase prompt))))).
  - reflexivity.
  - lia.
Qed.

Lemma table_of_nothing (text : jsval) (prompt : jstr) (rows cols : Z) (c : completion) :
  structured_parse text rows cols = ([], [], c) ->
  table_of_text text prompt rows cols = full_fallback prompt rows cols.
Proof.
  intros E. unfold table_of_text, full_fallback. rewrite E. cbn [length].
  change (Z.of_nat 0) with 0%Z.
  destruct (Z.eqb_spec 0 cols) as [<-|Hc]; cbn [negb].
  - rewrite fallback_headers_zero.
    destruct (Z.eqb_spec 0 rows) as [<-|Hr]; reflexivity.
  - destruct (Z.eqb_spec 0 rows) as [<-|Hr]; reflexivity.
Qed.

(** The array lengths of the handler *)

Lemma Array_from_ok (n : Z) :
  (n <= 4294967295)%Z -> Array_from n = Ok (Z.to_nat n).
Proof.
  intros H. unfold Array_from.
  destruct (Z.ltb_spec 4294967295 n); [lia | reflexivity].
Qed.

Lemma Array_from_throw (n : Z) :
  (4294967295 < n)%Z -> Array_from n = Throw RangeError.
Proof.
  intros H. unfold Array_from.
  destruct (Z.ltb_spec 4294967295 n); [reflexivity | lia].
Qed.

Lemma fallback_rows_ok (headers : list jstr) (rows cols : Z) :
  (rows <= 4294967295)%Z ->
  fallback_rows headers rows cols
  = Ok (fst (synth_rows headers cols (Z.to_nat rows) 0 0%nat)).
Proof. intros H. unfold fallback_rows. rewrite Array_from_ok by exact H. reflexivity. Qed.

Lemma fallback_rows_throw (headers : list jstr) (rows cols : Z) :
  (4294967295 < rows)%Z -> fallback_rows headers rows cols = Throw RangeError.
Proof. intros H. unfold fallback_rows. rewrite Array_from_throw by exact H. reflexivity. Qed.

Lemma placeholders_ok (rows cols : Z) :
  (rows <= 4294967295)%Z -> (cols <= 4294967295)%Z -> placeholders rows cols = Ok tt.
Proof.
  intros Hr Hc. unfold placeholders. rewrite !Array_from_ok by assumption. reflexivity.
Qed.

Lemma placeholders_throw (rows cols : Z) (e : exn) :
  placeholders rows cols = Throw e ->
  e = RangeError /\ (4294967295 < rows \/ 4294967295 < cols)%Z.
Proof.
  unfold placeholders, Array_from.
  destruct (Z.ltb_spec 4294967295 cols); cbn [bind].
  - intros [= <-]. split; [reflexivity | right; assumption].
  - destruct (Z.ltb_spec 4294967295 rows); cbn [bind].
    + intros [= <-]. split; [reflexivity | left; assumption].
    + discriminate.
Qed.

(** With [rows] an array length the steps after the structured parse throw
    nothing. *)
Lemma table_of_text_ok (text : jsval) (prompt : jstr) (rows cols : Z) :
  (rows <= 4294967295)%Z -> exists t, table_of_text text prompt rows cols = Ok t.
Proof.
  intros Hr. unfold table_of_text.
  destruct (structured_parse text rows cols) as [[hs rs] c].
  destruct (negb (Z.of_nat (length rs) =? rows)%Z).
  - rewrite fallback_rows_ok by exact Hr. cbn [bind]. eexists. reflexivity.
  - cbn [bind]. eexists. reflexivity.
Qed.

Lemma table_of_text_throw (text : jsval) (prompt : jstr) (rows cols : Z) (e : exn) :
  table_of_text text prompt rows cols = Throw e ->
  e = RangeError /\ (4294967295 < rows)%Z.
Proof.
  unfold table_of_text.
  destruct (structured_parse text rows cols) as [[hs rs] c].
  destruct (negb (Z.of_nat (length rs) =? rows)%Z); [| discriminate].
  unfold fallback_rows, Array_from.
  destruct (Z.ltb_spec 4294967295 rows); cbn [bind]; [| discriminate].
  intros [= <-]. split; [reflexivity | assumption].
Qed.

(** C3: whatever text the envelope carried, the structured parse hands no
    exception to the handler.  With rows and cols array lengths (at most
    4294967295) the handler answers with a table, and an error answer is
    the RangeError of an array length, which no text causes or avoids.
    When both parse attempts fail (the text is no JSON), and when the parsed
    value has not the shape of a table, [headers] and [bodyRows] are left
    empty and the table is left to the two fallbacks. *)
Theorem C3_parse_failure_not_surfaced
    (genData text : jsval) (prompt : jstr) (rows cols : Z) :
  extract_text_table genData = Ok text ->
  ((rows <= 4294967295)%Z -> (cols <= 4294967295)%Z ->
   exists t, table_of_text text prompt rows cols = Ok t
             /\ generateTable genData prompt rows cols = Json200 t)
  /\ (forall e, generateTable genData prompt rows cols = Status500 e ->
        e = RangeError /\ (4294967295 < rows \/ 4294967295 < cols)%Z)
  /\ (forall e, parse_object text = Throw e ->
        structured_parse text rows cols = ([], [], Caught e)
        /\ table_of_text text prompt rows cols = full_fallback prompt rows cols)
  /\ (forall obj, parse_object text = Ok obj -> has_table_shape obj = false ->
        structured_parse text rows cols = ([], [], Normal)
        /\ table_of_text text prompt rows cols = full_fallback prompt rows cols).
Proof.
  intros Hx.
  assert (Hin : (rows <= 4294967295)%Z -> (cols <= 4294967295)%Z ->
                exists t, table_of_text text prompt rows cols = Ok t
                          /\ generateTable genData prompt rows cols = Json200 t).
  { intros Hr Hc. destruct (table_of_text_ok text prompt cols Hr) as (t & Et).
    exists t. split; [exact Et |].
    unfold generateTable. rewrite placeholders_ok by assumption.
    cbn [bind]. rewrite Hx. cbn [bind]. rewrite Et. reflexivity. }
  split; [exact Hin |]. split; [| split].
  - intros e He.
    destruct (placeholders rows cols) as [[]|e'] eqn:Ep.
    + exfalso. unfold placeholders, Array_from in Ep.
      destruct (Z.ltb_spec 4294967295 cols); [discriminate |].
      destruct (Z.ltb_spec 4294967295 rows); [discriminate |].
      destruct Hin as (t & _ & Et); [assumption | assumption |].
      rewrite Et in He. discriminate.
    + pose proof (placeholders_throw _ _ Ep) as [-> Hb].
      unfold generateTable in He. rewrite Ep in He. cbn in He.
      injection He as <-. split; [reflexivity | exact Hb].
  - intros e He.
    assert (E : structured_parse text rows cols = ([], [], Caught e))
      by (unfold structured_parse; now rewrite He).
    split; [exact E | eapply table_of_nothing; exact E].
  - intros obj Ho Hs.
    assert (E : structured_parse text rows cols = ([], [], Normal)).
    { unfold structured_parse. rewrite Ho.
      unfold has_table_shape in Hs.
      destruct (truthy obj); [| reflexivity].
      cbn [andb] in Hs.
      destruct (get obj (lit "headers")) as [[| | | | |hs|]|];
        destruct (get obj (lit "rows")) as [[| | | | |rs|]|];
        try reflexivity; discriminate. }
    split; [exact E | eapply table_of_nothing; exact E].
Qed.

(** ** Table mode: dimensions *)

Lemma mapM_Forall (A B : Type) (f : A -> result B) (Q : B -> Prop) (l : list A) (l' : list B) :
  (forall x y, f x = Ok y -> Q y) -> mapM f l = Ok l' -> Forall Q l'.
Proof.
  intros Hf. revert l'; induction l as [|x l IH]; intros l'; cbn [mapM bind].
  - intros [= <-]. constructor.
  - destruct (f x) as [y|] eqn:Hy; [| discriminate]. cbn [bind].
    destruct (mapM f l) as [ys|]; [| discriminate]. cbn [bind].
    intros [= <-]. constructor; eauto.
Qed.

Lemma fit_row_length (cols : Z) (r r' : list jstr) :
  (0 <= cols)%Z -> fit_row cols r = Ok r' -> length r' = Z.to_nat cols.
Proof.
  intros Hc. unfold fit_row, Array_new.
  destruct (Z.ltb_spec cols (Z.of_nat (length r))).
  - intros [= <-]. rewrite slice0_nonneg, length_firstn by assumption. lia.
  - destruct (_ || _); cbn [bind]; [discriminate |].
    intros [= <-]. rewrite length_app, repeat_length. lia.
Qed.

Lemma Forall_firstn_keep (A : Type) (Q : A -> Prop) (n : nat) (l : list A) :
  Forall Q l -> Forall Q (firstn n l).
Proof.
  intros H. revert n; induction H as [|x l Hx _ IH]; intros [|n]; cbn [firstn];
    constructor; auto.
Qed.

Lemma Forall_slice0 (A : Type) (Q : A -> Prop) (l : list A) (e : Z) :
  Forall Q l -> Forall Q (slice0 l e).
Proof.
  intros H. unfold slice0. destruct (e <? 0)%Z; now apply Forall_firstn_keep.
Qed.

Lemma Forall_filter_keep (A : Type) (Q : A -> Prop) (f : A -> bool) (l : list A) :
  Forall Q l -> Forall Q (filter f l).
Proof.
  induction 1 as [|x l Hx _ IH]; cbn [filter]; [constructor |].
  destruct (f x); [constructor |]; assumption.
Qed.

Lemma clean_rows_width (rs : list jsval) (rows cols : Z) (b : list (list jstr)) :
  (0 <= cols)%Z -> clean_rows rs rows cols = Ok b ->
  Forall (fun row => length row = Z.to_nat cols) b.
Proof.
  intros Hc. unfold clean_rows.
  destruct (mapM _ rs) as [strs|]; cbn [bind]; [| discriminate].
  destruct (mapM (fit_row cols) strs) as [fitted|] eqn:Hf; cbn [bind]; [| discriminate].
  intros [= <-].
  apply Forall_slice0, Forall_filter_keep.
  eapply mapM_Forall; [| exact Hf].
  intros x y. now apply fit_row_length.
Qed.

Lemma structured_parse_width (text : jsval) (rows cols : Z) :
  (0 <= cols)%Z ->
  Forall (fun row => length row = Z.to_nat cols)
         (snd (fst (structured_parse text rows cols))).
Proof.
  intros Hc. unfold structured_parse.
  destruct (parse_object text) as [obj|]; [| constructor].
  destruct (truthy obj); [| constructor].
  destruct (get obj (lit "headers")) as [[| | | | |hs|]|];
    destruct (get obj (lit "rows")) as [[| | | | |rs|]|]; try constructor.
  destruct (clean_headers hs cols); [| constructor].
  destruct (clean_rows rs rows cols) eqn:Hr; [| constructor].
  cbn [fst snd]. eapply clean_rows_width; eauto.
Qed.

Lemma present_ret (s : jstr) : present (ret (Some s)).
Proof. intros k. cbn. discriminate. Qed.

Lemma present_bind (A : Type) (m : M A) (g : A -> jstr) :
  present (bindM m (fun x => ret (Some (g x)))).
Proof. intros k. unfold bindM, ret. destruct (m k). cbn. discriminate. Qed.

Lemma random_index_in_range (q : Q) (n : nat) :
  (0 <= q)%Q -> (q < 1)%Q -> 0 < n ->
  (0 <= Qfloor (q * QofZ (Z.of_nat n)) < Z.of_nat n)%Z.
Proof.
  intros H0 H1 Hn. unfold QofZ.
  assert (Hn0 : (0 < inject_Z (Z.of_nat n))%Q).
  { change 0%Q with (inject_Z 0). rewrite <- Zlt_Qlt. lia. }
  split.
  - change 0%Z with (Qfloor 0). apply Qfloor_resp_le.
    apply Qmult_le_0_compat; [assumption | now apply Qlt_le_weak].
  - rewrite Zlt_Qlt.
    eapply Qle_lt_trans; [apply Qfloor_le |].
    pose proof (Qmult_lt_compat_r q 1 _ Hn0 H1) as H.
    now rewrite Qmult_1_l in H.
Qed.

Lemma present_rand (arr : list jstr) : arr <> [] -> present (rand arr).
Proof.
  intros Hne k. unfold rand, bindM, random, ret. cbn [fst].
  destruct (Math_random_range k) as [H0 H1].
  assert (Hn : 0 < length arr) by (destruct arr; [congruence | cbn; lia]).
  pose proof (random_index_in_range H0 H1 Hn) as [Hlo Hhi].
  unfold at_index. destruct (Z.ltb_spec (Qfloor (Math_random k * QofZ (Z.of_nat (length arr)))) 0); [lia |].
  intros E. apply nth_error_None in E. lia.
Qed.

Lemma synth_cell_present (name : jstr) (r c : Z) (h : jstr) :
  present (synth_cell name r c h).
Proof.
  unfold synth_cell.
  repeat match goal with
         | |- present (if ?b then _ else _) => destruct b
         end;
    first [ apply present_ret
          | apply present_bind
          | apply present_rand; discriminate ].
Qed.

Lemma synth_cols_S (headers : list jstr) (name : jstr) (r : Z) (k : nat) (c : Z) (n : nat) :
  synth_cols headers name r (S k) c n
  = let (x, n1) := synth_cell name r c (header_at headers c) n in
    let (xs, n2) := synth_cols headers name r k (c + 1) n1 in
    (x :: xs, n2).
Proof. reflexivity. Qed.

Lemma synth_rows_S (headers : list jstr) (cols : Z) (k : nat) (r : Z) (n : nat) :
  synth_rows headers cols (S k) r n
  = let (name, n0) := randomName n in
    let (row, n1) := synth_cols headers name r (Z.to_nat cols) 0 n0 in
    let (more, n2) := synth_rows headers cols k (r + 1) n1 in
    (row :: more, n2).
Proof.
  cbn [synth_rows]. unfold bindM, synth_row, bindM, ret.
  destruct (randomName n) as [name n0].
  destruct (synth_cols headers name r (Z.to_nat cols) 0 n0) as [row n1].
  reflexivity.
Qed.

Lemma synth_cols_shape (headers : list jstr) (name : jstr) (r : Z) (k : nat) (c : Z) (n : nat) :
  length (fst (synth_cols headers name r k c n)) = k
  /\ Forall (fun x => x <> None) (fst (synth_cols headers name r k c n)).
Proof.
  revert c n; induction k as [|k IH]; intros c n.
  - split; [reflexivity | constructor].
  - rewrite synth_cols_S.
    pose proof (synth_cell_present name r c (header_at headers c) n) as Hx.
    destruct (synth_cell name r c (header_at headers c) n) as [x n1].
    destruct (IH (c + 1)%Z n1) as [Hlen Hall].
    destruct (synth_cols headers name r k (c + 1) n1) as [xs n2].
    cbn [fst length] in *. split; [lia | constructor; assumption].
Qed.

Lemma synth_rows_shape (headers : list jstr) (cols : Z) (k : nat) (r : Z) (n : nat) :
  length (fst (synth_rows headers cols k r n)) = k
  /\ Forall (fun row => length row = Z.to_nat cols /\ Forall (fun x => x <> None) row)
            (fst (synth_rows headers cols k r n)).
Proof.
  revert r n; induction k as [|k IH]; intros r n.
  - split; [reflexivity | constructor].
  - rewrite synth_rows_S.
    destruct (randomName n) as [name n0].
    pose proof (synth_cols_shape headers name r (Z.to_nat cols) 0 n0) as Hrow.
    destruct (synth_cols headers name r (Z.to_nat cols) 0 n0) as [row n1].
    destruct (IH (r + 1)%Z n1) as [Hlen Hall].
    destruct (synth_rows headers cols k (r + 1) n1) as [more n2].
    cbn [fst length] in *. split; [lia | constructor; assumption].
Qed.

Lemma Forall_map_Some (row : list jstr) :
  Forall (fun x : cell => x <> None) (map Some row).
Proof. induction row; cbn; constructor; [discriminate | assumption]. Qed.

(** C2: for every model text, every prompt and all integers rows and cols
    from 0 to 4294967295 (the greatest array length), /generateTable answers
    with a table that has exactly cols headers and exactly rows rows, every
    row has exactly cols cells, and every cell is a string (none is
    undefined). *)
Theorem C2_table_dimensions (text : jsval) (prompt : jstr) (rows cols : Z) :
  (0 <= rows <= 4294967295)%Z -> (0 <= cols <= 4294967295)%Z ->
  exists t,
    table_of_text text prompt rows cols = Ok t
    /\ (forall genData, extract_text_table genData = Ok text ->
          generateTable genData prompt rows cols = Json200 t)
    /\ length (tbl_headers t) = Z.to_nat cols
    /\ length (tbl_rows t) = Z.to_nat rows
    /\ Forall (fun row => length row = Z.to_nat cols
                          /\ Forall (fun x => x <> None) row) (tbl_rows t).
Proof.
  intros [Hr Hr'] [Hc Hc'].
  destruct (table_of_text_ok text prompt cols Hr') as (t & Et).
  exists t. split; [exact Et |]. split.
  { intros genData Hx. unfold generateTable.
    rewrite placeholders_ok by assumption. cbn [bind]. rewrite Hx. cbn [bind].
    rewrite Et. reflexivity. }
  revert Et. unfold table_of_text.
  pose proof (structured_parse_width text rows Hc) as Hw.
  destruct (structured_parse text rows cols) as [[ph pr] fin].
  cbn [fst snd] in Hw.
  assert (Hh : length (if negb (Z.of_nat (length ph) =? cols)%Z
                       then fallback_headers prompt cols else ph) = Z.to_nat cols).
  { destruct (Z.eqb_spec (Z.of_nat (length ph)) cols) as [E|E]; cbn [negb].
    - lia.
    - now apply fallback_headers_spec. }
  destruct (Z.eqb_spec (Z.of_nat (length pr)) rows) as [E|E]; cbn [negb].
  - cbn [bind]. intros [= <-]. cbn [tbl_headers tbl_rows].
    split; [exact Hh |]. split; [rewrite length_map; lia |].
    apply Forall_map. eapply Forall_impl; [| exact Hw].
    intros row Hrow. cbn beta. rewrite length_map. split; [exact Hrow |].
    apply Forall_map_Some.
  - rewrite fallback_rows_ok by exact Hr'. cbn [bind]. intros [= <-].
    cbn [tbl_headers tbl_rows].
    split; [exact Hh |]. split; apply synth_rows_shape.
Qed.

(** ** The response envelope *)









(** ** Row fallback: the status rule *)

Lemma synth_cell_status (name : jstr) (r c : Z) (h : jstr) (n : nat) :
  has h "status" = true -> has h "http" = false -> has h "code" = false ->
  rules_before_status h = false ->
  synth_cell name r c h n
  = (Some (if (r mod 2 =? 0)%Z then lit "Active" else lit "Inactive"), n).
Proof.
  intros Hs Hh Hc Hb. unfold rules_before_status in Hb.
  repeat match type of Hb with
         | (_ || _) = false =>
             let H := fresh "Hb" in
             apply orb_false_iff in Hb; destruct Hb as [Hb H]
         end.
  unfold synth_cell.
  repeat match goal with
         | H : ?x = false |- context [?x] => rewrite H
         end.
  rewrite Hs. reflexivity.
Qed.

Lemma synth_cols_nth (headers : list jstr) (name : jstr) (r : Z) (k : nat) :
  forall (c0 : Z) (n j : nat), j < k ->
  exists n',
    nth_error (fst (synth_cols headers name r k c0 n)) j
    = Some (fst (synth_cell name r (c0 + Z.of_nat j)
                   (header_at headers (c0 + Z.of_nat j)) n')).
Proof.
  induction k as [|k IH]; intros c0 n j Hj; [lia |].
  rewrite synth_cols_S.
  destruct (synth_cell name r c0 (header_at headers c0) n) as [x n1] eqn:Ex.
  specialize (IH (c0 + 1)%Z n1).
  destruct (synth_cols headers name r k (c0 + 1) n1) as [xs n2].
  destruct j as [|j]; cbn [fst nth_error].
  - exists n. rewrite Z.add_0_r, Ex. reflexivity.
  - destruct (IH j ltac:(lia)) as [n' E]. exists n'.
    cbn [fst] in E. rewrite E.
    replace (c0 + Z.of_nat (S j))%Z with (c0 + 1 + Z.of_nat j)%Z by lia.
    reflexivity.
Qed.

Lemma synth_rows_nth (headers : list jstr) (cols : Z) (k : nat) :
  forall (r0 : Z) (n i : nat), i < k ->
  exists name n',
    nth_error (fst (synth_rows headers cols k r0 n)) i
    = Some (fst (synth_cols headers name (r0 + Z.of_nat i) (Z.to_nat cols) 0 n')).
Proof.
  induction k as [|k IH]; intros r0 n i Hi; [lia |].
  rewrite synth_rows_S.
  destruct (randomName n) as [name n0].
  destruct (synth_cols headers name r0 (Z.to_nat cols) 0 n0) as [row n1] eqn:Er.
  specialize (IH (r0 + 1)%Z n1).
  destruct (synth_rows headers cols k (r0 + 1) n1) as [more n2].
  destruct i as [|i]; cbn [fst nth_error].
  - exists name, n0. rewrite Z.add_0_r, Er. reflexivity.
  - destruct (IH i ltac:(lia)) as (name' & n' & E). exists name', n'.
    cbn [fst] in E. rewrite E.
    replace (r0 + Z.of_nat (S i))%Z with (r0 + 1 + Z.of_nat i)%Z by lia.
    reflexivity.
Qed.

(** In the row fallback, for every row r and every column whose lower-cased
    header contains [status], contains neither [http] nor [code] and is
    matched by none of the rules tried before (identifier, name, username,
    email, role, department), the cell is [Active] when r is even and
    [Inactive] when r is odd. *)
Lemma status_parity (headers : list jstr) (rows cols : Z)
    (body : list (list cell)) (r c : nat) :
  fallback_rows headers rows cols = Ok body ->
  (Z.of_nat r < rows)%Z -> (Z.of_nat c < cols)%Z ->
  let h := header_at headers (Z.of_nat c) in
  has h "status" = true -> has h "http" = false -> has h "code" = false ->
  rules_before_status h = false ->
  cell_at body r c
  = Some (Some (if (Z.of_nat r mod 2 =? 0)%Z then lit "Active" else lit "Inactive")).
Proof.
  intros Hb Hr Hc h Hs Hh Hcode Hbefore.
  unfold fallback_rows, Array_from in Hb.
  destruct (4294967295 <? rows)%Z; [discriminate |]. cbn [bind] in Hb.
  injection Hb as <-. unfold cell_at.
  destruct (@synth_rows_nth headers cols (Z.to_nat rows) 0%Z 0 r ltac:(lia))
    as (name & n0 & Er).
  rewrite Er.
  destruct (@synth_cols_nth headers name (0 + Z.of_nat r) (Z.to_nat cols) 0%Z n0 c ltac:(lia))
    as (n1 & Ec).
  rewrite Ec. cbn [Z.add]. fold h.
  rewrite (@synth_cell_status name (Z.of_nat r) (Z.of_nat c) h n1 Hs Hh Hcode Hbefore).
  reflexivity.
Qed.

End Properties.

(** ** Trimming *)

Lemma isJsonWs_isWhiteSpace (c : cu) : isJsonWs c = true -> isWhiteSpace c = true.
Proof.
  unfold isJsonWs, isWhiteSpace, cu_eqb. cbn [existsb].
  intros H. repeat (apply orb_true_iff in H; destruct H as [H|H]);
    try discriminate; apply N.eqb_eq in H; subst c; reflexivity.
Qed.

Lemma trimStart_tail (s : jstr) : tail_of (trimStart s) s.
Proof.
  induction s as [|c r IH]; cbn [trimStart]; [apply tail_refl |].
  destruct (isWhiteSpace c); [now apply tail_cons | apply tail_refl].
Qed.

Lemma trimStart_head (s : jstr) (c : cu) (r : jstr) :
  trimStart s = c :: r -> isWhiteSpace c = false.
Proof.
  induction s as [|x s IH]; cbn [trimStart]; [discriminate |].
  destruct (isWhiteSpace x) eqn:E; [exact IH |]. now intros [= <- <-].
Qed.

Lemma trimStart_snoc (x : jstr) (c : cu) :
  isWhiteSpace c = false -> trimStart (x ++ [c]) = trimStart x ++ [c].
Proof.
  intros Hc. induction x as [|y x IH]; cbn [trimStart app].
  - now rewrite Hc.
  - destruct (isWhiteSpace y); [exact IH | reflexivity].
Qed.

Lemma trimEnd_head (c : cu) (r : jstr) :
  isWhiteSpace c = false -> exists r', trimEnd (c :: r) = c :: r'.
Proof.
  intros Hc. unfold trimEnd. cbn [rev].
  rewrite trimStart_snoc by assumption. rewrite rev_app_distr. cbn [rev app].
  eauto.
Qed.

Lemma trim_head (s : jstr) (c : cu) (r : jstr) :
  trim s = c :: r -> isWhiteSpace c = false.
Proof.
  unfold trim. destruct (trimStart s) as [|x u] eqn:E; [discriminate |].
  pose proof (@trimStart_head s x u E) as Hx.
  destruct (@trimEnd_head x u Hx) as [r' ->]. now intros [= <- _].
Qed.

Lemma trim_incl (s : jstr) : incl (trim s) s.
Proof.
  unfold trim, trimEnd. intros x Hx.
  apply (@tail_incl _ _ (trimStart_tail s)).
  apply in_rev in Hx. apply (@tail_incl _ _ (trimStart_tail _)) in Hx.
  now apply in_rev in Hx.
Qed.

Lemma In_includes (c : cu) (s : jstr) : In c s -> includes [c] s = true.
Proof.
  induction s as [|x s IH]; [intros [] |]. intros [->|H]; cbn [includes startsWith].
  - unfold cu_eqb. now rewrite N.eqb_refl.
  - rewrite (IH H). apply orb_true_r.
Qed.

Lemma map_trim_id (L : list jstr) : Forall (fun s => trim s = s) L -> map trim L = L.
Proof. induction 1 as [|x L Hx _ IH]; cbn [map]; congruence. Qed.

Lemma filter_nonEmpty_repeat (n : nat) : filter nonEmpty (repeat [] n) = [].
Proof. induction n; cbn; auto. Qed.

(** ** The parser does not look past what it reads

    Each parsing function that succeeds on a text has read a prefix of it
    (the core), and succeeds with the same value on the core followed by
    any other rest (for a number: a rest that does not continue it), with
    any budget above the length of the core. *)

Lemma skip_ws_split (s : jstr) (c : cu) (r : jstr) :
  skip_ws s = c :: r ->
  exists w, s = w ++ c :: r /\ forall tl, skip_ws (w ++ c :: tl) = c :: tl.
Proof.
  induction s as [|x s IH]; cbn [skip_ws]; [discriminate |].
  destruct (isJsonWs x) eqn:Ex.
  - intros H. destruct (IH H) as (w & -> & Hw). exists (x :: w).
    split; [reflexivity |]. intros tl. cbn [app skip_ws]. rewrite Ex. apply Hw.
  - intros [= <- <-]. exists []. split; [reflexivity |].
    intros tl. cbn [app skip_ws]. now rewrite Ex.
Qed.

Lemma skip_ws_all (s : jstr) :
  skip_ws s = [] -> Forall (fun c => isJsonWs c = true) s.
Proof.
  induction s as [|x s IH]; cbn [skip_ws]; [constructor |].
  destruct (isJsonWs x) eqn:Ex; [| discriminate]. intros H. constructor; auto.
Qed.

Lemma pmap_POk (A B : Type) (f : A -> B) (p : pres A) (a : A) (rest : jstr) :
  p = POk a rest -> pmap f p = POk (f a) rest.
Proof. now intros ->. Qed.

Lemma parse_chars_local_bounded (n : nat) :
  forall s v rest, length s <= n -> parse_chars s = POk v rest ->
  exists core, s = core ++ rest /\ ends_with DQ core
               /\ forall tl, parse_chars (core ++ tl) = POk v tl.
Proof.
  induction n as [|n IH]; intros s v rest Hn; destruct s as [|c r];
    cbn [parse_chars]; try discriminate; cbn [length] in Hn; [lia |].
  destruct (cu_eqb c DQ) eqn:Ec.
  { intros [= <- <-]. apply N.eqb_eq in Ec. subst c. exists [DQ].
    split; [reflexivity |]. split; [now exists [] |]. reflexivity. }
  destruct (cu_eqb c 92) eqn:Eb.
  - destruct r as [|e r1]; [discriminate |].
    destruct (cu_eqb e 117) eqn:Eu.
    + destruct r1 as [|h1 [|h2 [|h3 [|h4 r2]]]]; try discriminate.
      destruct (hex4 h1 h2 h3 h4) as [u|] eqn:Eh; [| discriminate].
      intros (a & E & ->)%pmap_ok.
      apply IH in E; [| cbn [length] in Hn; lia].
      destruct E as (core & -> & [c0 ->] & Hl).
      exists (c :: e :: h1 :: h2 :: h3 :: h4 :: c0 ++ [DQ]).
      split; [reflexivity |].
      split; [now exists (c :: e :: h1 :: h2 :: h3 :: h4 :: c0) |].
      intros tl. cbn [app parse_chars]. rewrite Ec, Eb, Eu, Eh.
      now rewrite (Hl tl).
    + destruct (escape_char e) as [u|] eqn:Ee; [| discriminate].
      intros (a & E & ->)%pmap_ok.
      apply IH in E; [| cbn [length] in Hn; lia].
      destruct E as (core & -> & [c0 ->] & Hl).
      exists (c :: e :: c0 ++ [DQ]).
      split; [reflexivity |].
      split; [now exists (c :: e :: c0) |].
      intros tl. cbn [app parse_chars]. rewrite Ec, Eb, Eu, Ee.
      now rewrite (Hl tl).
  - destruct (N.ltb c 32) eqn:El; [discriminate |].
    intros (a & E & ->)%pmap_ok.
    apply IH in E; [| lia].
    destruct E as (core & -> & [c0 ->] & Hl).
    exists (c :: c0 ++ [DQ]).
    split; [reflexivity |].
    split; [now exists (c :: c0) |].
    intros tl. cbn [app parse_chars]. rewrite Ec, Eb, El.
    now rewrite (Hl tl).
Qed.

Lemma parse_chars_local (s v rest : jstr) :
  parse_chars s = POk v rest ->
  exists core, s = core ++ rest /\ ends_with DQ core
               /\ forall tl, parse_chars (core ++ tl) = POk v tl.
Proof. now apply parse_chars_local_bounded with (n := length s). Qed.

Lemma stops_heads (tl : jstr) :
  stops tl ->
  head_fails isDigit tl /\ head_fails (fun c => cu_eqb c 46) tl
  /\ head_fails (fun c => cu_eqb c 101 || cu_eqb c 69) tl.
Proof.
  destruct tl as [|c tl]; [cbn; tauto |]. unfold stops, numberChar, head_fails.
  destruct (isDigit c), (cu_eqb c 46), (cu_eqb c 101), (cu_eqb c 69);
    cbn; intros; try discriminate; auto.
Qed.

Lemma take_digits_local (s d r : jstr) :
  take_digits s = (d, r) ->
  s = d ++ r /\ Forall (fun c => isDigit c = true) d
  /\ forall tl, head_fails isDigit tl -> take_digits (d ++ tl) = (d, tl).
Proof.
  revert d r; induction s as [|c s IH]; intros d r; cbn [take_digits].
  - intros [= <- <-]. repeat split; [constructor |].
    intros tl Ht. cbn [app].
    destruct tl as [|x tl]; [reflexivity |]. cbn in Ht. cbn [take_digits]. now rewrite Ht.
  - destruct (isDigit c) eqn:Ec.
    + destruct (take_digits s) as [d' r'] eqn:E. intros [= <- <-].
      destruct (IH _ _ eq_refl) as (-> & Hd & Hl).
      repeat split; [now constructor |].
      intros tl Ht. cbn [app take_digits]. now rewrite Ec, (Hl tl Ht).
    + intros [= <- <-]. repeat split; [constructor |].
      intros tl Ht. cbn [app].
      destruct tl as [|x tl]; [reflexivity |]. cbn in Ht. cbn [take_digits]. now rewrite Ht.
Qed.

Lemma digits_last (d : jstr) :
  d <> [] -> Forall (fun c => isDigit c = true) d ->
  exists d0 c, d = d0 ++ [c] /\ isDigit c = true.
Proof.
  intros Hne Hd. destruct (exists_last Hne) as (d0 & c & ->).
  exists d0, c. split; [reflexivity |].
  apply Forall_app in Hd. destruct Hd as [_ Hc]. now inversion Hc.
Qed.

Lemma lex_int_local (s i r : jstr) :
  lex_int s = Some (i, r) ->
  s = i ++ r
  /\ (exists i0 c, i = i0 ++ [c] /\ isDigit c = true)
  /\ forall x, head_fails isDigit x -> lex_int (i ++ x) = Some (i, x).
Proof.
  unfold lex_int. destruct s as [|c r0]; [discriminate |].
  destruct (cu_eqb c 48) eqn:E0.
  - intros [= <- <-]. split; [reflexivity |]. split.
    + exists [], c. split; [reflexivity |]. apply N.eqb_eq in E0. now subst c.
    + intros x _. cbn [app]. now rewrite E0.
  - destruct (isDigit c) eqn:Ec; [| discriminate].
    destruct (take_digits r0) as [d r'] eqn:Ed. intros [= <- <-].
    destruct (take_digits_local _ Ed) as (-> & Hd & Hl).
    split; [reflexivity |]. split.
    + apply digits_last; [discriminate | now constructor].
    + intros x Hx. cbn [app]. now rewrite E0, Ec, (Hl x Hx).
Qed.

Lemma lex_frac_local (s f r : jstr) :
  lex_frac s = Some (f, r) ->
  s = f ++ r
  /\ (f = [] \/ (exists f0 c, f = f0 ++ [c] /\ isDigit c = true)
               /\ exists f1, f = 46%N :: f1)
  /\ forall x, head_fails isDigit x -> head_fails (fun c => cu_eqb c 46) x ->
               lex_frac (f ++ x) = Some (f, x).
Proof.
  unfold lex_frac. destruct s as [|c r0].
  { intros [= <- <-]. split; [reflexivity |]. split; [now left |].
    intros x _ Hx. cbn [app]. destruct x as [|y x]; [reflexivity |].
    cbn in Hx. now rewrite Hx. }
  destruct (cu_eqb c 46) eqn:E0.
  - destruct (take_digits r0) as [[|d0 d] r'] eqn:Ed; [discriminate |].
    intros [= <- <-].
    destruct (take_digits_local _ Ed) as (-> & Hd & Hl).
    apply N.eqb_eq in E0. subst c.
    split; [reflexivity |]. split.
    + right. split; [| now exists (d0 :: d)].
      destruct (@digits_last (d0 :: d) ltac:(discriminate) Hd) as (f0 & c & E & Hc).
      exists (46%N :: f0), c. split; [| exact Hc]. cbn [app]. now rewrite E.
    + intros x Hx _. cbn [app]. change (cu_eqb 46 46) with true. cbv iota.
      change (d0 :: d ++ x) with ((d0 :: d) ++ x). now rewrite (Hl x Hx).
  - intros [= <- <-]. split; [reflexivity |]. split; [now left |].
    intros x _ Hx. cbn [app]. destruct x as [|y x]; [reflexivity |].
    cbn in Hx. now rewrite Hx.
Qed.

Lemma exp_mark_not_digit (c : cu) :
  cu_eqb c 101 || cu_eqb c 69 = true -> isDigit c = false /\ cu_eqb c 46 = false.
Proof.
  unfold cu_eqb. intros H. apply orb_true_iff in H.
  destruct H as [H|H]; apply N.eqb_eq in H; subst c; split; reflexivity.
Qed.

Lemma digit_not_sign (c : cu) :
  isDigit c = true -> cu_eqb c 43 || cu_eqb c 45 = false.
Proof.
  unfold isDigit, cu_eqb. intros H. apply andb_true_iff in H. destruct H as [H1 H2].
  apply N.leb_le in H1. apply orb_false_iff. split; apply N.eqb_neq; lia.
Qed.

Lemma lex_exp_local (s e r : jstr) :
  lex_exp s = Some (e, r) ->
  s = e ++ r
  /\ (e = [] \/ (exists e0 c, e = e0 ++ [c] /\ isDigit c = true)
               /\ exists c e1, e = c :: e1 /\ cu_eqb c 101 || cu_eqb c 69 = true)
  /\ forall x, head_fails isDigit x ->
               head_fails (fun c => cu_eqb c 101 || cu_eqb c 69) x ->
               lex_exp (e ++ x) = Some (e, x).
Proof.
  unfold lex_exp. destruct s as [|c r0].
  { intros [= <- <-]. split; [reflexivity |]. split; [now left |].
    intros x _ Hx. cbn [app]. destruct x as [|y x]; [reflexivity |].
    cbn in Hx. now rewrite Hx. }
  destruct (cu_eqb c 101 || cu_eqb c 69) eqn:E0.
  - destruct r0 as [|g r1].
    { cbn [take_digits]. discriminate. }
    destruct (cu_eqb g 43 || cu_eqb g 45) eqn:Eg.
    + destruct (take_digits r1) as [[|d0 d] r'] eqn:Ed; [discriminate |].
      intros [= <- <-].
      destruct (take_digits_local _ Ed) as (-> & Hd & Hl).
      split; [reflexivity |]. split.
      * right. split; [| now exists c, ([g] ++ d0 :: d)].
        destruct (@digits_last (d0 :: d) ltac:(discriminate) Hd) as (f0 & c' & E & Hc).
        exists (c :: g :: f0), c'. split; [| exact Hc]. cbn [app]. now rewrite E.
      * intros x Hx _. cbn [app]. rewrite E0, Eg.
        change (d0 :: d ++ x) with ((d0 :: d) ++ x). now rewrite (Hl x Hx).
    + destruct (take_digits (g :: r1)) as [[|d0 d] r'] eqn:Ed; [discriminate |].
      intros [= <- <-].
      destruct (take_digits_local _ Ed) as (E & Hd & Hl).
      cbn [app] in E. injection E as <- ->.
      split; [reflexivity |]. split.
      * right. split; [| now exists c, ([] ++ g :: d)].
        destruct (@digits_last (g :: d) ltac:(discriminate) Hd) as (f0 & c' & E & Hc).
        exists (c :: f0), c'. split; [| exact Hc]. cbn [app]. now rewrite E.
      * intros x Hx _. cbn [app]. rewrite E0, Eg.
        change (g :: d ++ x) with ((g :: d) ++ x). now rewrite (Hl x Hx).
  - intros [= <- <-]. split; [reflexivity |]. split; [now left |].
    intros x _ Hx. cbn [app]. destruct x as [|y x]; [reflexivity |].
    cbn in Hx. now rewrite Hx.
Qed.

Lemma head_fails_app (p : cu -> bool) (a x : jstr) :
  (a = [] -> head_fails p x) ->
  (forall c a1, a = c :: a1 -> p c = false) ->
  head_fails p (a ++ x).
Proof.
  destruct a as [|c a1]; cbn [app]; intros H1 H2; [now apply H1 |].
  cbn. eapply H2; reflexivity.
Qed.

Lemma lex_number_local (s l rest : jstr) :
  lex_number s = POk l rest ->
  s = l ++ rest
  /\ (exists l0 c, l = l0 ++ [c] /\ isDigit c = true)
  /\ forall tl, stops tl -> lex_number (l ++ tl) = POk l tl.
Proof.
  unfold lex_number.
  destruct s as [|c0 r0].
  { cbn. discriminate. }
  assert (Hcases :
    forall (minus s0 : jstr),
      (minus = [] /\ (s0 = c0 :: r0) /\ cu_eqb c0 45 = false
       \/ minus = [c0] /\ s0 = r0 /\ cu_eqb c0 45 = true) ->
      match lex_int s0 with
      | Some (i, s1) =>
          match lex_frac s1 with
          | Some (f, s2) =>
              match lex_exp s2 with
              | Some (e, s3) => POk (minus ++ i ++ f ++ e) s3
              | None => PErr
              end
          | None => PErr
          end
      | None => PErr
      end = POk l rest ->
      c0 :: r0 = l ++ rest
      /\ (exists l0 c, l = l0 ++ [c] /\ isDigit c = true)
      /\ forall tl, stops tl -> lex_number (l ++ tl) = POk l tl).
  { intros minus s0 Hm.
    destruct (lex_int s0) as [[i s1]|] eqn:Ei; [| discriminate].
    destruct (lex_frac s1) as [[f s2]|] eqn:Ef; [| discriminate].
    destruct (lex_exp s2) as [[e s3]|] eqn:Ee; [| discriminate].
    intros [= <- <-].
    destruct (lex_int_local _ Ei) as (Es0 & (i0 & ci & Ei0 & Hci) & Hi).
    destruct (lex_frac_local _ Ef) as (Es1 & Hf & Hfl).
    destruct (lex_exp_local _ Ee) as (Es2 & He & Hel).
    assert (Hs : c0 :: r0 = (minus ++ i ++ f ++ e) ++ s3).
    { rewrite <- !app_assoc, <- Es2, <- Es1, <- Es0.
      destruct Hm as [(-> & -> & _)|(-> & -> & _)]; reflexivity. }
    split; [exact Hs |]. split.
    - destruct He as [->|[(e0 & ce & -> & Hce) _]].
      + rewrite app_nil_r.
        destruct Hf as [->|[(f0 & cf & -> & Hcf) _]].
        * rewrite app_nil_r. exists (minus ++ i0), ci. subst i.
          now rewrite app_assoc.
        * exists (minus ++ i ++ f0), cf. now rewrite !app_assoc.
      + exists (minus ++ i ++ f ++ e0), ce. now rewrite !app_assoc.
    - intros tl Ht. destruct (stops_heads _ Ht) as (Hd & Hdot & Hexp).
      assert (Hx_e : head_fails isDigit (e ++ tl)
                     /\ head_fails (fun c => cu_eqb c 46) (e ++ tl)).
      { destruct He as [->|[_ (c & e1 & -> & Hc)]]; [now split |].
        apply exp_mark_not_digit in Hc. cbn. tauto. }
      assert (Hx_f : head_fails isDigit (f ++ e ++ tl)).
      { destruct Hf as [->|[_ (f1 & ->)]]; [tauto | reflexivity]. }
      assert (Hin : lex_int (i ++ f ++ e ++ tl) = Some (i, f ++ e ++ tl))
        by now apply Hi.
      assert (Hfr : lex_frac (f ++ e ++ tl) = Some (f, e ++ tl))
        by (apply Hfl; tauto).
      assert (Hex : lex_exp (e ++ tl) = Some (e, tl)) by now apply Hel.
      unfold lex_number.
      destruct Hm as [(-> & Hm0)|(-> & _ & Hc0)].
      + destruct Hm0 as [Hs0 Hc0]. subst s0.
        destruct i as [|i1 i']; [destruct i0; discriminate |].
        cbn [app] in Es0. injection Es0 as <- Es0.
        cbn [app] in *. rewrite <- !app_assoc. rewrite Hc0, Hin, Hfr, Hex. reflexivity.
      + cbn [app]. rewrite Hc0. rewrite <- !app_assoc.
        rewrite Hin, Hfr, Hex. reflexivity. }
  destruct (cu_eqb c0 45) eqn:E45.
  - apply (Hcases [c0] r0). right. auto.
  - apply (Hcases [] (c0 :: r0)). left. auto.
Qed.

Lemma startsWith_app (kw s : jstr) :
  startsWith kw s = true -> s = kw ++ skipn (length kw) s.
Proof.
  revert s; induction kw as [|k kw IH]; intros s; cbn [startsWith]; [reflexivity |].
  destruct s as [|c s]; [discriminate |].
  intros H. apply andb_true_iff in H. destruct H as [Hc Hs].
  apply N.eqb_eq in Hc. subst c. cbn [length skipn app]. f_equal. now apply IH.
Qed.

Lemma startsWith_self (kw tl : jstr) : startsWith kw (kw ++ tl) = true.
Proof.
  induction kw as [|k kw IH]; cbn [startsWith app]; [reflexivity |].
  unfold cu_eqb. now rewrite N.eqb_refl, IH.
Qed.

Lemma expect_local (A : Type) (kw : jstr) (v v' : A) (s rest : jstr) :
  expect kw v s = POk v' rest ->
  s = kw ++ rest /\ v' = v /\ forall tl, expect kw v (kw ++ tl) = POk v tl.
Proof.
  unfold expect. destruct (startsWith kw s) eqn:E; [| discriminate].
  intros [= <- <-]. split; [now apply startsWith_app |]. split; [reflexivity |].
  intros tl. rewrite startsWith_self. f_equal.
  rewrite skipn_app, skipn_all, Nat.sub_diag. reflexivity.
Qed.
Lemma ws_not_numberChar (c : cu) : isJsonWs c = true -> numberChar c = false.
Proof.
  unfold isJsonWs, cu_eqb. cbn [existsb]. intros H.
  repeat (apply orb_true_iff in H; destruct H as [H|H]);
    try discriminate; apply N.eqb_eq in H; subst c; reflexivity.
Qed.

Lemma stops_after_ws (w : jstr) (c : cu) (x : jstr) :
  (forall tl, skip_ws (w ++ c :: tl) = c :: tl) ->
  numberChar c = false -> stops (w ++ c :: x).
Proof.
  intros Hw Hc. destruct w as [|y w]; cbn [app stops]; [exact Hc |].
  specialize (Hw []). cbn [app skip_ws] in Hw.
  destruct (isJsonWs y) eqn:Ey; [now apply ws_not_numberChar |].
  injection Hw as -> _. exact Hc.
Qed.

Ltac norm_app :=
  repeat (rewrite <- app_assoc || rewrite <- app_comm_cons); cbn [app].

Ltac norm_app_in H :=
  repeat (rewrite <- app_assoc in H || rewrite <- app_comm_cons in H); cbn [app] in H.

Lemma parse_elems_local (pv : jstr -> pres jsval) (pvf : nat -> jstr -> pres jsval) :
  local_for pv pvf ->
  forall k s vs rest, parse_elems pv k s = POk vs rest ->
  exists core, s = core ++ rest /\ ends_with 93%N core
    /\ forall m k' tl, length core <= m -> length core <= k' ->
         parse_elems (pvf m) k' (core ++ tl) = POk vs tl.
Proof.
  intros Hpv. induction k as [|k IH]; intros s vs rest; cbn [parse_elems];
    [discriminate |].
  destruct (pv s) as [v r0| |] eqn:Ev; try discriminate.
  destruct (Hpv _ _ _ Ev) as (core0 & -> & Hne0 & Hl0).
  destruct (skip_ws r0) as [|c r] eqn:Es; [discriminate |].
  destruct (skip_ws_split _ Es) as (w & -> & Hw).
  destruct (cu_eqb c 44) eqn:Ec.
  - intros (a & E & ->)%pmap_ok.
    destruct (IH _ _ _ E) as (core1 & E1 & [c1 ->] & Hl1).
    destruct (skip_ws r) as [|x r1] eqn:Es1; [destruct c1; discriminate |].
    destruct (skip_ws_split _ Es1) as (w1 & -> & Hw1).
    assert (Ecore1 : exists core1', c1 ++ [93%N] = x :: core1'
                                    /\ r1 = core1' ++ rest).
    { destruct c1 as [|y c1]; cbn [app] in E1 |- *; injection E1 as -> ->; eauto. }
    destruct Ecore1 as (core1' & Ec1 & ->).
    exists (core0 ++ w ++ c :: w1 ++ c1 ++ [93%N]).
    split; [rewrite Ec1; norm_app; reflexivity |].
    split; [exists (core0 ++ w ++ c :: w1 ++ c1); norm_app; reflexivity |].
    intros m k' tl HB Hk'.
    repeat (rewrite length_app in HB, Hk' || cbn [length] in HB, Hk').
    destruct k' as [|k']; [lia |]. cbn [parse_elems].
    norm_app.
    rewrite (Hl0 m (w ++ c :: w1 ++ c1 ++ 93%N :: tl) ltac:(lia)).
    2:{ apply stops_after_ws; [exact Hw |]. apply N.eqb_eq in Ec. now subst c. }
    rewrite Hw, Ec.
    assert (E93 : c1 ++ 93%N :: tl = x :: core1' ++ tl).
    { change (93%N :: tl) with ([93%N] ++ tl). rewrite app_assoc, Ec1. reflexivity. }
    rewrite E93, Hw1, <- E93.
    change (93%N :: tl) with ([93%N] ++ tl). rewrite app_assoc.
    rewrite (Hl1 m k' tl ltac:(rewrite length_app; cbn [length]; lia)
                 ltac:(rewrite length_app; cbn [length]; lia)).
    reflexivity.
  - destruct (cu_eqb c 93) eqn:Ec'; [| discriminate].
    intros [= <- <-]. apply N.eqb_eq in Ec'. subst c.
    exists (core0 ++ w ++ [93%N]).
    split; [norm_app; reflexivity |].
    split; [exists (core0 ++ w); norm_app; reflexivity |].
    intros m k' tl HB Hk'.
    repeat (rewrite length_app in HB, Hk' || cbn [length] in HB, Hk').
    destruct k' as [|k']; [lia |]. cbn [parse_elems].
    norm_app.
    rewrite (Hl0 m (w ++ 93%N :: tl) ltac:(lia)).
    2:{ apply stops_after_ws; [exact Hw | reflexivity]. }
    rewrite Hw. reflexivity.
Qed.

Lemma parse_members_local (pv : jstr -> pres jsval) (pvf : nat -> jstr -> pres jsval) :
  local_for pv pvf ->
  forall k s vs rest, parse_members pv k s = POk vs rest ->
  exists core, s = core ++ rest /\ ends_with 125%N core
    /\ forall m k' tl, length core <= m -> length core <= k' ->
         parse_members (pvf m) k' (core ++ tl) = POk vs tl.
Proof.
  intros Hpv. induction k as [|k IH]; intros s vs rest; cbn [parse_members];
    [discriminate |].
  destruct s as [|q s0]; [discriminate |].
  destruct (cu_eqb q DQ) eqn:Eq; [| discriminate].
  destruct (parse_chars s0) as [key rest0| |] eqn:Ek; try discriminate.
  destruct (parse_chars_local _ Ek) as (corek & -> & _ & Hlk).
  destruct (skip_ws rest0) as [|c0 r0] eqn:Es0; [discriminate |].
  destruct (skip_ws_split _ Es0) as (w0 & -> & Hw0).
  destruct (cu_eqb c0 58) eqn:Ec0; [| discriminate].
  destruct (pv (skip_ws r0)) as [v r1| |] eqn:Ev; try discriminate.
  destruct (Hpv _ _ _ Ev) as (corev & Ecv & Hnev & Hlv).
  destruct (skip_ws r0) as [|x0 r0'] eqn:Es0'; [destruct corev; [congruence | discriminate] |].
  destruct (skip_ws_split _ Es0') as (w0' & -> & Hw0').
  assert (Ecorev : exists corev', corev = x0 :: corev' /\ r0' = corev' ++ r1).
  { destruct corev as [|y cv]; [congruence |]. cbn [app] in Ecv. injection Ecv as -> ->. eauto. }
  destruct Ecorev as (corev' & -> & ->).
  destruct (skip_ws r1) as [|c r] eqn:Es1; [discriminate |].
  destruct (skip_ws_split _ Es1) as (w1 & -> & Hw1).
  destruct (cu_eqb c 44) eqn:Ec.
  - intros (a & E & ->)%pmap_ok.
    destruct (IH _ _ _ E) as (core1 & E1 & [c1 ->] & Hl1).
    destruct (skip_ws r) as [|x r1] eqn:Es2; [destruct c1; discriminate |].
    destruct (skip_ws_split _ Es2) as (w2 & -> & Hw2).
    assert (Ecore1 : exists core1', c1 ++ [125%N] = x :: core1'
                                    /\ r1 = core1' ++ rest).
    { destruct c1 as [|y c1]; cbn [app] in E1 |- *; injection E1 as -> ->; eauto. }
    destruct Ecore1 as (core1' & Ec1 & ->).
    exists (q :: corek ++ w0 ++ c0 :: w0' ++ (x0 :: corev') ++ w1 ++ c :: w2 ++ c1 ++ [125%N]).
    split; [rewrite Ec1; norm_app; reflexivity |].
    split; [exists (q :: corek ++ w0 ++ c0 :: w0' ++ (x0 :: corev') ++ w1 ++ c :: w2 ++ c1);
            norm_app; reflexivity |].
    intros m k' tl HB Hk'.
    repeat (rewrite length_app in HB, Hk' || cbn [length] in HB, Hk').
    destruct k' as [|k']; [lia |]. norm_app. cbn [parse_members].
    rewrite Eq, Hlk, Hw0, Ec0, Hw0'.
    change (x0 :: corev' ++ w1 ++ c :: w2 ++ c1 ++ 125%N :: tl)
      with ((x0 :: corev') ++ w1 ++ c :: w2 ++ c1 ++ 125%N :: tl).
    rewrite (Hlv m (w1 ++ c :: w2 ++ c1 ++ 125%N :: tl) ltac:(cbn [length]; lia)).
    2:{ apply stops_after_ws; [exact Hw1 |]. apply N.eqb_eq in Ec. now subst c. }
    rewrite Hw1, Ec.
    assert (E125 : c1 ++ 125%N :: tl = x :: core1' ++ tl).
    { change (125%N :: tl) with ([125%N] ++ tl). rewrite app_assoc, Ec1. reflexivity. }
    rewrite E125, Hw2, <- E125.
    change (125%N :: tl) with ([125%N] ++ tl). rewrite app_assoc.
    rewrite (Hl1 m k' tl ltac:(rewrite length_app; cbn [length]; lia)
                 ltac:(rewrite length_app; cbn [length]; lia)).
    reflexivity.
  - destruct (cu_eqb c 125) eqn:Ec'; [| discriminate].
    intros [= <- <-]. apply N.eqb_eq in Ec'. subst c.
    exists (q :: corek ++ w0 ++ c0 :: w0' ++ (x0 :: corev') ++ w1 ++ [125%N]).
    split; [norm_app; reflexivity |].
    split; [exists (q :: corek ++ w0 ++ c0 :: w0' ++ (x0 :: corev') ++ w1);
            norm_app; reflexivity |].
    intros m k' tl HB Hk'.
    repeat (rewrite length_app in HB, Hk' || cbn [length] in HB, Hk').
    destruct k' as [|k']; [lia |]. norm_app. cbn [parse_members].
    rewrite Eq, Hlk, Hw0, Ec0, Hw0'.
    change (x0 :: corev' ++ w1 ++ 125%N :: tl)
      with ((x0 :: corev') ++ w1 ++ 125%N :: tl).
    rewrite (Hlv m (w1 ++ 125%N :: tl) ltac:(cbn [length]; lia)).
    2:{ apply stops_after_ws; [exact Hw1 | reflexivity]. }
    rewrite Hw1. reflexivity.
Qed.

Lemma digit_not_ws (c : cu) : isDigit c = true -> isWhiteSpace c = false.
Proof.
  unfold isDigit. intros H. apply andb_true_iff in H. destruct H as [H1 H2].
  apply N.leb_le in H1, H2. unfold isWhiteSpace, cu_eqb. cbn [existsb].
  repeat (apply orb_false_iff; split); try (apply N.eqb_neq; lia); try reflexivity.
  apply andb_false_iff. left. apply N.leb_gt. lia.
Qed.

Lemma ends_with_cons (c x : cu) (s : jstr) : ends_with c s -> ends_with c (x :: s).
Proof. intros [s0 ->]. now exists (x :: s0). Qed.

Lemma ends_with_nonempty (c : cu) (s : jstr) : ends_with c s -> s <> [].
Proof. intros [s0 ->]. destruct s0; discriminate. Qed.

Lemma parse_value_local (n : nat) :
  forall s v rest, parse_value n s = POk v rest ->
  exists core, s = core ++ rest
    /\ (exists c, ends_with c core /\ isWhiteSpace c = false)
    /\ forall m tl, length core < m -> stops tl ->
         parse_value m (core ++ tl) = POk v tl.
Proof.
  induction n as [|n IH]; intros s v rest; cbn [parse_value]; [discriminate |].
  assert (Hloc : local_for (parse_value n) parse_value).
  { intros s0 v0 rest0 H0.
    destruct (IH _ _ _ H0) as (core & -> & (c' & Hc' & _) & Hl).
    exists core. split; [reflexivity |].
    split; [eapply ends_with_nonempty; eauto | exact Hl]. }
  destruct s as [|c r]; [discriminate |].
  destruct (cu_eqb c DQ) eqn:E1.
  { intros (a & E & ->)%pmap_ok.
    destruct (parse_chars_local _ E) as (core & -> & Hend & Hl).
    exists (c :: core). split; [reflexivity |].
    split; [exists DQ; split; [now apply ends_with_cons | reflexivity] |].
    intros [|m] tl Hm _; [cbn [length] in Hm; lia |].
    cbn [app parse_value]. now rewrite E1, Hl. }
  destruct (cu_eqb c 91) eqn:E2.
  { destruct (skip_ws r) as [|c1 r1] eqn:Es; [discriminate |].
    destruct (skip_ws_split _ Es) as (w & -> & Hw).
    destruct (cu_eqb c1 93) eqn:E93.
    - intros [= <- <-]. apply N.eqb_eq in E93. subst c1.
      exists (c :: w ++ [93%N]). split; [norm_app; reflexivity |].
      split; [exists 93%N; split; [exists (c :: w); reflexivity | reflexivity] |].
      intros [|m] tl Hm _; [cbn [length] in Hm; lia |].
      norm_app. cbn [parse_value]. now rewrite E1, E2, Hw.
    - intros (a & E & ->)%pmap_ok.
      destruct (parse_elems_local Hloc _ _ E) as (core1 & E1' & [c0 ->] & Hl1).
      assert (Ecore1 : exists core1', c0 ++ [93%N] = c1 :: core1' /\ r1 = core1' ++ rest).
      { destruct c0 as [|y c0]; cbn [app] in E1' |- *; injection E1' as -> ->; eauto. }
      destruct Ecore1 as (core1' & Ec1 & ->).
      exists (c :: w ++ c0 ++ [93%N]).
      split; [rewrite Ec1; norm_app; reflexivity |].
      split; [exists 93%N; split; [exists (c :: w ++ c0); norm_app; reflexivity | reflexivity] |].
      intros [|m] tl Hm _; [cbn [length] in Hm; lia |].
      repeat (rewrite length_app in Hm || cbn [length] in Hm).
      norm_app. cbn [parse_value]. rewrite E1, E2.
      assert (E93' : c0 ++ 93%N :: tl = c1 :: core1' ++ tl).
      { change (93%N :: tl) with ([93%N] ++ tl). rewrite app_assoc, Ec1. reflexivity. }
      rewrite E93', Hw, E93, <- E93'.
      change (93%N :: tl) with ([93%N] ++ tl). rewrite app_assoc.
      rewrite (Hl1 m m tl ltac:(rewrite length_app; cbn [length]; lia)
                   ltac:(rewrite length_app; cbn [length]; lia)).
      reflexivity. }
  destruct (cu_eqb c 123) eqn:E3.
  { destruct (skip_ws r) as [|c1 r1] eqn:Es; [discriminate |].
    destruct (skip_ws_split _ Es) as (w & -> & Hw).
    destruct (cu_eqb c1 125) eqn:E125.
    - intros [= <- <-]. apply N.eqb_eq in E125. subst c1.
      exists (c :: w ++ [125%N]). split; [norm_app; reflexivity |].
      split; [exists 125%N; split; [exists (c :: w); reflexivity | reflexivity] |].
      intros [|m] tl Hm _; [cbn [length] in Hm; lia |].
      norm_app. cbn [parse_value]. now rewrite E1, E2, E3, Hw.
    - intros (a & E & ->)%pmap_ok.
      destruct (parse_members_local Hloc _ _ E) as (core1 & E1' & [c0 ->] & Hl1).
      assert (Ecore1 : exists core1', c0 ++ [125%N] = c1 :: core1' /\ r1 = core1' ++ rest).
      { destruct c0 as [|y c0]; cbn [app] in E1' |- *; injection E1' as -> ->; eauto. }
      destruct Ecore1 as (core1' & Ec1 & ->).
      exists (c :: w ++ c0 ++ [125%N]).
      split; [rewrite Ec1; norm_app; reflexivity |].
      split; [exists 125%N; split; [exists (c :: w ++ c0); norm_app; reflexivity | reflexivity] |].
      intros [|m] tl Hm _; [cbn [length] in Hm; lia |].
      repeat (rewrite length_app in Hm || cbn [length] in Hm).
      norm_app. cbn [parse_value]. rewrite E1, E2, E3.
      assert (E125' : c0 ++ 125%N :: tl = c1 :: core1' ++ tl).
      { change (125%N :: tl) with ([125%N] ++ tl). rewrite app_assoc, Ec1. reflexivity. }
      rewrite E125', Hw, E125, <- E125'.
      change (125%N :: tl) with ([125%N] ++ tl). rewrite app_assoc.
      rewrite (Hl1 m m tl ltac:(rewrite length_app; cbn [length]; lia)
                   ltac:(rewrite length_app; cbn [length]; lia)).
      reflexivity. }
  assert (Hkw : forall (kw : jstr) (x : jsval) (last : cu),
             ends_with last kw -> isWhiteSpace last = false ->
             (forall m tl, parse_value (S m) (kw ++ tl) = expect kw x (kw ++ tl)) ->
             expect kw x (c :: r) = POk v rest ->
             exists core, c :: r = core ++ rest
               /\ (exists c', ends_with c' core /\ isWhiteSpace c' = false)
               /\ forall m tl, length core < m -> stops tl ->
                    parse_value m (core ++ tl) = POk v tl).
  { intros kw x last Hlast Hws Hpv He.
    destruct (expect_local _ _ _ He) as (Es & -> & Hl).
    exists kw. split; [exact Es |]. split; [eauto |].
    intros [|m] tl Hm _; [lia |]. now rewrite Hpv, Hl. }
  destruct (cu_eqb c 116) eqn:E4.
  { apply (Hkw (lit "true") (JBool true) 101%N);
      [now exists (lit "tru") | reflexivity | intros m tl; reflexivity]. }
  destruct (cu_eqb c 102) eqn:E5.
  { apply (Hkw (lit "false") (JBool false) 101%N);
      [now exists (lit "fals") | reflexivity | intros m tl; reflexivity]. }
  destruct (cu_eqb c 110) eqn:E6.
  { apply (Hkw (lit "null") JNull 108%N);
      [now exists (lit "nul") | reflexivity | intros m tl; reflexivity]. }
  intros (a & E & ->)%pmap_ok.
  destruct (lex_number_local _ E) as (Es & (l0 & cl & -> & Hcl) & Hl).
  exists (l0 ++ [cl]). split; [exact Es |].
  split; [exists cl; split; [now exists l0 | now apply digit_not_ws] |].
  intros [|m] tl Hm Ht; [lia |].
  assert (Eh : exists t0, (l0 ++ [cl]) ++ tl = c :: t0).
  { destruct l0 as [|y l0]; cbn [app] in Es |- *; injection Es as <- _; eauto. }
  destruct Eh as [t0 Eh]. cbn [parse_value]. rewrite Eh, E1, E2, E3, E4, E5, E6, <- Eh.
  now rewrite (Hl tl Ht).
Qed.
Lemma parse_value_head (n : nat) (c : cu) (r : jstr) (v : jsval) (rest : jstr) :
  parse_value n (c :: r) = POk v rest -> isWhiteSpace c = false.
Proof.
  destruct n as [|n]; cbn [parse_value]; [discriminate |].
  destruct (cu_eqb c DQ) eqn:E1; [apply N.eqb_eq in E1; now subst c |].
  destruct (cu_eqb c 91) eqn:E2; [apply N.eqb_eq in E2; now subst c |].
  destruct (cu_eqb c 123) eqn:E3; [apply N.eqb_eq in E3; now subst c |].
  destruct (cu_eqb c 116) eqn:E4; [apply N.eqb_eq in E4; now subst c |].
  destruct (cu_eqb c 102) eqn:E5; [apply N.eqb_eq in E5; now subst c |].
  destruct (cu_eqb c 110) eqn:E6; [apply N.eqb_eq in E6; now subst c |].
  intros (a & E & _)%pmap_ok. revert E. unfold lex_number.
  destruct (cu_eqb c 45) eqn:E7; [apply N.eqb_eq in E7; now subst c |].
  unfold lex_int.
  destruct (cu_eqb c 48) eqn:E8; [apply N.eqb_eq in E8; now subst c |].
  destruct (isDigit c) eqn:E9; [intros _; now apply digit_not_ws | discriminate].
Qed.

Lemma trimStart_skip_ws (s : jstr) (c : cu) (r : jstr) :
  skip_ws s = c :: r -> isWhiteSpace c = false -> trimStart s = c :: r.
Proof.
  induction s as [|x s IH]; cbn [skip_ws trimStart]; [discriminate |].
  destruct (isJsonWs x) eqn:Ex.
  - rewrite (isJsonWs_isWhiteSpace _ Ex). exact IH.
  - intros [= <- <-] ->. reflexivity.
Qed.

Lemma trimStart_ws_app (w x : jstr) :
  Forall (fun c => isWhiteSpace c = true) w -> trimStart (w ++ x) = trimStart x.
Proof. induction 1 as [|c w Hc _ IH]; cbn [app trimStart]; [| rewrite Hc]; auto. Qed.

Lemma trimEnd_core (core rest : jstr) (c : cu) :
  ends_with c core -> isWhiteSpace c = false ->
  Forall (fun x => isJsonWs x = true) rest ->
  trimEnd (core ++ rest) = core.
Proof.
  intros [core0 ->] Hc Hr. unfold trimEnd.
  rewrite rev_app_distr, trimStart_ws_app.
  - rewrite rev_app_distr. cbn [rev app trimStart]. rewrite Hc.
    change (c :: rev core0) with ([c] ++ rev core0).
    now rewrite rev_app_distr, rev_involutive.
  - apply Forall_rev. eapply Forall_impl; [| exact Hr].
    intros x. apply isJsonWs_isWhiteSpace.
Qed.

(** Trimming a text that [JSON.parse] accepts leaves a text it accepts just
    as well, with the same value. *)
Lemma JSON_parse_trim (s : jstr) (v : jsval) :
  JSON_parse s = POk v [] -> JSON_parse (trim s) = POk v [].
Proof.
  unfold JSON_parse, JSON_parse_fuel.
  destruct (parse_value (S (length s)) (skip_ws s)) as [v' rest| |] eqn:E;
    try discriminate.
  destruct (skip_ws rest) eqn:Er; [| discriminate]. intros [= ->].
  destruct (parse_value_local _ _ E) as (core & Es & (cl & Hend & Hcl) & Hl).
  destruct core as [|c core']; [now apply ends_with_nonempty in Hend |].
  assert (Hc : isWhiteSpace c = false).
  { rewrite Es in E. cbn [app] in E. eapply parse_value_head; eauto. }
  assert (Et : trim s = c :: core').
  { unfold trim. rewrite (@trimStart_skip_ws s c (core' ++ rest) Es Hc).
    change (c :: core' ++ rest) with ((c :: core') ++ rest).
    eapply trimEnd_core; eauto. now apply skip_ws_all. }
  rewrite Et. cbn [skip_ws].
  destruct (isJsonWs c) eqn:Ej; [apply isJsonWs_isWhiteSpace in Ej; congruence |].
  specialize (Hl (S (length (c :: core'))) [] ltac:(lia) I).
  rewrite app_nil_r in Hl. rewrite Hl. reflexivity.
Qed.

Section ListRoundTrip.
Context {P : Platform}.

Lemma mapM_strings (L : list jstr) :
  mapM (fun x => s <- ToString x;; Ok (trim s)) (map JStr L) = Ok (map trim L).
Proof.
  induction L as [|x L IH]; cbn [map mapM bind ToString]; [reflexivity |].
  now rewrite IH.
Qed.

Lemma jsonLike_without_quote (t : jstr) : ~ In SQ t -> jsonLike t = t.
Proof.
  intros H. unfold jsonLike.
  rewrite (@replaceAll_needs SQ re_list_start to_list_start t) by (reflexivity || assumption).
  rewrite (@replaceAll_needs SQ re_list_mid to_list_mid t) by (reflexivity || assumption).
  now rewrite (@replaceAll_needs SQ re_list_end to_list_end t) by (reflexivity || assumption).
Qed.

(** What the list normalizer collects from a text that trims to a JSON
    array of strings and that the quote repair leaves as it is: the strings,
    trimmed, the empty ones dropped. *)
Lemma normalize_json_array (text : jstr) (L : list jstr) :
  JSON_parse (trim text) = POk (JArr (map JStr L)) [] ->
  jsonLike (trim text) = trim text ->
  normalizeToList_text text = filter nonEmpty (map trim L).
Proof.
  intros Hp Hq. unfold normalizeToList_text.
  destruct text as [|c0 text0] eqn:Et; [discriminate |].
  cbn [isEmpty]. rewrite <- Et in *. clear Et c0 text0.
  set (t := trim text) in *.
  assert (Hbr : startsWith (lit "[") t = true /\ In 93%N t).
  { unfold JSON_parse, JSON_parse_fuel in Hp.
    assert (Hskip : skip_ws t = t).
    { destruct t as [|c r] eqn:Et; [reflexivity |]. cbn [skip_ws].
      destruct (isJsonWs c) eqn:Ec; [| reflexivity].
      apply isJsonWs_isWhiteSpace in Ec.
      subst t. apply trim_head in Et. congruence. }
    rewrite Hskip in Hp.
    destruct (parse_value (S (length t)) t) as [v rest| |] eqn:Ev; try discriminate.
    destruct (skip_ws rest); [| discriminate].
    injection Hp as ->. eapply parse_value_array; eauto. }
  destruct Hbr as [Hsw Hin].
  rewrite Hsw. change (lit "]") with [93%N]. rewrite (@In_includes _ _ Hin).
  replace (true && endsWith [93%N] t || true && true) with true
    by (destruct (endsWith [93%N] t); reflexivity).
  unfold try_json_array.
  rewrite Hq, Hp, mapM_strings. reflexivity.
Qed.

(** C8, as the code has it: for every well-formed JSON array text of N
    strings that the quote repair of lines 67-69 leaves as it is (none of
    its three patterns matches in the trimmed text) and whose strings are
    non-empty and carry no leading or trailing whitespace, and every count
    with 0 <= count <= N, the list pipeline returns the first count strings
    of the array, unchanged.  A text without a single quote is such a text,
    and so are texts with apostrophes that the patterns do not match. *)
Theorem C8_json_array_prefix (text : jstr) (L : list jstr) (count : Z) :
  JSON_parse text = POk (JArr (map JStr L)) [] ->
  jsonLike (trim text) = trim text ->
  Forall (fun s => s <> [] /\ trim s = s) L ->
  (0 <= count <= Z.of_nat (length L))%Z ->
  generate_list text count = firstn (Z.to_nat count) L.
Proof.
  intros Hp Hq HL Hc. apply JSON_parse_trim in Hp. unfold generate_list.
  rewrite (@normalize_json_array _ _ Hp Hq).
  assert (H1 : Forall (fun s => trim s = s) L)
    by (eapply Forall_impl; [| exact HL]; cbn; tauto).
  assert (H2 : Forall (fun s => s <> []) L)
    by (eapply Forall_impl; [| exact HL]; cbn; tauto).
  rewrite (@map_trim_id _ H1), (@filter_nonEmpty_id _ H2).
  apply resize_shape; [assumption | lia | lia].
Qed.

(** C9, as the code has it: for every list the pipeline returned for a
    count, whose entries carry no leading or trailing whitespace, and every
    JSON text of that list (a text [JSON.parse] reads as the array of its
    entries) that the quote repair of lines 67-69 leaves as it is, the
    pipeline run on that text with the same count returns the same list. *)
Theorem C9_renormalize (text : jstr) (count : Z) (again : jstr) :
  (0 <= count)%Z ->
  let out := generate_list text count in
  JSON_parse again = POk (JArr (map JStr out)) [] ->
  jsonLike (trim again) = trim again ->
  Forall (fun s => trim s = s) out ->
  generate_list again count = out.
Proof.
  intros Hc out Hp Hq Ht. apply JSON_parse_trim in Hp.
  pose proof (normalizeToList_text_nonempty text) as Hne.
  assert (Eo : out = resize (normalizeToList_text text) count) by reflexivity.
  clearbody out.
  destruct (@resize_shape _ _ Hne Hc) as (Hlen & _). rewrite <- Eo in Hlen.
  unfold generate_list.
  rewrite (@normalize_json_array _ _ Hp Hq), (@map_trim_id _ Ht).
  destruct (@resize_entries _ _ Hne Hc) as [Hall|Hnil]; rewrite <- Eo in *.
  - rewrite (@filter_nonEmpty_id _ Hall).
    destruct (@resize_shape _ _ Hall Hc) as (_ & Hcut & _).
    rewrite Hcut by lia. apply firstn_all2. lia.
  - rewrite Hnil, filter_nonEmpty_repeat. now apply resize_shape.
Qed.

End ListRoundTrip.

(** * Further properties

    Properties of the code beside the claims: the table read from the model,
    the lists a model writes, the values of the row fallback, the requests
    the handlers send and the inputs they were not written for. *)

(** ** More on replacement and trimming *)

(** A pattern that matches at no position of a text leaves it as it is. *)
Lemma replace_go_stays (re : regex) (t : list rpiece) (s : jstr) :
  forall bol,
  (forall pre s', s = pre ++ s' -> match_here re (bol && isEmpty pre) s' = None) ->
  replace_go re t bol 0 s = s.
Proof.
  induction s as [|c r IH]; intros bol H.
  - simpl. generalize (H [] [] eq_refl). simpl. rewrite andb_true_r.
    intros E. rewrite E. reflexivity.
  - generalize (H [] (c :: r) eq_refl). simpl isEmpty. rewrite andb_true_r. intros E.
    cbn [replace_go]. rewrite E. f_equal. apply IH.
    intros pre s' Hs. simpl.
    generalize (H (c :: pre) s'). simpl. rewrite andb_false_r.
    intros H'. apply H'. rewrite Hs. reflexivity.
Qed.

Lemma replace_first_go_stays (re : regex) (t : list rpiece) (s : jstr) :
  forall bol,
  (forall pre s', s = pre ++ s' -> match_here re (bol && isEmpty pre) s' = None) ->
  replace_first_go re t bol s = s.
Proof.
  induction s as [|c r IH]; intros bol H.
  - simpl. generalize (H [] [] eq_refl). simpl. rewrite andb_true_r.
    intros E. rewrite E. reflexivity.
  - generalize (H [] (c :: r) eq_refl). simpl isEmpty. rewrite andb_true_r. intros E.
    cbn [replace_first_go]. rewrite E. f_equal. apply IH.
    intros pre s' Hs. simpl.
    generalize (H (c :: pre) s'). simpl. rewrite andb_false_r.
    intros H'. apply H'. rewrite Hs. reflexivity.
Qed.

(** A greedy run whose continuation always accepts takes the whole run. *)
Lemma star_greedy_total (R : Type) (k : cclass) (f : bool -> jstr -> R) (s : jstr) :
  forall bol, exists run rest b,
    s = run ++ rest
    /\ Forall (fun c => class_ok k c = true) run
    /\ head_fails (class_ok k) rest
    /\ (run = [] -> b = bol)
    /\ star_greedy k bol s (fun b r => Some (f b r)) = Some (f b rest).
Proof.
  induction s as [|c r IH]; intros bol.
  - exists [], [], bol. simpl. repeat split; auto.
  - simpl. destruct (class_ok k c) eqn:Ec.
    + destruct (IH false) as (run & rest & b & E & Hrun & Hrest & _ & Hs).
      exists (c :: run), rest, b. rewrite Hs. simpl.
      repeat split; auto.
      * rewrite E. reflexivity.
      * discriminate.
    + exists [], (c :: r), bol. simpl. repeat split; auto.
Qed.

(** Replacing the runs of a class by nothing is filtering the class out. *)
Lemma replace_go_plus_filter (k : cclass) (s : jstr) :
  forall bol skip,
  Forall (fun c => class_ok k c = true) (firstn skip s) ->
  replace_go (RPlus k) [] bol skip s = filter (fun c => negb (class_ok k c)) s.
Proof.
  induction s as [|c r IH]; intros bol skip H.
  - destruct skip; reflexivity.
  - destruct skip as [|n].
    + cbn [replace_go]. unfold match_here. cbn [rmatch].
      destruct (class_ok k c) eqn:Ec.
      * destruct (star_greedy_total k (fun (_ : bool) (r' : jstr) => (r', ([] : caps))) r false)
          as (run & rest & b & E & Hrun & _ & _ & Hs).
        rewrite Hs. cbn [expand flat_map app].
        replace (length (c :: r) - length rest) with (S (length run))
          by (change (length (c :: r)) with (S (length r)); rewrite E, length_app; lia).
        simpl filter. rewrite Ec. simpl negb. cbv iota.
        apply IH. rewrite E, firstn_app, Nat.sub_diag, firstn_all. simpl.
        rewrite app_nil_r. exact Hrun.
      * simpl filter. rewrite Ec. simpl. f_equal. apply IH. constructor.
    + simpl firstn in H. inversion H as [|? ? Hc Hr]; subst.
      cbn [replace_go]. simpl filter. rewrite Hc. simpl. apply IH. exact Hr.
Qed.

Lemma replaceAll_plus_filter (k : cclass) (s : jstr) :
  replaceAll (RPlus k) [] s = filter (fun c => negb (class_ok k c)) s.
Proof. apply replace_go_plus_filter. constructor. Qed.

Lemma trimStart_id (s : jstr) : head_fails isWhiteSpace s -> trimStart s = s.
Proof. destruct s as [|c r]; simpl; auto. intros E. rewrite E. reflexivity. Qed.

Lemma trimEnd_ws_app (x w : jstr) :
  Forall (fun c => isWhiteSpace c = true) w -> trimEnd (x ++ w) = trimEnd x.
Proof.
  intros H. unfold trimEnd. rewrite rev_app_distr.
  rewrite trimStart_ws_app; [reflexivity |].
  apply Forall_rev. exact H.
Qed.

Lemma trimEnd_id (s : jstr) : head_fails isWhiteSpace (rev s) -> trimEnd s = s.
Proof.
  intros H. unfold trimEnd. rewrite trimStart_id by exact H. apply rev_involutive.
Qed.

Lemma tight_trim (s : jstr) : tight s -> trim s = s.
Proof.
  intros [H1 H2]. unfold trim. rewrite trimStart_id by exact H1.
  apply trimEnd_id. exact H2.
Qed.

(** Whitespace around a tight text is what [trim] takes away. *)
Lemma trim_around (w1 core w2 : jstr) :
  Forall (fun c => isWhiteSpace c = true) w1 ->
  Forall (fun c => isWhiteSpace c = true) w2 ->
  tight core -> trim (w1 ++ core ++ w2) = core.
Proof.
  intros H1 H2 [Ha Hb]. unfold trim.
  rewrite trimStart_ws_app by exact H1.
  destruct core as [|c r].
  - simpl. rewrite <- (app_nil_r w2).
    rewrite trimStart_ws_app by exact H2. reflexivity.
  - rewrite trimStart_id by exact Ha.
    rewrite trimEnd_ws_app by exact H2. apply trimEnd_id. exact Hb.
Qed.

Lemma trimStart_last (s : jstr) : head_fails isWhiteSpace (trimStart s).
Proof.
  induction s as [|c r IH]; simpl; auto.
  destruct (isWhiteSpace c) eqn:E; simpl; auto.
Qed.

Lemma trimStart_rev_tail (s : jstr) :
  head_fails isWhiteSpace (rev s) -> head_fails isWhiteSpace (rev (trimStart s)).
Proof.
  induction s as [|c r IH]; simpl; auto.
  intros H. destruct (isWhiteSpace c) eqn:E.
  - apply IH. destruct (rev r) as [|x y] eqn:Er; simpl; auto.
  - simpl. exact H.
Qed.

Lemma tight_of_trim (s : jstr) : tight (trim s).
Proof.
  unfold tight, trim, trimEnd. split.
  - apply trimStart_rev_tail. rewrite rev_involutive. apply trimStart_last.
  - rewrite rev_involutive. apply trimStart_last.
Qed.

Lemma trim_idem (s : jstr) : trim (trim s) = trim s.
Proof. apply tight_trim, tight_of_trim. Qed.

Lemma tight_fix (s : jstr) : trim s = s -> tight s.
Proof. intros E. rewrite <- E. apply tight_of_trim. Qed.


(** ** The address of the model endpoint *)

Lemma end_slash_inside (b : bool) (c x : cu) (r : jstr) :
  match_here re_end_slash b (c :: x :: r) = None.
Proof.
  unfold match_here, re_end_slash. cbn.
  destruct (cu_eqb c 47); reflexivity.
Qed.

Lemma end_slash_removed (base : jstr) :
  forall b, replace_first_go re_end_slash [] b (base ++ lit "/") = base.
Proof.
  induction base as [|c r IH]; intros b.
  - destruct b; reflexivity.
  - change ((c :: r) ++ lit "/") with (c :: (r ++ lit "/")).
    cbn [replace_first_go].
    assert (E : match_here re_end_slash b (c :: (r ++ lit "/")) = None).
    { destruct r as [|x r']; [| apply end_slash_inside].
      unfold match_here, re_end_slash. cbn.
      destruct (cu_eqb c 47); reflexivity. }
    rewrite E. f_equal. apply IH.
Qed.

Lemma end_slash_absent (base : jstr) :
  endsWith (lit "/") base = false ->
  forall b, replace_first_go re_end_slash [] b base = base.
Proof.
  intros H b. apply replace_first_go_stays. intros pre s' E.
  destruct s' as [|c [|x r]].
  - reflexivity.
  - destruct (cu_eqb c 47) eqn:Ec.
    + exfalso. apply N.eqb_eq in Ec. subst c.
      unfold endsWith in H. rewrite E, rev_app_distr in H. simpl in H. discriminate.
    + unfold match_here, re_end_slash. cbn. rewrite Ec. reflexivity.
  - apply end_slash_inside.
Qed.

(** X17: one slash at the end of the endpoint is dropped, so that
    an endpoint written with or without it gives the same address; no other
    character of the endpoint is touched. *)
Theorem X17_genUrl_trailing_slash (base : jstr) :
  genUrl (base ++ lit "/") = base ++ lit "/ml/v1/text/chat?version=2023-05-29"
  /\ (endsWith (lit "/") base = false ->
      genUrl base = base ++ lit "/ml/v1/text/chat?version=2023-05-29").
Proof.
  unfold genUrl, replaceFirst. split.
  - rewrite end_slash_removed. reflexivity.
  - intros H. rewrite end_slash_absent by exact H. reflexivity.
Qed.

(** ** The code fence *)

Lemma star_greedy_run (R : Type) (k : cclass) (run rest : jstr)
    (cont : bool -> jstr -> option R) (v : R) :
  Forall (fun c => class_ok k c = true) run ->
  head_fails (class_ok k) rest ->
  (forall b, cont b rest = Some v) ->
  forall bol, star_greedy k bol (run ++ rest) cont = Some v.
Proof.
  intros Hrun Hrest Hc. induction Hrun as [|c run Hcl _ IH]; intros bol.
  - simpl. destruct rest as [|c r]; simpl; [apply Hc |].
    simpl in Hrest. rewrite Hrest. apply Hc.
  - simpl. rewrite Hcl. rewrite IH. reflexivity.
Qed.

Lemma replace_go_skip (re : regex) (t : list rpiece) (pre s : jstr) :
  forall bol,
  replace_go re t bol (length pre) (pre ++ s)
  = replace_go re t (bol && isEmpty pre) 0 s.
Proof.
  induction pre as [|c r IH]; intros bol.
  - simpl length. simpl app. simpl isEmpty. rewrite andb_true_r. reflexivity.
  - simpl length. change ((c :: r) ++ s) with (c :: (r ++ s)).
    cbn [replace_go]. rewrite IH. simpl. rewrite andb_false_r. reflexivity.
Qed.

(** Where the fence pattern matches: on three backticks, and past the start
    of the text only on the three backticks that end it. *)
Lemma fence_match (b : bool) (s : jstr) (m : jstr * caps) :
  match_here re_fence b s = Some m ->
  startsWith (lit "```") s = true /\ (b = false -> s = lit "```").
Proof.
  destruct s as [|x [|y [|z r]]].
  - unfold match_here, re_fence. cbn. destruct b; discriminate.
  - unfold match_here, re_fence. cbn.
    destruct b, (cu_eqb x 96); discriminate.
  - unfold match_here, re_fence. cbn.
    destruct b, (cu_eqb x 96), (cu_eqb y 96); discriminate.
  - intros H.
    assert (K : (cu_eqb x 96 = true /\ cu_eqb y 96 = true /\ cu_eqb z 96 = true)
                /\ (b = false -> r = [])).
    { unfold match_here, re_fence in H. cbn in H.
      destruct (cu_eqb x 96), (cu_eqb y 96), (cu_eqb z 96);
        try (destruct b; discriminate).
      split; [auto |]. intros ->.
      destruct r; [reflexivity | cbn in H; discriminate]. }
    destruct K as [(Ex & Ey & Ez) Hr].
    apply N.eqb_eq in Ex, Ey, Ez. subst x y z.
    split; [reflexivity |]. intros Hb. rewrite (Hr Hb). reflexivity.
Qed.

Lemma fence_absent (t : jstr) :
  startsWith (lit "```") t = false -> endsWith (lit "```") t = false ->
  replaceAll re_fence [] t = t.
Proof.
  intros Hs He. apply replace_go_stays. intros pre s' E.
  destruct (match_here re_fence (true && isEmpty pre) s') as [m|] eqn:Em; [| reflexivity].
  exfalso. apply fence_match in Em. destruct Em as [H1 H2].
  destruct pre as [|c pre].
  - simpl in E. subst s'. congruence.
  - simpl in H2. specialize (H2 eq_refl). subst s'.
    unfold endsWith in He. rewrite E, rev_app_distr in He.
    simpl in He. discriminate.
Qed.

Lemma fence_close (body : jstr) :
  replace_go re_fence [] false 0 (body ++ lit "```") = body.
Proof.
  induction body as [|c r IH]; [reflexivity |].
  change ((c :: r) ++ lit "```") with (c :: (r ++ lit "```")).
  cbn [replace_go].
  destruct (match_here re_fence false (c :: r ++ lit "```")) as [m|] eqn:Em.
  - exfalso. apply fence_match in Em. destruct Em as [_ H].
    specialize (H eq_refl).
    apply (f_equal (@length N)) in H. simpl in H. rewrite length_app in H.
    simpl in H. lia.
  - f_equal. exact IH.
Qed.

Lemma fence_open (tag rest : jstr) :
  Forall (fun c => isLetter c = true) tag ->
  match_here re_fence true (lit "```" ++ tag ++ 10%N :: rest) = Some (rest, []).
Proof.
  intros H. unfold match_here, re_fence. cbn.
  rewrite star_greedy_run with (v := (rest, @nil (nat * jstr))); [reflexivity | | |].
  - eapply Forall_impl; [| exact H]. intros c Hc. simpl.
    unfold isLetter in Hc. rewrite orb_false_r.
    destruct (N.leb 97 c && N.leb c 122); simpl in *; auto.
  - reflexivity.
  - intros b. reflexivity.
Qed.

Lemma fence_taken (tag body : jstr) :
  Forall (fun c => isLetter c = true) tag ->
  replaceAll re_fence [] (fenced tag body) = body.
Proof.
  intros H. unfold replaceAll.
  set (rest := body ++ lit "```").
  set (pre := [96%N; 96%N] ++ tag ++ [10%N]).
  assert (E : fenced tag body = 96%N :: (pre ++ rest)).
  { unfold fenced, pre, rest. simpl. rewrite <- !app_assoc. reflexivity. }
  rewrite E. cbn [replace_go].
  assert (Em : match_here re_fence true (96%N :: pre ++ rest) = Some (rest, [])).
  { unfold pre. simpl. rewrite <- app_assoc. apply fence_open. exact H. }
  rewrite Em. cbn [expand flat_map app].
  replace (length (96%N :: pre ++ rest) - length rest) with (S (length pre))
    by (change (length (96%N :: pre ++ rest)) with (S (length (pre ++ rest)));
        rewrite length_app; lia).
  rewrite replace_go_skip. unfold pre at 1. simpl isEmpty. simpl andb.
  apply fence_close.
Qed.

Lemma fenced_tight (tag body : jstr) : tight (fenced tag body).
Proof.
  unfold tight, fenced. split; [reflexivity |].
  rewrite !rev_app_distr. reflexivity.
Qed.

Lemma cleanText_fenced (tag body : jstr) :
  Forall (fun c => isLetter c = true) tag ->
  cleanText (fenced tag body) = trim body.
Proof.
  intros H. unfold cleanText.
  rewrite (tight_trim (fenced_tight tag body)).
  rewrite fence_taken by exact H. reflexivity.
Qed.

Lemma cleanText_plain (body : jstr) :
  startsWith (lit "```") (trim body) = false ->
  endsWith (lit "```") (trim body) = false ->
  cleanText body = trim body.
Proof.
  intros Hs He. unfold cleanText. rewrite fence_absent by assumption.
  apply trim_idem.
Qed.

Section Fence.
Context {P : Platform}.

(** X4: a code fence around the text of the model, with any tag of
    letters, is taken away before the text is parsed; a text that has no
    fence of its own gives the same table with the fence as without. *)
Theorem X4_fence_is_transparent (tag body prompt : jstr) (rows cols : Z) :
  Forall (fun c => isLetter c = true) tag ->
  cleanText (fenced tag body) = trim body
  /\ (startsWith (lit "```") (trim body) = false ->
      endsWith (lit "```") (trim body) = false ->
      structured_parse (JStr (fenced tag body)) rows cols
      = structured_parse (JStr body) rows cols
      /\ table_of_text (JStr (fenced tag body)) prompt rows cols
         = table_of_text (JStr body) prompt rows cols).
Proof.
  intros H. split; [apply cleanText_fenced; exact H |].
  intros Hs He.
  assert (E : structured_parse (JStr (fenced tag body)) rows cols
              = structured_parse (JStr body) rows cols).
  { unfold structured_parse, parse_object.
    rewrite (cleanText_fenced body H), (cleanText_plain body Hs He). reflexivity. }
  split; [exact E |].
  unfold table_of_text. rewrite E. reflexivity.
Qed.

(** X9: the user name made from a name is the first twelve
    lower-case ASCII letters of the lower-cased name, whatever else the name
    holds. *)
Theorem X9_username_letters (name : jstr) :
  usernameFrom name = firstn 12 (filter isLower (toLowerCase name))
  /\ length (usernameFrom name) <= 12
  /\ Forall (fun c => isLower c = true) (usernameFrom name).
Proof.
  assert (E : usernameFrom name = firstn 12 (filter isLower (toLowerCase name))).
  { unfold usernameFrom, re_nonlower. rewrite replaceAll_plus_filter.
    rewrite slice0_nonneg by lia. change (Z.to_nat 12) with 12. f_equal.
    apply filter_ext. intros c. simpl. unfold isLower.
    rewrite orb_false_r, negb_involutive. reflexivity. }
  split; [exact E |]. rewrite E. split.
  - apply firstn_le_length.
  - apply Forall_firstn_keep. apply Forall_forall. intros c Hc.
    apply filter_In in Hc. apply Hc.
Qed.

End Fence.

(** ** A table of strings from the model *)

Section Conforming.
Context {P : Platform}.

Lemma mapM_ToString_strings (L : list jstr) : mapM ToString (map JStr L) = Ok L.
Proof.
  induction L as [|x L IH]; [reflexivity |].
  simpl. simpl in IH. rewrite IH. reflexivity.
Qed.

Lemma mapM_rows_strings (R : list (list jstr)) :
  mapM (fun r => match r with
                 | JArr cells => mapM ToString cells
                 | _ => Ok []
                 end) (map (fun r => JArr (map JStr r)) R) = Ok R.
Proof.
  induction R as [|r R IH]; [reflexivity |].
  cbn [map mapM]. rewrite mapM_ToString_strings. cbn [bind].
  rewrite IH. reflexivity.
Qed.

Lemma fit_row_fit (cols : Z) (r : list jstr) :
  (0 <= cols <= 4294967295)%Z -> fit_row cols r = Ok (fit (Z.to_nat cols) r).
Proof.
  intros Hc. unfold fit_row, fit.
  destruct (cols <? Z.of_nat (length r))%Z eqn:E.
  - apply Z.ltb_lt in E. rewrite slice0_nonneg by lia.
    replace (Z.to_nat cols - length r) with 0 by lia.
    simpl. rewrite app_nil_r. reflexivity.
  - apply Z.ltb_ge in E. unfold Array_new.
    replace ((cols - Z.of_nat (length r) <? 0)%Z) with false
      by (symmetry; apply Z.ltb_ge; lia).
    replace ((4294967295 <? cols - Z.of_nat (length r))%Z) with false
      by (symmetry; apply Z.ltb_ge; lia).
    simpl. rewrite firstn_all2 by lia.
    replace (Z.to_nat (cols - Z.of_nat (length r))) with (Z.to_nat cols - length r) by lia.
    reflexivity.
Qed.

Lemma mapM_fit (cols : Z) (R : list (list jstr)) :
  (0 <= cols <= 4294967295)%Z ->
  mapM (fit_row cols) R = Ok (map (fit (Z.to_nat cols)) R).
Proof.
  intros Hc. induction R as [|r R IH]; [reflexivity |].
  cbn [map mapM]. rewrite fit_row_fit by exact Hc. cbn [bind]. rewrite IH. reflexivity.
Qed.

Lemma fit_length (cols : nat) (r : list jstr) : length (fit cols r) = cols.
Proof.
  unfold fit. rewrite length_app, length_firstn, repeat_length. lia.
Qed.

Lemma get_array_truthy (obj : jsval) (k : jstr) (l : list jsval) :
  get obj k = Ok (JArr l) -> truthy obj = true.
Proof. destruct obj; simpl; intros H; try discriminate; reflexivity. Qed.

(** What the structured parse makes of an object whose [headers] are
    strings and whose [rows] are rows of strings. *)
Lemma structured_parse_strings (text : jstr) (obj : jsval)
    (H : list jstr) (R F : list (list jstr)) (rows cols : Z) :
  JSON_parse (cleanText text) = POk obj [] ->
  get obj (lit "headers") = Ok (JArr (map JStr H)) ->
  get obj (lit "rows") = Ok (rows_value R) ->
  mapM (fit_row cols) R = Ok F ->
  structured_parse (JStr text) rows cols
  = (slice0 (filter header_ok H) cols,
     slice0 (filter (fun row => negb (Nat.eqb (length row) 0)) F) rows,
     Normal).
Proof.
  intros Hp Hh Hr Hf. unfold structured_parse, parse_object.
  rewrite Hp. rewrite (get_array_truthy _ _ Hh). rewrite Hh, Hr.
  unfold rows_value, clean_headers, clean_rows.
  rewrite mapM_ToString_strings. cbn [bind].
  rewrite mapM_rows_strings. cbn [bind].
  rewrite Hf. cbn [bind].
  reflexivity.
Qed.

Lemma mapM_fit_exact (cols : nat) (R : list (list jstr)) :
  Forall (fun r => length r = cols) R ->
  mapM (fit_row (Z.of_nat cols)) R = Ok R.
Proof.
  intros HR. induction HR as [|r R Hr _ IH]; [reflexivity |].
  cbn [mapM]. unfold fit_row at 1. rewrite Hr, Z.ltb_irrefl, Z.sub_diag.
  cbn [Array_new Z.ltb Z.compare orb bind Z.to_nat repeat].
  rewrite app_nil_r, IH. reflexivity.
Qed.

Lemma filter_width (cols : nat) (L : list (list jstr)) :
  0 < cols -> Forall (fun row => length row = cols) L ->
  filter (fun row => negb (Nat.eqb (length row) 0)) L = L.
Proof.
  intros Hc HL. induction HL as [|r L Hr _ IH]; [reflexivity |].
  simpl. rewrite Hr. destruct cols; [lia |]. simpl. rewrite IH. reflexivity.
Qed.

Lemma filter_width0 (L : list (list jstr)) :
  Forall (fun row => length row = 0) L ->
  filter (fun row => negb (Nat.eqb (length row) 0)) L = [].
Proof.
  intros HL. induction HL as [|r L Hr _ IH]; [reflexivity |].
  simpl. rewrite Hr. simpl. exact IH.
Qed.

Lemma filter_all_ok (H : list jstr) :
  Forall (fun x => header_ok x = true) H -> filter header_ok H = H.
Proof.
  intros HH. induction HH as [|x H Hx _ IH]; [reflexivity |].
  simpl. rewrite Hx, IH. reflexivity.
Qed.

(** Rows of no columns: the row fallback builds as many empty rows. *)
Lemma synth_rows_zero (headers : list jstr) (k : nat) :
  forall (r : Z) (n : nat), fst (synth_rows headers 0 k r n) = repeat [] k.
Proof.
  induction k as [|k IH]; intros r n; [reflexivity |].
  rewrite synth_rows_S.
  destruct (randomName n) as [name n0].
  change (Z.to_nat 0) with 0. cbn [synth_cols ret].
  specialize (IH (r + 1)%Z n0).
  destruct (synth_rows headers 0 k (r + 1) n0) as [more n2].
  simpl in *. rewrite IH. reflexivity.
Qed.

Lemma width0_repeat (A : Type) (R : list (list A)) :
  Forall (fun r => length r = 0) R -> R = repeat [] (length R).
Proof.
  intros HR. induction HR as [|r R Hr _ IH]; [reflexivity |].
  simpl. rewrite <- IH. destruct r; [reflexivity | discriminate].
Qed.

(** X1: a model text that parses (after the fence is
    removed) to an object whose [headers] are exactly [cols] acceptable
    strings and whose [rows] are exactly [rows] rows of exactly [cols]
    strings comes back as it is: same headers, same cells, nothing
    synthesized.  (The rows are an array, so their number is an array
    length.) *)
Theorem X1_conforming_table_unchanged (text : jstr) (obj : jsval)
    (H : list jstr) (R : list (list jstr)) (prompt : jstr) :
  JSON_parse (cleanText text) = POk obj [] ->
  get obj (lit "headers") = Ok (JArr (map JStr H)) ->
  get obj (lit "rows") = Ok (rows_value R) ->
  Forall (fun x => header_ok x = true) H ->
  Forall (fun r => length r = length H) R ->
  (Z.of_nat (length R) <= 4294967295)%Z ->
  table_of_text (JStr text) prompt (Z.of_nat (length R)) (Z.of_nat (length H))
  = Ok {| tbl_headers := H; tbl_rows := map (map Some) R |}.
Proof.
  intros Hp Hh Hr Hok Hw Hlen. unfold table_of_text.
  rewrite (@structured_parse_strings text obj H R R (Z.of_nat (length R))
             (Z.of_nat (length H)) Hp Hh Hr (mapM_fit_exact Hw)).
  rewrite filter_all_ok by exact Hok.
  rewrite !slice0_nonneg by lia. rewrite !Nat2Z.id.
  rewrite firstn_all. rewrite Z.eqb_refl. cbn [negb].
  destruct (length H) as [|c] eqn:EH.
  - rewrite filter_width0 by exact Hw. simpl firstn. simpl length.
    destruct (length R) as [|k] eqn:ER.
    + simpl. destruct R; [reflexivity | discriminate].
    + replace (negb (Z.of_nat 0 =? Z.of_nat (S k))%Z) with true
        by (symmetry; apply negb_true_iff, Z.eqb_neq; lia).
      rewrite fallback_rows_ok by exact Hlen. cbn [bind].
      change (Z.of_nat 0) with 0%Z.
      rewrite synth_rows_zero. rewrite Nat2Z.id.
      rewrite (width0_repeat Hw), ER, map_repeat. reflexivity.
  - rewrite filter_width with (cols := S c) by (exact Hw || lia).
    rewrite firstn_all. rewrite Z.eqb_refl. reflexivity.
Qed.

(** X2: with cols from 1 to 4294967295 and rows from 0 to 4294967295 (the
    greatest array length), of the acceptable headers of the model the
    first [cols] are kept when there are that many, and none of them when
    there are fewer; of its rows, each cut or filled to [cols] cells, the
    first [rows] are kept when there are that many, and none of them when
    there are fewer: the whole body is synthesized then. *)
Theorem X2_table_kept_or_replaced (text : jstr) (obj : jsval)
    (H : list jstr) (R : list (list jstr)) (prompt : jstr) (rows cols : Z) :
  JSON_parse (cleanText text) = POk obj [] ->
  get obj (lit "headers") = Ok (JArr (map JStr H)) ->
  get obj (lit "rows") = Ok (rows_value R) ->
  (0 <= rows <= 4294967295)%Z -> (0 < cols <= 4294967295)%Z ->
  exists t,
    table_of_text (JStr text) prompt rows cols = Ok t
    /\ tbl_headers t
       = (if (cols <=? Z.of_nat (length (filter header_ok H)))%Z
          then firstn (Z.to_nat cols) (filter header_ok H)
          else fallback_headers prompt cols)
    /\ Ok (tbl_rows t)
       = (if (rows <=? Z.of_nat (length R))%Z
          then Ok (map (map Some) (firstn (Z.to_nat rows) (map (fit (Z.to_nat cols)) R)))
          else fallback_rows (tbl_headers t) rows cols).
Proof.
  intros Hp Hh Hr Hrows Hc. unfold table_of_text.
  rewrite (@structured_parse_strings text obj H R (map (fit (Z.to_nat cols)) R)
             rows cols Hp Hh Hr) by (apply mapM_fit; lia).
  rewrite filter_width with (cols := Z.to_nat cols).
  2: lia.
  2: { apply Forall_forall. intros r Hin. apply in_map_iff in Hin.
       destruct Hin as (r0 & <- & _). apply fit_length. }
  rewrite !slice0_nonneg by lia.
  rewrite !length_firstn, length_map.
  assert (E1 : negb (Z.of_nat (Init.Nat.min (Z.to_nat cols) (length (filter header_ok H))) =? cols)%Z
               = negb (cols <=? Z.of_nat (length (filter header_ok H)))%Z).
  { f_equal. destruct (cols <=? Z.of_nat (length (filter header_ok H)))%Z eqn:E.
    - apply Z.leb_le in E. apply Z.eqb_eq. lia.
    - apply Z.leb_gt in E. apply Z.eqb_neq. lia. }
  assert (E2 : negb (Z.of_nat (Init.Nat.min (Z.to_nat rows) (length R)) =? rows)%Z
               = negb (rows <=? Z.of_nat (length R))%Z).
  { f_equal. destruct (rows <=? Z.of_nat (length R))%Z eqn:E.
    - apply Z.leb_le in E. apply Z.eqb_eq. lia.
    - apply Z.leb_gt in E. apply Z.eqb_neq. lia. }
  rewrite E1, E2.
  destruct (cols <=? Z.of_nat (length (filter header_ok H)))%Z,
           (rows <=? Z.of_nat (length R))%Z; cbn [negb bind];
    rewrite ?fallback_rows_ok by lia; cbn [bind];
    eexists; (split; [reflexivity |]); cbn [tbl_headers tbl_rows];
    rewrite ?fallback_rows_ok by lia; split; reflexivity.
Qed.

End Conforming.

(** ** The rows of the model are all kept *)

Lemma mapM_length (A B : Type) (f : A -> result B) (l : list A) :
  forall l', mapM f l = Ok l' -> length l' = length l.
Proof.
  induction l as [|x l IH]; intros l' H.
  - injection H as <-. reflexivity.
  - cbn [mapM] in H. destruct (f x) as [y|]; [| discriminate]. cbn [bind] in H.
    destruct (mapM f l) as [ys|]; [| discriminate]. cbn [bind] in H.
    injection H as <-. simpl. f_equal. apply IH. reflexivity.
Qed.

Lemma mapM_nth (A B : Type) (f : A -> result B) (l : list A) :
  forall l' i x, mapM f l = Ok l' -> nth_error l i = Some x ->
  exists y, f x = Ok y /\ nth_error l' i = Some y.
Proof.
  induction l as [|a l IH]; intros l' i x H Hi.
  - destruct i; discriminate.
  - cbn [mapM] in H. destruct (f a) as [y|] eqn:Ey; [| discriminate]. cbn [bind] in H.
    destruct (mapM f l) as [ys|]; [| discriminate]. cbn [bind] in H.
    injection H as <-. destruct i as [|i].
    + injection Hi as <-. exists y. split; [exact Ey | reflexivity].
    + simpl in Hi. destruct (IH ys i x eq_refl Hi) as (z & Hz & Hn).
      exists z. split; [exact Hz | exact Hn].
Qed.

Section Kept.
Context {P : Platform}.

(** X3: when the rows of the model are read without an
    exception, none of them is dropped: with at least one column the table
    body has as many rows as the model gave, up to [rows], and a row that is
    no array stands as a row of empty cells. *)
Theorem X3_model_rows_all_kept (rs : list jsval) (rows cols : Z) (b : list (list jstr)) :
  clean_rows rs rows cols = Ok b -> (0 < cols)%Z -> (0 <= rows)%Z ->
  length b = Nat.min (Z.to_nat rows) (length rs)
  /\ forall i r, i < Z.to_nat rows -> nth_error rs i = Some r -> isArray r = false ->
       nth_error b i = Some (repeat [] (Z.to_nat cols)).
Proof.
  intros H Hc Hr. unfold clean_rows in H.
  destruct (mapM _ rs) as [strs|] eqn:Es; [| discriminate]. cbn [bind] in H.
  destruct (mapM (fit_row cols) strs) as [fitted|] eqn:Ef; [| discriminate].
  cbn [bind] in H. injection H as <-.
  assert (Hw : Forall (fun row => length row = Z.to_nat cols) fitted).
  { eapply mapM_Forall; [| exact Ef]. intros x y Hxy.
    eapply fit_row_length; [| exact Hxy]. lia. }
  rewrite filter_width with (cols := Z.to_nat cols) by (lia || exact Hw).
  rewrite slice0_nonneg by exact Hr.
  assert (El : length fitted = length rs).
  { rewrite (mapM_length _ _ Ef). apply (mapM_length _ _ Es). }
  split.
  - rewrite length_firstn, El. reflexivity.
  - intros i r Hi Hn Ha.
    destruct (mapM_nth _ _ i Es Hn) as (s & Hs & Hsn).
    assert (s = []) by (destruct r; try (injection Hs as <-; reflexivity); discriminate).
    subst s.
    destruct (mapM_nth _ _ i Ef Hsn) as (y & Hy & Hyn).
    rewrite nth_error_firstn.
    replace (i <? Z.to_nat rows) with true by (symmetry; apply Nat.ltb_lt; exact Hi).
    rewrite Hyn. f_equal.
    unfold fit_row in Hy. simpl length in Hy.
    replace (cols <? Z.of_nat 0)%Z with false in Hy by (symmetry; apply Z.ltb_ge; lia).
    destruct (Array_new (cols - Z.of_nat 0)) as [n|] eqn:En; [| discriminate].
    cbn [bind] in Hy. injection Hy as <-.
    unfold Array_new in En.
    destruct ((cols - Z.of_nat 0 <? 0) || (4294967295 <? cols - Z.of_nat 0))%Z;
      [discriminate |].
    injection En as <-. simpl. f_equal. lia.
Qed.

End Kept.

(** ** Labels and digits *)

Lemma uint_digits (u : Decimal.uint) :
  Forall (fun c => isDigit c = true) (lit (NilEmpty.string_of_uint u)).
Proof. induction u; simpl; constructor; auto. Qed.

(** The decimal print of a natural number is made of digits. *)
Lemma dec_digits (z : Z) : (0 <= z)%Z -> Forall (fun c => isDigit c = true) (dec z).
Proof.
  intros Hz. unfold dec. destruct z as [|p|p]; [repeat constructor | | lia].
  simpl. destruct (Pos.to_uint p) eqn:E; try apply uint_digits.
  repeat constructor.
Qed.

Lemma startsWith_In (c : cu) (p : jstr) :
  forall s, startsWith p s = true -> In c p -> In c s.
Proof.
  induction p as [|x p IH]; intros s H Hin; [destruct Hin |].
  destruct s as [|y s]; [discriminate |].
  simpl in H. apply andb_prop in H. destruct H as [Hxy Hp].
  apply N.eqb_eq in Hxy. subst y.
  destruct Hin as [-> | Hin]; [left; reflexivity | right; apply IH; assumption].
Qed.

(** A text that lacks a character of [p] does not include [p]. *)
Lemma includes_absent (c : cu) (p s : jstr) :
  In c p -> ~ In c s -> includes p s = false.
Proof.
  intros Hp. induction s as [|y s IH]; intros Hs.
  - simpl. destruct p; [destruct Hp | reflexivity].
  - cbn [includes]. apply orb_false_iff. split.
    + destruct (startsWith p (y :: s)) eqn:E; [| reflexivity].
      exfalso. apply Hs. eapply startsWith_In; eassumption.
    + apply IH. intros H. apply Hs. right. exact H.
Qed.

Lemma trimStart_keeps (c : cu) (s : jstr) :
  In c s -> isWhiteSpace c = false -> In c (trimStart s).
Proof.
  intros Hin Hc. induction s as [|x s IH]; [destruct Hin |].
  simpl. destruct (isWhiteSpace x) eqn:E.
  - destruct Hin as [-> | Hin]; [congruence | apply IH; exact Hin].
  - exact Hin.
Qed.

Lemma trim_keeps (c : cu) (s : jstr) :
  In c s -> isWhiteSpace c = false -> In c (trim s).
Proof.
  intros Hin Hc. unfold trim, trimEnd.
  apply in_rev. rewrite rev_involutive.
  apply trimStart_keeps; [| exact Hc].
  apply in_rev. rewrite rev_involutive.
  apply trimStart_keeps; assumption.
Qed.

Lemma column_label_chars (n : nat) :
  Forall (fun c => label_char c = true) (column_label n).
Proof.
  unfold column_label. apply Forall_app. split.
  - repeat constructor.
  - eapply Forall_impl; [| apply dec_digits; lia].
    intros c Hc. unfold label_char. rewrite Hc. apply orb_true_r.
Qed.

Lemma column_label_ok (n : nat) : header_ok (column_label n) = true.
Proof.
  assert (Hch := column_label_chars n).
  assert (Habs : forall c, label_char c = false -> ~ In c (column_label n)).
  { intros c Hc Hin. rewrite Forall_forall in Hch. rewrite (Hch c Hin) in Hc.
    discriminate. }
  unfold header_ok.
  assert (E1 : nonEmpty (column_label n) = true) by reflexivity.
  assert (E2 : nonEmpty (trim (column_label n)) = true).
  { assert (Hin : In (ch "C") (trim (column_label n))).
    { apply trim_keeps; [left; reflexivity | reflexivity]. }
    destruct (trim (column_label n)); [destruct Hin | reflexivity]. }
  rewrite E1, E2.
  rewrite (@includes_absent (ch "[") (lit "[") (column_label n));
    [| left; reflexivity | apply Habs; reflexivity].
  rewrite (@includes_absent (ch "{") (lit "{") (column_label n));
    [| left; reflexivity | apply Habs; reflexivity].
  reflexivity.
Qed.

Lemma templates_ok (p : jstr) :
  Forall (fun h => header_ok h = true) (proposed_headers p).
Proof.
  unfold proposed_headers.
  repeat match goal with
         | |- context [if ?b then _ else _] => destruct b
         end;
    vm_compute; repeat constructor.
Qed.

Section Headers.
Context {P : Platform}.

Lemma fallback_headers_ok (prompt : jstr) (cols : Z) :
  Forall (fun h => header_ok h = true) (fallback_headers prompt cols).
Proof.
  unfold fallback_headers.
  destruct (cols <=? Z.of_nat (length (proposed_headers (toLowerCase prompt))))%Z.
  - apply Forall_slice0. apply templates_ok.
  - rewrite pad_headers_labels. apply Forall_app. split; [apply templates_ok |].
    apply Forall_forall. intros h Hin. apply in_map_iff in Hin.
    destruct Hin as (n & <- & _). apply column_label_ok.
Qed.

Lemma parsed_headers_ok (text : jsval) (rows cols : Z) :
  Forall (fun h => header_ok h = true) (fst (fst (structured_parse text rows cols))).
Proof.
  unfold structured_parse.
  destruct (parse_object text) as [obj|e]; [| constructor].
  destruct (truthy obj); [| constructor].
  destruct (get obj (lit "headers")) as [[| | | | |hs|]|]; try constructor.
  destruct (get obj (lit "rows")) as [[| | | | |rs|]|]; try constructor.
  destruct (clean_headers hs cols) as [headers|e] eqn:E; [| constructor].
  assert (Hh : Forall (fun h => header_ok h = true) headers).
  { unfold clean_headers in E. destruct (mapM ToString hs) as [strs|]; [| discriminate].
    simpl in E. injection E as <-. apply Forall_slice0.
    apply Forall_forall. intros h Hin. apply filter_In in Hin. apply Hin. }
  destruct (clean_rows rs rows cols); exact Hh.
Qed.

(** X5: whatever the model text, the prompt and the numbers of the
    request, no header of the table is blank and none contains an opening
    bracket or brace; and there is a table unless rows is above the greatest
    array length. *)
Theorem X5_headers_always_acceptable (text : jsval) (prompt : jstr) (rows cols : Z) :
  match table_of_text text prompt rows cols with
  | Ok t => Forall (fun h => header_ok h = true) (tbl_headers t)
  | Throw e => e = RangeError /\ (4294967295 < rows)%Z
  end.
Proof.
  destruct (table_of_text text prompt rows cols) as [t|e] eqn:Et;
    [| exact (table_of_text_throw _ _ _ _ Et)].
  revert Et. unfold table_of_text.
  assert (Hp := parsed_headers_ok text rows cols).
  destruct (structured_parse text rows cols) as [[parsedHeaders parsedRows] c].
  simpl in Hp.
  destruct (if negb (Z.of_nat (length parsedRows) =? rows)%Z
            then fallback_rows
                   (if negb (Z.of_nat (length parsedHeaders) =? cols)%Z
                    then fallback_headers prompt cols else parsedHeaders) rows cols
            else Ok (map (map Some) parsedRows)) as [b|]; cbn [bind]; [| discriminate].
  intros [= <-]. cbn [tbl_headers].
  destruct (negb (Z.of_nat (length parsedHeaders) =? cols)%Z).
  - apply fallback_headers_ok.
  - exact Hp.
Qed.

End Headers.

(** ** The table of generic labels *)

Lemma jstr_eqb_eq (a : jstr) : forall b, jstr_eqb a b = true -> a = b.
Proof.
  induction a as [|x a IH]; intros [|y b] H; try discriminate; [reflexivity |].
  simpl in H. apply andb_prop in H. destruct H as [Hxy Hab].
  apply N.eqb_eq in Hxy. subst y. f_equal. apply IH. exact Hab.
Qed.

Lemma low_label_chars (n : nat) :
  Forall (fun c => low_char c = true) (lit "column " ++ dec (Z.of_nat n)).
Proof.
  apply Forall_app. split.
  - repeat constructor.
  - eapply Forall_impl; [| apply dec_digits; lia].
    intros c Hc. unfold low_char. rewrite Hc. apply orb_true_r.
Qed.

Lemma low_label_lacks (n : nat) (kw : string) :
  existsb (fun c => negb (low_char c)) (lit kw) = true ->
  exists c, In c (lit kw) /\ ~ In c (lit "column " ++ dec (Z.of_nat n)).
Proof.
  intros H. apply existsb_exists in H. destruct H as (c & Hin & Hc).
  exists c. split; [exact Hin |]. intros Hl.
  assert (K := low_label_chars n). rewrite Forall_forall in K.
  rewrite (K c Hl) in Hc. discriminate.
Qed.

Lemma low_label_has (n : nat) (kw : string) :
  existsb (fun c => negb (low_char c)) (lit kw) = true ->
  has (lit "column " ++ dec (Z.of_nat n)) kw = false.
Proof.
  intros H. destruct (low_label_lacks n kw H) as (c & Hin & Hout).
  unfold has. eapply includes_absent; eassumption.
Qed.

Lemma low_label_eqs (n : nat) (kw : string) :
  existsb (fun c => negb (low_char c)) (lit kw) = true ->
  eqs (lit "column " ++ dec (Z.of_nat n)) kw = false.
Proof.
  intros H. destruct (low_label_lacks n kw H) as (c & Hin & Hout).
  unfold eqs. destruct (jstr_eqb _ (lit kw)) eqn:E; [| reflexivity].
  exfalso. apply jstr_eqb_eq in E. apply Hout. rewrite E. exact Hin.
Qed.

Lemma lower_digits (s : jstr) :
  Forall (fun c => isDigit c = true) s -> ascii_toLowerCase s = s.
Proof.
  intros H. unfold ascii_toLowerCase. induction H as [|c s Hc _ IH]; [reflexivity |].
  simpl. rewrite IH. f_equal.
  unfold isDigit in Hc. apply andb_prop in Hc. destruct Hc as [H1 H2].
  apply N.leb_le in H1, H2.
  destruct (N.leb 65 c) eqn:E; [| reflexivity].
  apply N.leb_le in E. lia.
Qed.

Section Generic.
Context {P : Platform}.

(** On ASCII text the lower-casing of the platform is the ASCII one. *)
Hypothesis lower_ascii :
  forall s, Forall (fun c => (c < 128)%N) s -> toLowerCase s = ascii_toLowerCase s.

Lemma lower_column_label (n : nat) :
  toLowerCase (column_label n) = lit "column " ++ dec (Z.of_nat n).
Proof.
  rewrite lower_ascii.
  - unfold column_label, ascii_toLowerCase. rewrite map_app.
    f_equal. apply lower_digits. apply dec_digits. lia.
  - eapply Forall_impl; [| apply column_label_chars].
    intros c Hc. unfold label_char in Hc. apply orb_prop in Hc.
    destruct Hc as [Hc | Hc].
    + apply existsb_exists in Hc. destruct Hc as (x & Hin & Hx).
      apply N.eqb_eq in Hx. subst x.
      simpl in Hin. repeat (destruct Hin as [<- | Hin]; [reflexivity |]).
      destruct Hin.
    + unfold isDigit in Hc. apply andb_prop in Hc. destruct Hc as [_ H2].
      apply N.leb_le in H2. lia.
Qed.

Lemma synth_cell_generic (name : jstr) (r c : Z) (n k : nat) :
  synth_cell name r c (lit "column " ++ dec (Z.of_nat n)) k
  = (Some (lit "Value " ++ dec (r + 1) ++ lit "-" ++ dec (c + 1)), k).
Proof.
  unfold synth_cell.
  rewrite !low_label_has by reflexivity.
  rewrite !low_label_eqs by reflexivity.
  reflexivity.
Qed.

Lemma header_at_generic (cols c0 : nat) :
  c0 < cols ->
  header_at (map column_label (seq 1 cols)) (Z.of_nat c0)
  = lit "column " ++ dec (Z.of_nat (S c0)).
Proof.
  intros Hc. unfold header_at, at_index.
  replace (Z.of_nat c0 <? 0)%Z with false by (symmetry; apply Z.ltb_ge; lia).
  rewrite Nat2Z.id, nth_error_map, nth_error_seq.
  replace (c0 <? cols) with true by (symmetry; apply Nat.ltb_lt; exact Hc).
  simpl option_map. change (1 + c0) with (S c0).
  rewrite orEmpty_nonempty by discriminate.
  apply lower_column_label.
Qed.

Lemma synth_cols_generic (cols : nat) (name : jstr) (r : Z) (k : nat) :
  forall (c0 n : nat), c0 + k <= cols ->
  synth_cols (map column_label (seq 1 cols)) name r k (Z.of_nat c0) n
  = (map (fun c => Some (lit "Value " ++ dec (r + 1) ++ lit "-" ++ dec (Z.of_nat c)))
         (seq (S c0) k), n).
Proof.
  induction k as [|k IH]; intros c0 n Hk; [reflexivity |].
  rewrite synth_cols_S. rewrite header_at_generic by lia.
  rewrite synth_cell_generic.
  replace (Z.of_nat c0 + 1)%Z with (Z.of_nat (S c0)) by lia.
  rewrite IH by lia. reflexivity.
Qed.

Lemma synth_rows_generic (cols : nat) (k : nat) :
  forall (r0 n : nat),
  fst (synth_rows (map column_label (seq 1 cols)) (Z.of_nat cols) k (Z.of_nat r0) n)
  = map (fun r => map (fun c => Some (value_label r c)) (seq 1 cols)) (seq (S r0) k).
Proof.
  induction k as [|k IH]; intros r0 n; [reflexivity |].
  rewrite synth_rows_S. destruct (randomName n) as [name n0].
  rewrite Nat2Z.id.
  assert (K := @synth_cols_generic cols name (Z.of_nat r0) cols 0 n0 (le_n _)).
  change (Z.of_nat 0) with 0%Z in K. rewrite K. clear K.
  replace (Z.of_nat r0 + 1)%Z with (Z.of_nat (S r0)) by lia.
  specialize (IH (S r0) n0).
  destruct (synth_rows _ _ k (Z.of_nat (S r0)) n0) as [more n2].
  simpl in IH. simpl. rewrite IH. reflexivity.
Qed.

Lemma proposed_headers_none (p : jstr) :
  Forall (fun kw => has p kw = false) prompt_keywords -> proposed_headers p = [].
Proof.
  intros H. unfold prompt_keywords in H.
  repeat match goal with
         | K : Forall _ (_ :: _) |- _ => inversion K; clear K; subst
         end.
  unfold has in *. unfold proposed_headers.
  repeat match goal with
         | K : includes _ p = false |- _ => rewrite K; clear K
         end.
  reflexivity.
Qed.

Lemma fallback_headers_generic (prompt : jstr) (cols : Z) :
  Forall (fun kw => has (toLowerCase prompt) kw = false) prompt_keywords ->
  (0 <= cols)%Z ->
  fallback_headers prompt cols = map column_label (seq 1 (Z.to_nat cols)).
Proof.
  intros H Hc. unfold fallback_headers. rewrite (@proposed_headers_none _ H).
  simpl length. destruct (cols <=? Z.of_nat 0)%Z eqn:E.
  - apply Z.leb_le in E. replace cols with 0%Z by lia. reflexivity.
  - rewrite pad_headers_labels. simpl. rewrite Z.sub_0_r. reflexivity.
Qed.

(** X6: when nothing of the model text is kept and the
    prompt names none of the keywords of the header fallback, the table is
    fully determined, for rows and cols from 0 to 4294967295 (the greatest
    array length): headers [Column 1], [Column 2], ... and in row R and
    column C the cell [Value R-C]; no random value enters it, and it is the
    answer of the handler. *)
Theorem X6_generic_table_without_keywords
    (text : jsval) (prompt : jstr) (rows cols : Z) (c : completion) :
  Forall (fun kw => has (toLowerCase prompt) kw = false) prompt_keywords ->
  structured_parse text rows cols = ([], [], c) ->
  (0 <= rows <= 4294967295)%Z -> (0 <= cols <= 4294967295)%Z ->
  table_of_text text prompt rows cols
  = Ok (generic_table (Z.to_nat rows) (Z.to_nat cols))
  /\ forall genData, extract_text_table genData = Ok text ->
       generateTable genData prompt rows cols
       = Json200 (generic_table (Z.to_nat rows) (Z.to_nat cols)).
Proof.
  intros Hk Hs [Hr Hr'] [Hc Hc'].
  assert (E : table_of_text text prompt rows cols
              = Ok (generic_table (Z.to_nat rows) (Z.to_nat cols))).
  { rewrite (@table_of_nothing _ text prompt rows cols c Hs).
    unfold full_fallback, generic_table.
    rewrite (@fallback_headers_generic prompt cols Hk Hc).
    rewrite fallback_rows_ok by exact Hr'. cbn [bind]. do 2 f_equal.
    assert (K := synth_rows_generic (Z.to_nat cols) (Z.to_nat rows) 0 0).
    rewrite Z2Nat.id in K by exact Hc. exact K. }
  split; [exact E |].
  intros genData Hx. unfold generateTable.
  rewrite placeholders_ok by assumption. cbn [bind]. rewrite Hx. cbn [bind].
  rewrite E. reflexivity.
Qed.

End Generic.

(** ** The identity of a synthesized row, and the numbers drawn *)


Section Rows.
Context {P : Platform}.


Lemma rand_In (arr : list jstr) (n : nat) :
  arr <> [] -> exists x, In x arr /\ rand arr n = (Some x, S n).
Proof.
  intros Hne. unfold rand, bindM, random, ret.
  destruct (Math_random_range n) as [H0 H1].
  assert (Hn : 0 < length arr) by (destruct arr; [congruence | cbn; lia]).
  pose proof (random_index_in_range H0 H1 Hn) as [Hlo Hhi].
  unfold at_index.
  destruct (Z.ltb_spec (Qfloor (Math_random n * QofZ (Z.of_nat (length arr)))) 0); [lia |].
  destruct (nth_error arr (Z.to_nat (Qfloor (Math_random n * QofZ (Z.of_nat (length arr))))))
    as [x|] eqn:E.
  - exists x. split; [eapply nth_error_In; exact E | reflexivity].
  - apply nth_error_None in E. lia.
Qed.

Lemma randomName_names (n : nat) :
  exists first last,
    In first firstNames /\ In last lastNames
    /\ randomName n = (first ++ lit " " ++ last, S (S n)).
Proof.
  unfold randomName, bindM.
  destruct (@rand_In firstNames n ltac:(discriminate)) as (f & Hf & Ef).
  destruct (@rand_In lastNames (S n) ltac:(discriminate)) as (l & Hl & El).
  exists f, l. rewrite Ef, El. repeat split; assumption.
Qed.

Lemma synth_rows_nth_drawn (headers : list jstr) (cols : Z) (k : nat) :
  forall (r0 : Z) (n i : nat), i < k ->
  exists m,
    nth_error (fst (synth_rows headers cols k r0 n)) i
    = Some (fst (synth_cols headers (fst (randomName m)) (r0 + Z.of_nat i)
                   (Z.to_nat cols) 0 (snd (randomName m)))).
Proof.
  induction k as [|k IH]; intros r0 n i Hi; [lia |].
  rewrite synth_rows_S.
  destruct (randomName n) as [name n0] eqn:En.
  destruct (synth_cols headers name r0 (Z.to_nat cols) 0 n0) as [row n1] eqn:Er.
  specialize (IH (r0 + 1)%Z n1).
  destruct (synth_rows headers cols k (r0 + 1) n1) as [more n2].
  destruct i as [|i]; cbn [fst nth_error].
  - exists n. rewrite En. cbn [fst snd]. rewrite Z.add_0_r, Er. reflexivity.
  - destruct (IH i ltac:(lia)) as (m & E). exists m.
    cbn [fst] in E. rewrite E.
    replace (r0 + Z.of_nat (S i))%Z with (r0 + 1 + Z.of_nat i)%Z by lia.
    reflexivity.
Qed.

Lemma synth_cell_identity (name : jstr) (r c : Z) (h : jstr) (n : nat) :
  rule_id h = false ->
  (rule_name h = true -> synth_cell name r c h n = (Some name, n))
  /\ (rule_name h = false -> has h "username" = true ->
      synth_cell name r c h n = (Some (usernameFrom name), n))
  /\ (rule_name h = false -> has h "username" = false -> has h "email" = true ->
      synth_cell name r c h n = (Some (emailFrom name r), n)).
Proof.
  unfold rule_id, rule_name, synth_cell. intros Hid. rewrite Hid.
  repeat split.
  - intros Hn. rewrite Hn. reflexivity.
  - intros Hn Hu. rewrite Hn, Hu. reflexivity.
  - intros Hn Hu He. rewrite Hn, Hu, He. reflexivity.
Qed.

(** X8: in the row fallback (rows an array length) every row has one person:
    a first name and a last name of the two lists of the source; the name
    column shows the two, the user-name column the user name made from
    them, and the e-mail column that user name followed by the number of
    the row and [@example.com]. *)
Theorem X8_row_identity_shared (headers : list jstr) (rows cols : Z) (r : nat) :
  (rows <= 4294967295)%Z -> (Z.of_nat r < rows)%Z ->
  exists body first last,
    fallback_rows headers rows cols = Ok body
    /\ In first firstNames /\ In last lastNames
    /\ forall (c : nat), (Z.of_nat c < cols)%Z ->
       let name := first ++ lit " " ++ last in
       let h := header_at headers (Z.of_nat c) in
       let shown := cell_at body r c in
       rule_id h = false ->
       (rule_name h = true -> shown = Some (Some name))
       /\ (rule_name h = false -> has h "username" = true ->
           shown = Some (Some (usernameFrom name)))
       /\ (rule_name h = false -> has h "username" = false ->
           has h "email" = true ->
           shown = Some (Some (usernameFrom name ++ dec (Z.of_nat r + 1)
                                 ++ lit "@example.com"))).
Proof.
  intros Hmax Hr.
  destruct (@synth_rows_nth_drawn headers cols (Z.to_nat rows) 0%Z 0 r ltac:(lia))
    as (m & Er).
  destruct (randomName_names m) as (f & l & Hf & Hl & En).
  exists (fst (synth_rows headers cols (Z.to_nat rows) 0 0)), f, l.
  split; [apply fallback_rows_ok; exact Hmax |].
  split; [exact Hf |]. split; [exact Hl |].
  intros c Hc name h shown Hid.
  assert (Es : exists n1, shown = Some (fst (synth_cell name (Z.of_nat r) (Z.of_nat c) h n1))).
  { unfold shown, cell_at. rewrite Er. rewrite En. cbn [fst snd].
    destruct (@synth_cols_nth _ headers (f ++ lit " " ++ l) (0 + Z.of_nat r)
                (Z.to_nat cols) 0%Z (S (S m)) c ltac:(lia)) as (n1 & Ec).
    exists n1. rewrite Ec. reflexivity. }
  destruct Es as (n1 & Es).
  destruct (@synth_cell_identity name (Z.of_nat r) (Z.of_nat c) h n1 Hid)
    as (H1 & H2 & H3).
  repeat split.
  - intros Hn. rewrite Es, (H1 Hn). reflexivity.
  - intros Hn Hu. rewrite Es, (H2 Hn Hu). reflexivity.
  - intros Hn Hu He. rewrite Es, (H3 Hn Hu He). reflexivity.
Qed.


End Rows.

(** ** The table of users *)

Section Users.
Context {P : Platform}.

Hypothesis lower_ascii :
  forall s, Forall (fun c => (c < 128)%N) s -> toLowerCase s = ascii_toLowerCase s.

Lemma header_at_user (c : Z) (h : jstr) :
  at_index userBase c = Some h ->
  header_at userBase c = ascii_toLowerCase h.
Proof.
  intros H. unfold header_at. rewrite H.
  assert (Hin : In h userBase).
  { unfold at_index in H. destruct (c <? 0)%Z; [discriminate |].
    eapply nth_error_In; exact H. }
  assert (Hne : h <> []).
  { intros ->. revert Hin. vm_compute. intuition discriminate. }
  rewrite orEmpty_nonempty by exact Hne.
  apply lower_ascii.
  revert Hin. unfold userBase. cbn [map In].
  intros [<- | [<- | [<- | [<- | [<- | [<- | []]]]]]]; repeat constructor.
Qed.

Lemma user_row (name : jstr) (r : Z) (n : nat) :
  exists role dept,
    In role roles /\ In dept departments
    /\ fst (synth_cols userBase name r 6 0 n)
       = [Some (lit "USR-" ++ dec (1000 + r)); Some name;
          Some (usernameFrom name ++ dec (r + 1) ++ lit "@example.com");
          Some role; Some dept;
          Some (if (r mod 2 =? 0)%Z then lit "Active" else lit "Inactive")].
Proof.
  destruct (@rand_In _ roles n ltac:(discriminate)) as (role & Hrole & Er).
  destruct (@rand_In _ departments (S n) ltac:(discriminate)) as (dept & Hdept & Ed).
  exists role, dept. split; [exact Hrole |]. split; [exact Hdept |].
  cbv beta iota. rewrite synth_cols_S.
  rewrite (@header_at_user 0 (lit "User ID") eq_refl).
  change (synth_cell name r 0 (ascii_toLowerCase (lit "User ID")) n)
    with (Some (id r), n).
  cbv beta iota. rewrite synth_cols_S.
  rewrite (@header_at_user (0 + 1) (lit "Name") eq_refl).
  change (synth_cell name r (0 + 1) (ascii_toLowerCase (lit "Name")) n)
    with (Some name, n).
  cbv beta iota. rewrite synth_cols_S.
  rewrite (@header_at_user (0 + 1 + 1) (lit "Email") eq_refl).
  change (synth_cell name r (0 + 1 + 1) (ascii_toLowerCase (lit "Email")) n)
    with (Some (emailFrom name r), n).
  cbv beta iota. rewrite synth_cols_S.
  rewrite (@header_at_user (0 + 1 + 1 + 1) (lit "Role") eq_refl).
  change (synth_cell name r (0 + 1 + 1 + 1) (ascii_toLowerCase (lit "Role")) n)
    with (rand roles n).
  rewrite Er.
  cbv beta iota. rewrite synth_cols_S.
  rewrite (@header_at_user (0 + 1 + 1 + 1 + 1) (lit "Department") eq_refl).
  change (synth_cell name r (0 + 1 + 1 + 1 + 1)
            (ascii_toLowerCase (lit "Department")) (S n))
    with (rand departments (S n)).
  rewrite Ed.
  cbv beta iota. rewrite synth_cols_S.
  rewrite (@header_at_user (0 + 1 + 1 + 1 + 1 + 1) (lit "Status") eq_refl).
  change (synth_cell name r (0 + 1 + 1 + 1 + 1 + 1)
            (ascii_toLowerCase (lit "Status")) (S (S n)))
    with (Some (if (r mod 2 =? 0)%Z then lit "Active" else lit "Inactive"), S (S n)).
  cbv beta iota. reflexivity.
Qed.

(** X7: for a prompt that names users, when nothing of the
    model text is kept, six columns are asked for and rows is an array
    length, the headers are User
    ID, Name, Email, Role, Department, Status, and the row of index r holds
    the identifier [USR-] and 1000 + r, a first and a last name of the two
    lists, the e-mail address made from that name and r + 1, a role and a
    department of the two lists, and [Active] or [Inactive] by the parity
    of r. *)
Theorem X7_user_table (text : jsval) (prompt : jstr) (rows : Z) (c : completion) (r : nat) :
  has (toLowerCase prompt) "user" = true ->
  structured_parse text rows 6 = ([], [], c) ->
  (rows <= 4294967295)%Z -> (Z.of_nat r < rows)%Z ->
  exists t,
  table_of_text text prompt rows 6 = Ok t
  /\ tbl_headers t = userBase
  /\ exists first last role dept,
       In first firstNames /\ In last lastNames
       /\ In role roles /\ In dept departments
       /\ nth_error (tbl_rows t) r
          = Some [Some (lit "USR-" ++ dec (1000 + Z.of_nat r));
                  Some (first ++ lit " " ++ last);
                  Some (usernameFrom (first ++ lit " " ++ last)
                        ++ dec (Z.of_nat r + 1) ++ lit "@example.com");
                  Some role; Some dept;
                  Some (if (Z.of_nat r mod 2 =? 0)%Z
                        then lit "Active" else lit "Inactive")].
Proof.
  intros Hu Hs Hmax Hr.
  rewrite (@table_of_nothing _ text prompt rows 6 c Hs).
  unfold full_fallback.
  assert (Eh : fallback_headers prompt 6 = userBase).
  { unfold fallback_headers, proposed_headers. unfold has in Hu. rewrite Hu.
    reflexivity. }
  rewrite Eh. rewrite fallback_rows_ok by exact Hmax. cbn [bind].
  eexists. split; [reflexivity |]. cbn [tbl_headers tbl_rows].
  split; [reflexivity |].
  destruct (@synth_rows_nth_drawn _ userBase 6 (Z.to_nat rows) 0%Z 0 r ltac:(lia))
    as (m & Er).
  destruct (randomName_names m) as (f & l & Hf & Hl & En).
  rewrite En in Er. cbn [fst snd] in Er.
  destruct (user_row (f ++ lit " " ++ l) (0 + Z.of_nat r) (S (S m)))
    as (role & dept & Hrole & Hdept & Erow).
  exists f, l, role, dept.
  repeat (split; [assumption |]).
  rewrite Er. change (Z.to_nat 6) with 6. rewrite Erow. reflexivity.
Qed.

End Users.

(** ** Lists written with commas, and lists written line by line *)

Lemma split_plain (c : cu) (a : jstr) : ~ In c a -> split c a = [a].
Proof.
  induction a as [|x a IH]; intros H; [reflexivity |].
  simpl. destruct (cu_eqb x c) eqn:E.
  - apply N.eqb_eq in E. subst x. exfalso. apply H. left. reflexivity.
  - rewrite IH; [reflexivity |]. intros Hin. apply H. right. exact Hin.
Qed.

Lemma split_at (c : cu) (a rest : jstr) :
  ~ In c a -> split c (a ++ c :: rest) = a :: split c rest.
Proof.
  induction a as [|x a IH]; intros H.
  - simpl. unfold cu_eqb. rewrite N.eqb_refl. reflexivity.
  - simpl. destruct (cu_eqb x c) eqn:E.
    + apply N.eqb_eq in E. subst x. exfalso. apply H. left. reflexivity.
    + rewrite IH; [reflexivity |]. intros Hin. apply H. right. exact Hin.
Qed.

Lemma join_cons_app (sep x a : jstr) (L : list jstr) :
  join sep ((x ++ a) :: L) = x ++ join sep (a :: L).
Proof. destruct L; simpl; [reflexivity | apply eq_sym, app_assoc]. Qed.

Lemma split_join_cons (c : cu) (w : jstr) (L : list jstr) :
  ~ In c w -> Forall (fun a => ~ In c a) L ->
  forall a, ~ In c a ->
  split c (join (c :: w) (a :: L)) = a :: map (app w) L.
Proof.
  intros Hw HL. induction HL as [|b L Hb _ IH]; intros a Ha.
  - simpl. apply split_plain. exact Ha.
  - change (join (c :: w) (a :: b :: L)) with (a ++ c :: (w ++ join (c :: w) (b :: L))).
    rewrite split_at by exact Ha. f_equal.
    rewrite <- join_cons_app. apply IH.
    intros Hin. apply in_app_or in Hin. tauto.
Qed.

Lemma split_join (c : cu) (w : jstr) (L : list jstr) :
  L <> [] -> Forall (fun a => ~ In c a) L -> ~ In c w ->
  split c (join (c :: w) L) = hd [] L :: map (app w) (tl L).
Proof.
  intros Hne HL Hw. destruct L as [|a L]; [congruence |].
  inversion HL; subst. apply split_join_cons; assumption.
Qed.

Lemma join_In (c : cu) (sep : jstr) (L : list jstr) :
  In c (join sep L) -> In c sep \/ exists a, In a L /\ In c a.
Proof.
  induction L as [|a L IH]; [intros [] |].
  destruct L as [|b L].
  - simpl. intros H. right. exists a. split; [left; reflexivity | exact H].
  - change (join sep (a :: b :: L)) with (a ++ sep ++ join sep (b :: L)).
    intros H. apply in_app_or in H. destruct H as [H | H].
    + right. exists a. split; [left; reflexivity | exact H].
    + apply in_app_or in H. destruct H as [H | H]; [left; exact H |].
      destruct (IH H) as [K | (x & Hx & Hc)]; [left; exact K |].
      right. exists x. split; [right; exact Hx | exact Hc].
Qed.

Lemma join_head (sep : jstr) (a : jstr) (L : list jstr) :
  exists rest, join sep (a :: L) = a ++ rest.
Proof.
  destruct L as [|b L].
  - exists []. simpl. rewrite app_nil_r. reflexivity.
  - exists (sep ++ join sep (b :: L)). reflexivity.
Qed.

Lemma join_last (sep : jstr) (L : list jstr) (z : jstr) :
  exists front, join sep (L ++ [z]) = front ++ z.
Proof.
  induction L as [|a L IH].
  - exists []. reflexivity.
  - destruct IH as (front & E).
    destruct (L ++ [z]) as [|b K] eqn:EK.
    + destruct L; discriminate.
    + exists (a ++ sep ++ front).
      change (join sep ((a :: L) ++ [z])) with (join sep (a :: (L ++ [z]))).
      rewrite EK. change (join sep (a :: b :: K)) with (a ++ sep ++ join sep (b :: K)).
      rewrite E, <- !app_assoc. reflexivity.
Qed.

Lemma head_fails_app_l (p : cu -> bool) (a rest : jstr) :
  a <> [] -> head_fails p a -> head_fails p (a ++ rest).
Proof. destruct a; [congruence | simpl; auto]. Qed.

(** The texts joined from tight items are tight. *)
Lemma tight_join (sep : jstr) (L : list jstr) :
  L <> [] -> Forall (fun a => a <> [] /\ tight a) L -> tight (join sep L).
Proof.
  intros Hne HL. split.
  - destruct L as [|a L]; [congruence |].
    inversion HL as [|? ? [Ha Ht] _]; subst.
    destruct (join_head sep a L) as (rest & E). rewrite E.
    apply head_fails_app_l; [exact Ha | apply Ht].
  - destruct (@exists_last _ L Hne) as (front & z & E). subst L.
    apply Forall_app in HL. destruct HL as [_ Hz].
    inversion Hz as [|? ? [Ha Ht] _]; subst.
    destruct (join_last sep front z) as (fr & E). rewrite E.
    rewrite rev_app_distr. apply head_fails_app_l; [| apply Ht].
    intros K. apply (f_equal (@rev N)) in K. rewrite rev_involutive in K. simpl in K.
    congruence.
Qed.

(** Where the pattern of an edge quote matches: on the quote at the start of
    the text, or on the quote that ends it. *)
Lemma edge_match (q : cu) (b : bool) (s : jstr) (m : jstr * caps) :
  match_here (re_edge q) b s = Some m ->
  (b = true /\ exists r, s = q :: r) \/ s = [q].
Proof.
  unfold match_here, re_edge. destruct s as [|x r].
  - cbn. destruct b; discriminate.
  - cbn. destruct (cu_eqb x q) eqn:E.
    + apply N.eqb_eq in E. subst x. destruct b.
      * intros _. left. split; [reflexivity | exists r; reflexivity].
      * cbn. destruct r; [intros _; right; reflexivity | discriminate].
    + destruct b; discriminate.
Qed.

Lemma edge_absent (q : cu) (a : jstr) :
  head_fails (fun c => cu_eqb c q) a -> head_fails (fun c => cu_eqb c q) (rev a) ->
  replaceAll (re_edge q) [] a = a.
Proof.
  intros H1 H2. apply replace_go_stays. intros pre s' E.
  destruct (match_here (re_edge q) (true && isEmpty pre) s') as [m|] eqn:Em; [| reflexivity].
  exfalso. apply edge_match in Em. destruct Em as [[Hb (r & Es)] | Es].
  - destruct pre; [| discriminate]. simpl in E. subst a s'.
    simpl in H1. unfold cu_eqb in H1. rewrite N.eqb_refl in H1. discriminate.
  - subst a s'. rewrite rev_app_distr in H2. simpl in H2.
    unfold cu_eqb in H2. rewrite N.eqb_refl in H2. discriminate.
Qed.

Lemma head_fails_weaken (p p' : cu -> bool) (s : jstr) :
  (forall c, p c = false -> p' c = false) -> head_fails p s -> head_fails p' s.
Proof. intros H. destruct s; simpl; auto. Qed.

Lemma strip_quotes_unquoted (a : jstr) : unquoted a -> strip_quotes a = a.
Proof.
  intros [H1 H2]. unfold strip_quotes.
  rewrite (@edge_absent DQ a).
  - apply edge_absent; eapply head_fails_weaken; try eassumption;
      intros c Hc; apply orb_false_iff in Hc; apply Hc.
  - eapply head_fails_weaken; [| exact H1].
    intros c Hc; apply orb_false_iff in Hc; apply Hc.
  - eapply head_fails_weaken; [| exact H2].
    intros c Hc; apply orb_false_iff in Hc; apply Hc.
Qed.

Lemma map_strip_quotes (L : list jstr) :
  Forall unquoted L -> map strip_quotes L = L.
Proof.
  intros H. induction H as [|a L Ha _ IH]; [reflexivity |].
  simpl. rewrite strip_quotes_unquoted by exact Ha. rewrite IH. reflexivity.
Qed.

Lemma not_bracketed (t : jstr) :
  startsWith (lit "[") t = false ->
  ((startsWith (lit "[") t && endsWith (lit "]") t)
   || (startsWith (lit "[") t && includes (lit "]") t)) = false.
Proof. intros ->. reflexivity. Qed.

Lemma startsWith_head (p a rest : jstr) :
  a <> [] -> p <> [] -> startsWith p a = false -> length p = 1 ->
  startsWith p (a ++ rest) = false.
Proof.
  intros Ha Hp H Hl. destruct p as [|x [|y p]]; try discriminate.
  destruct a as [|c a]; [congruence |].
  simpl in *. destruct (cu_eqb x c); [discriminate | reflexivity].
Qed.

Section Lists.
Context {P : Platform}.

(** X11: items written on one line with commas between them,
    each comma followed by the same run of spaces, come back as they are:
    the items, in order. *)
Theorem X11_comma_list_round_trip (L : list jstr) (w : jstr) :
  2 <= length L ->
  Forall (fun a => plain_item a /\ ~ In 44%N a /\ ~ In 10%N a) L ->
  Forall (fun c => isWhiteSpace c = true) w -> ~ In 10%N w ->
  startsWith (lit "[") (hd [] L) = false ->
  normalizeToList_text (join (44%N :: w) L) = L
  /\ generate_list (join (44%N :: w) L) (Z.of_nat (length L)) = L.
Proof.
  intros Hlen HL Hw Hw10 Hbr.
  assert (Hne : L <> []) by (destruct L; [simpl in Hlen; lia | discriminate]).
  assert (Htight : Forall (fun a => a <> [] /\ tight a) L).
  { eapply Forall_impl; [| exact HL]. intros a ((Ha & Ht & _) & _).
    split; [exact Ha | apply tight_fix; exact Ht]. }
  set (text := join (44%N :: w) L).
  assert (Et : trim text = text) by (apply tight_trim, tight_join; assumption).
  assert (Hcomma : In 44%N text).
  { unfold text. destruct L as [|a [|b L]]; try (simpl in Hlen; lia).
    change (join (44%N :: w) (a :: b :: L))
      with (a ++ 44%N :: (w ++ join (44%N :: w) (b :: L))).
    apply in_or_app. right. left. reflexivity. }
  assert (Hnl : ~ In 10%N text).
  { unfold text. intros Hin. apply join_In in Hin.
    destruct Hin as [[K | K] | (a & Ha & Hc)].
    - discriminate.
    - exact (Hw10 K).
    - rewrite Forall_forall in HL. destruct (HL a Ha) as (_ & _ & Hn). exact (Hn Hc). }
  assert (Hstart : startsWith (lit "[") text = false).
  { unfold text. destruct L as [|a L]; [congruence |].
    destruct (join_head (44%N :: w) a L) as (rest & E). rewrite E.
    inversion HL as [|? ? ((Ha & _) & _) _]; subst.
    apply startsWith_head; [exact Ha | discriminate | exact Hbr | reflexivity]. }
  assert (E : normalizeToList_text text = L).
  { unfold normalizeToList_text.
    assert (Hte : isEmpty text = false).
    { destruct text; [destruct Hcomma | reflexivity]. }
    rewrite Hte, Et. rewrite (not_bracketed _ Hstart).
    change (lit ",") with [44%N]. change (ch ",") with 44%N.
    rewrite (In_includes _ _ Hcomma).
    rewrite (@includes_absent 10%N [10%N] text (or_introl eq_refl) Hnl).
    cbn [andb negb].
    unfold text. rewrite split_join; [| exact Hne | | ].
    - assert (E1 : map trim (hd [] L :: map (app w) (tl L)) = L).
      { destruct L as [|a L]; [congruence |]. simpl hd. simpl tl. cbn [map].
        inversion HL as [|? ? ((_ & Ha & _) & _) HL']; subst. rewrite Ha. f_equal.
        rewrite map_map. clear - HL' Hw.
        induction HL' as [|b L ((Hb0 & Hb & _) & _) _ IH]; [reflexivity |].
        cbn [map]. rewrite IH. f_equal.
        rewrite <- (app_nil_r b) at 1.
        apply trim_around; [exact Hw | constructor | apply tight_fix; exact Hb]. }
      rewrite E1.
      rewrite map_strip_quotes.
      + apply filter_nonEmpty_id. eapply Forall_impl; [| exact HL].
        intros a ((Ha & _) & _). exact Ha.
      + eapply Forall_impl; [| exact HL]. intros a ((_ & _ & Hu) & _). exact Hu.
    - eapply Forall_impl; [| exact HL]. intros a (_ & Hc & _). exact Hc.
    - intros K. rewrite Forall_forall in Hw. specialize (Hw _ K). discriminate. }
  split; [exact E |].
  unfold generate_list. rewrite E. unfold resize.
  rewrite Z.ltb_irrefl. rewrite slice0_nonneg by lia.
  rewrite Nat2Z.id. apply firstn_all.
Qed.
End Lists.

(** The marker of a line is what line 85 takes away. *)
Lemma marker_taken (m a : jstr) :
  Forall (fun c => isMarker c = true) m -> head_fails isMarker a ->
  replaceFirst re_marker [] (m ++ a) = a.
Proof.
  intros Hm Ha. unfold replaceFirst.
  assert (Hrest : forall s, replace_first_go re_marker [] false s = s).
  { intros s. apply replace_first_go_stays. intros pre s' _. reflexivity. }
  destruct m as [|c m].
  - simpl app. destruct a as [|x a]; [reflexivity |].
    cbn [replace_first_go]. unfold match_here, re_marker. cbn [rseq fold_right rmatch].
    simpl in Ha. unfold isMarker in Ha. rewrite Ha.
    f_equal. apply Hrest.
  - inversion Hm as [|? ? Hc Hm']; subst.
    change ((c :: m) ++ a) with (c :: (m ++ a)).
    cbn [replace_first_go]. unfold match_here, re_marker. cbn [rseq fold_right rmatch].
    unfold isMarker in Hc. rewrite Hc.
    rewrite star_greedy_run with (v := (a, @nil (nat * jstr))); [reflexivity | | |].
    + exact Hm'.
    + exact Ha.
    + intros b. reflexivity.
Qed.

Lemma trimStart_app_stop (m x : jstr) :
  x <> [] -> head_fails isWhiteSpace x -> trimStart (m ++ x) = trimStart m ++ x.
Proof.
  intros Hx Hh. induction m as [|c m IH].
  - simpl. apply trimStart_id. exact Hh.
  - simpl. destruct (isWhiteSpace c); [exact IH | reflexivity].
Qed.

Lemma trimStart_suffix (Q : cu -> Prop) (m : jstr) :
  Forall Q m -> Forall Q (trimStart m).
Proof.
  intros H. induction H as [|c m Hc Hm IH]; [constructor |].
  simpl. destruct (isWhiteSpace c); [exact IH | constructor; assumption].
Qed.

Lemma trimStart_not_In (c : cu) (m : jstr) : ~ In c m -> ~ In c (trimStart m).
Proof.
  intros H Hin. apply H. destruct (trimStart_tail m) as (pre & E).
  rewrite E. apply in_or_app. right. exact Hin.
Qed.

(** The text of marked lines ends with the last character of an item. *)
Lemma lines_last (lines : list (jstr * jstr)) :
  lines <> [] -> Forall marked_line lines ->
  head_fails isWhiteSpace (rev (join [10%N] (map line_of lines))).
Proof.
  intros Hne HL.
  destruct (@exists_last _ (map line_of lines)) as (front & z & E).
  { destruct lines; [congruence | discriminate]. }
  rewrite E. destruct (join_last [10%N] front z) as (fr & E'). rewrite E'.
  assert (Hz : In z (map line_of lines)).
  { rewrite E. apply in_or_app. right. left. reflexivity. }
  apply in_map_iff in Hz. destruct Hz as ([m a] & <- & Hin).
  rewrite Forall_forall in HL. destruct (HL _ Hin) as (_ & _ & (Ha & Ht & _) & _).
  cbn [fst snd] in *. unfold line_of. cbn [fst snd].
  rewrite app_assoc, rev_app_distr. apply head_fails_app_l.
  - intros K. apply (f_equal (@rev N)) in K. rewrite rev_involutive in K.
    simpl in K. congruence.
  - apply tight_fix in Ht. apply Ht.
Qed.

Section Lines.
Context {P : Platform}.

Lemma normalize_trimmed (text : jstr) :
  text <> [] -> trim text <> [] ->
  normalizeToList_text text = normalizeToList_text (trim text).
Proof.
  intros H1 H2. unfold normalizeToList_text. rewrite trim_idem.
  assert (E1 : isEmpty text = false) by (destruct text; [congruence | reflexivity]).
  assert (E2 : isEmpty (trim text) = false)
    by (destruct (trim text); [congruence | reflexivity]).
  rewrite E1, E2. reflexivity.
Qed.

Lemma lines_items (lines : list (jstr * jstr)) :
  Forall marked_line lines ->
  map strip_quotes
    (map (fun s => trim (replaceFirst re_marker [] s)) (map line_of lines))
  = map snd lines.
Proof.
  intros H. induction H as [|[m a] lines (Hm & _ & (Ha & Ht & Hu) & _ & Hh) _ IH];
    [reflexivity |].
  cbn [map]. rewrite IH. f_equal. unfold line_of. cbn [fst snd] in *.
  rewrite marker_taken by assumption. rewrite Ht.
  apply strip_quotes_unquoted. exact Hu.
Qed.

Lemma marked_lines_tight (lines : list (jstr * jstr)) :
  2 <= length lines ->
  Forall marked_line lines ->
  head_fails isWhiteSpace (fst (hd ([], []) lines)) ->
  startsWith (lit "[") (snd (hd ([], []) lines)) = false ->
  normalizeToList_text (join [10%N] (map line_of lines)) = map snd lines.
Proof.
  intros Hlen HL Hhead Hbr.
  set (text := join [10%N] (map line_of lines)).
  destruct lines as [|[m1 a1] [|l2 rest]]; try (simpl in Hlen; lia).
  cbn [hd fst snd] in Hhead, Hbr.
  inversion HL as [|? ? (Hm1 & Hm10 & (Ha1 & Ht1 & Hu1) & Ha10 & Hh1) HL']; subst.
  cbn [fst snd] in *.
  assert (Etext : text = (m1 ++ a1) ++ 10%N :: join [10%N] (map line_of (l2 :: rest)))
    by reflexivity.
  assert (Hnl : In 10%N text).
  { rewrite Etext. apply in_or_app. right. left. reflexivity. }
  assert (Hfirst : head_fails isWhiteSpace text
                   /\ startsWith (lit "[") text = false).
  { rewrite Etext. destruct m1 as [|c m1].
    - simpl app at 1. destruct a1 as [|x a1]; [congruence |].
      split.
      + simpl. apply tight_fix in Ht1. apply Ht1.
      + simpl in Hbr |- *. exact Hbr.
    - split; [exact Hhead |].
      inversion Hm1 as [|? ? Hc _]; subst.
      destruct (N.eq_dec c 91) as [-> | Hne]; [discriminate Hc |].
      change (cu_eqb 91 c && true = false).
      apply andb_false_iff. left. apply N.eqb_neq. congruence. }
  destruct Hfirst as [Hws Hstart].
  assert (Hlast : head_fails isWhiteSpace (rev text))
    by (apply lines_last; [discriminate | exact HL]).
  assert (Et : trim text = text) by (apply tight_trim; split; assumption).
  unfold normalizeToList_text.
  assert (Hte : isEmpty text = false) by (destruct text; [destruct Hnl | reflexivity]).
  rewrite Hte, Et, (not_bracketed _ Hstart).
  rewrite (In_includes _ _ Hnl). cbn [negb]. rewrite andb_false_r.
  unfold text. rewrite split_join.
  - rewrite map_id. 
    replace (hd [] (map line_of ((m1, a1) :: l2 :: rest))
             :: tl (map line_of ((m1, a1) :: l2 :: rest)))
      with (map line_of ((m1, a1) :: l2 :: rest)) by reflexivity.
    rewrite lines_items by exact HL.
    apply filter_nonEmpty_id. apply Forall_forall. intros a Hin.
    apply in_map_iff in Hin. destruct Hin as (l & <- & Hl).
    rewrite Forall_forall in HL. destruct (HL _ Hl) as (_ & _ & (Ha & _) & _). exact Ha.
  - discriminate.
  - apply Forall_forall. intros s Hin. apply in_map_iff in Hin.
    destruct Hin as ([m a] & <- & Hl).
    rewrite Forall_forall in HL. destruct (HL _ Hl) as (_ & Hm & _ & Ha & _).
    cbn [fst snd] in *. unfold line_of. cbn [fst snd].
    intros K. apply in_app_or in K. tauto.
  - intros [].
Qed.

(** X12: a list written one item per line, each line starting
    with a marker (a dash, a star, a number with a dot or a parenthesis,
    spaces, or nothing), comes back as the items, in order, the markers
    gone. *)
Theorem X12_marked_lines_round_trip (lines : list (jstr * jstr)) :
  2 <= length lines ->
  Forall marked_line lines ->
  startsWith (lit "[") (snd (hd ([], []) lines)) = false ->
  normalizeToList_text (join [10%N] (map line_of lines)) = map snd lines
  /\ generate_list (join [10%N] (map line_of lines)) (Z.of_nat (length lines))
     = map snd lines.
Proof.
  intros Hlen HL Hbr.
  assert (E : normalizeToList_text (join [10%N] (map line_of lines)) = map snd lines).
  { destruct lines as [|[m1 a1] rest]; [simpl in Hlen; lia |].
    inversion HL as [|? ? (Hm1 & Hm10 & (Ha1 & Ht1 & Hu1) & Ha10 & Hh1) HL']; subst.
    cbn [fst snd hd] in *.
    set (lines' := (trimStart m1, a1) :: rest).
    assert (HL2 : Forall marked_line lines').
    { constructor; [| exact HL']. unfold marked_line. cbn [fst snd].
      split; [apply trimStart_suffix; exact Hm1 |].
      split; [apply trimStart_not_In; exact Hm10 |].
      split; [unfold plain_item; auto |].
      split; assumption. }
    assert (Etrim : trimStart (join [10%N] (map line_of ((m1, a1) :: rest)))
                    = join [10%N] (map line_of lines')).
    { unfold lines'. cbn [map]. unfold line_of at 1 3. cbn [fst snd].
      rewrite !join_cons_app.
      destruct (join_head [10%N] a1 (map line_of rest)) as (r & Er). rewrite Er.
      apply trimStart_app_stop.
      - destruct a1; [congruence | discriminate].
      - apply head_fails_app_l; [exact Ha1 |]. apply tight_fix in Ht1. apply Ht1. }
    assert (Hgoal : normalizeToList_text (join [10%N] (map line_of lines'))
                    = map snd lines').
    { apply marked_lines_tight.
      - exact Hlen.
      - exact HL2.
      - cbn [hd fst]. apply trimStart_last.
      - exact Hbr. }
    assert (Hne' : join [10%N] (map line_of lines') <> []).
    { unfold lines'. destruct rest as [|l2 rest]; [simpl in Hlen; lia |].
      cbn [map]. intros K.
      change (join [10%N] (line_of (trimStart m1, a1) :: line_of l2 :: map line_of rest))
        with (line_of (trimStart m1, a1) ++ 10%N :: join [10%N] (line_of l2 :: map line_of rest)) in K.
      apply app_eq_nil in K. destruct K as [_ K]. discriminate. }
    assert (Etr : trim (join [10%N] (map line_of ((m1, a1) :: rest)))
                  = join [10%N] (map line_of lines')).
    { unfold trim. rewrite Etrim. apply trimEnd_id.
      apply lines_last; [discriminate | exact HL2]. }
    rewrite normalize_trimmed.
    - rewrite Etr. exact Hgoal.
    - intros K. rewrite K in Etr. simpl in Etr. unfold trim in Etr. simpl in Etr.
      symmetry in Etr. exact (Hne' Etr).
    - rewrite Etr. exact Hne'. }
  split; [exact E |].
  unfold generate_list. rewrite E. unfold resize.
  rewrite length_map, Z.ltb_irrefl. rewrite slice0_nonneg by lia.
  rewrite Nat2Z.id. rewrite <- (length_map snd). apply firstn_all.
Qed.

End Lines.

(** ** Arrays written with single quotes *)

Lemma firstn_consumed (A : Type) (a r : list A) :
  firstn (length (a ++ r) - length r) (a ++ r) = a.
Proof.
  rewrite length_app. replace (length a + length r - length r) with (length a) by lia.
  rewrite firstn_app, Nat.sub_diag, firstn_all. simpl. apply app_nil_r.
Qed.

Lemma item_char_spec (c : cu) :
  item_char c = true ->
  cu_eqb c SQ = false /\ cu_eqb c DQ = false /\ cu_eqb c 92 = false /\ N.ltb c 32 = false.
Proof.
  unfold item_char. intros H.
  apply andb_prop in H. destruct H as [H H4].
  apply andb_prop in H. destruct H as [H H3].
  apply andb_prop in H. destruct H as [H1 H2].
  apply negb_true_iff in H1, H2, H3. apply N.leb_le in H4.
  repeat split; try assumption. apply N.ltb_ge. exact H4.
Qed.

Lemma item_not_quote (a : jstr) :
  Forall (fun c => item_char c = true) a ->
  Forall (fun c => class_ok (CNot [IChr SQ]) c = true) a.
Proof.
  intros H. eapply Forall_impl; [| exact H]. intros c Hc.
  apply item_char_spec in Hc. destruct Hc as (H1 & _). simpl.
  rewrite H1. reflexivity.
Qed.

(** Line 67 matches at the start of the text only. *)
Lemma start_rule_later (s : jstr) : match_here re_list_start false s = None.
Proof. reflexivity. Qed.

Lemma start_rule_first (a rest : jstr) :
  Forall (fun c => item_char c = true) a ->
  exists cs, match_here re_list_start true (91%N :: SQ :: a ++ SQ :: rest) = Some (rest, cs)
             /\ cap 2 cs = a.
Proof.
  intros Ha. unfold match_here, re_list_start. cbn.
  eexists. split.
  - apply star_greedy_run with (run := a) (rest := SQ :: rest).
    + apply item_not_quote. exact Ha.
    + reflexivity.
    + intros b. reflexivity.
  - cbn [cap Nat.eqb]. apply firstn_consumed.
Qed.

(** A stretch of text at no position of which the pattern matches is
    copied. *)
Lemma replace_go_prefix (re : regex) (t : list rpiece) (pre s : jstr) :
  forall bol,
  (forall p1 p2, pre = p1 ++ p2 -> p2 <> [] ->
     match_here re (bol && isEmpty p1) (p2 ++ s) = None) ->
  replace_go re t bol 0 (pre ++ s) = pre ++ replace_go re t (bol && isEmpty pre) 0 s.
Proof.
  induction pre as [|c pre IH]; intros bol H.
  - simpl. rewrite andb_true_r. reflexivity.
  - change ((c :: pre) ++ s) with (c :: (pre ++ s)). cbn [replace_go].
    pose proof (H [] (c :: pre) eq_refl ltac:(discriminate)) as E.
    simpl in E. rewrite andb_true_r in E. rewrite E.
    simpl app. f_equal. rewrite IH.
    + simpl. rewrite andb_false_r. reflexivity.
    + intros p1 p2 E' Hne. simpl.
      pose proof (H (c :: p1) p2) as K. simpl in K. rewrite andb_false_r in K.
      apply K; [rewrite E'; reflexivity | exact Hne].
Qed.

(** The first pass of the quote repair (line 67) on a quoted array. *)
Lemma start_rule_array (a rest : jstr) :
  Forall (fun c => item_char c = true) a ->
  replaceAll re_list_start to_list_start (91%N :: SQ :: a ++ SQ :: rest)
  = 91%N :: DQ :: a ++ DQ :: rest.
Proof.
  intros Ha. unfold replaceAll.
  destruct (start_rule_first rest Ha) as (cs & Em & Ec).
  set (tail := SQ :: a ++ SQ :: rest) in *.
  cbn [replace_go]. rewrite Em.
  unfold to_list_start. cbn [expand flat_map]. rewrite Ec.
  replace (length (91%N :: tail) - length rest) with (S (length (SQ :: a ++ [SQ]))).
  2: { unfold tail. cbn [length]. rewrite !length_app. cbn [length]. lia. }
  cbv iota.
  replace tail with ((SQ :: a ++ [SQ]) ++ rest)
    by (unfold tail; simpl; rewrite <- app_assoc; reflexivity).
  rewrite replace_go_skip. simpl isEmpty. simpl andb.
  rewrite replace_go_stays.
  - unfold ch. simpl. rewrite <- app_assoc. reflexivity.
  - intros pre s' _. apply start_rule_later.
Qed.

(** Where line 68 matches: on a comma that a single quote follows. *)
Lemma mid_rule_needs (b : bool) (s : jstr) (m : jstr * caps) :
  match_here re_list_mid b s = Some m ->
  exists r, s = 44%N :: SQ :: r.
Proof.
  unfold match_here, re_list_mid. destruct s as [|c [|d r]]; cbn.
  - discriminate.
  - destruct (cu_eqb c 44); discriminate.
  - destruct (cu_eqb c 44) eqn:Ec; [| discriminate].
    destruct (cu_eqb d SQ) eqn:Ed; [| discriminate].
    apply N.eqb_eq in Ec, Ed. subst. intros _. exists r. reflexivity.
Qed.

Lemma mid_rule_item (b : bool) (a rest : jstr) :
  Forall (fun c => item_char c = true) a ->
  exists cs, match_here re_list_mid b (44%N :: SQ :: a ++ SQ :: rest) = Some (rest, cs)
             /\ cap 1 cs = a.
Proof.
  intros Ha. unfold match_here, re_list_mid. cbn.
  eexists. split.
  - apply star_greedy_run with (run := a) (rest := SQ :: rest).
    + apply item_not_quote. exact Ha.
    + reflexivity.
    + intros b'. reflexivity.
  - cbn [cap Nat.eqb]. apply firstn_consumed.
Qed.

(** The second pass (line 68) on the items after the first. *)
Lemma mid_rule_items (more : list jstr) :
  Forall (fun a => Forall (fun c => item_char c = true) a) more ->
  forall bol,
  replace_go re_list_mid to_list_mid bol 0
    (flat_map (fun a => [44%N; SQ] ++ a ++ [SQ]) more ++ [93%N])
  = flat_map (fun a => [44%N; DQ] ++ a ++ [DQ]) more ++ [93%N].
Proof.
  intros H. induction H as [|a more Ha _ IH]; intros bol.
  - destruct bol; reflexivity.
  - cbn [flat_map].
    set (rest := flat_map (fun a => [44%N; SQ] ++ a ++ [SQ]) more ++ [93%N]) in *.
    replace ((([44%N; SQ] ++ a ++ [SQ]) ++ flat_map (fun a0 => [44%N; SQ] ++ a0 ++ [SQ]) more)
             ++ [93%N])
      with (44%N :: (SQ :: a ++ [SQ]) ++ rest)
      by (unfold rest; simpl; rewrite <- !app_assoc; reflexivity).
    cbn [replace_go].
    destruct (@mid_rule_item bol a rest Ha) as (cs & Em & Ec).
    replace ((SQ :: a ++ [SQ]) ++ rest) with (SQ :: a ++ SQ :: rest)
      by (simpl; rewrite <- app_assoc; reflexivity).
    rewrite Em. unfold to_list_mid. cbn [expand flat_map]. rewrite Ec.
    replace (length (44%N :: SQ :: a ++ SQ :: rest) - length rest)
      with (S (length (SQ :: a ++ [SQ]))).
    2: { cbn [length]. rewrite !length_app. cbn [length]. lia. }
    cbv iota.
    replace (SQ :: a ++ SQ :: rest) with ((SQ :: a ++ [SQ]) ++ rest)
      by (simpl; rewrite <- app_assoc; reflexivity).
    rewrite replace_go_skip. simpl isEmpty. rewrite andb_false_r.
    rewrite IH. unfold ch. simpl. rewrite <- !app_assoc. reflexivity.
Qed.


Lemma quoted_array_plain (first : jstr) (more : list jstr) :
  Forall (fun a => Forall (fun c => item_char c = true) a) (first :: more) ->
  ~ In SQ (quoted_array DQ first more).
Proof.
  intros H Hin.
  assert (Hitem : forall a, Forall (fun c => item_char c = true) a -> ~ In SQ a).
  { intros a Ha K. rewrite Forall_forall in Ha. specialize (Ha _ K). discriminate. }
  inversion H as [|? ? Hf Hm]; subst.
  unfold quoted_array in Hin. simpl in Hin.
  destruct Hin as [K | [K | Hin]]; try discriminate.
  apply in_app_or in Hin. destruct Hin as [K | [K | Hin]];
    [exact (Hitem _ Hf K) | discriminate |].
  apply in_app_or in Hin. destruct Hin as [Hin | [K | []]]; [| discriminate].
  apply in_flat_map in Hin. destruct Hin as (a & Ha & Hin).
  rewrite Forall_forall in Hm. specialize (Hm _ Ha).
  simpl in Hin. destruct Hin as [K | [K | Hin]]; try discriminate.
  apply in_app_or in Hin. destruct Hin as [K | [K | []]];
    [exact (Hitem _ Hm K) | discriminate].
Qed.

(** The quote repair of lines 66-69 turns the single quotes of such an
    array into double quotes. *)
Lemma jsonLike_quoted_array (first : jstr) (more : list jstr) :
  Forall (fun a => Forall (fun c => item_char c = true) a) (first :: more) ->
  jsonLike (quoted_array SQ first more) = quoted_array DQ first more.
Proof.
  intros H. inversion H as [|? ? Hf Hm]; subst. unfold jsonLike.
  set (items := flat_map (fun a => [44%N; SQ] ++ a ++ [SQ]) more ++ [93%N]).
  assert (E0 : quoted_array SQ first more = 91%N :: SQ :: first ++ SQ :: items).
  { unfold quoted_array, items. simpl. reflexivity. }
  rewrite E0, (start_rule_array items Hf).
  assert (E1 : replaceAll re_list_mid to_list_mid (91%N :: DQ :: first ++ DQ :: items)
               = quoted_array DQ first more).
  { unfold replaceAll.
    replace (91%N :: DQ :: first ++ DQ :: items)
      with ((91%N :: DQ :: first ++ [DQ]) ++ items)
      by (simpl; rewrite <- app_assoc; reflexivity).
    rewrite replace_go_prefix.
    - unfold items. rewrite mid_rule_items by exact Hm.
      unfold quoted_array. simpl. rewrite <- !app_assoc. reflexivity.
    - intros p1 p2 E Hne.
      destruct (match_here re_list_mid (true && isEmpty p1) (p2 ++ items)) as [m|] eqn:Em;
        [| reflexivity].
      exfalso. apply mid_rule_needs in Em. destruct Em as (r & Er).
      destruct p2 as [|c [|d p2]]; [congruence | |].
      + simpl in Er. injection Er as -> _.
        change (91%N :: DQ :: first ++ [DQ]) with ((91%N :: DQ :: first) ++ [DQ]) in E.
        apply app_inj_tail in E. destruct E as [_ E]. discriminate.
      + simpl in Er. injection Er as -> -> _.
        assert (Hin : In SQ (91%N :: DQ :: first ++ [DQ])).
        { rewrite E. apply in_or_app. right. right. left. reflexivity. }
        simpl in Hin. destruct Hin as [K | [K | Hin]]; try discriminate.
        apply in_app_or in Hin. destruct Hin as [K | [K | []]]; [| discriminate].
        rewrite Forall_forall in Hf. specialize (Hf _ K). discriminate. }
  rewrite E1. apply replaceAll_needs with (c := SQ); [reflexivity |].
  apply quoted_array_plain. exact H.
Qed.

Lemma parse_chars_plain (a rest : jstr) :
  Forall (fun c => item_char c = true) a ->
  parse_chars (a ++ DQ :: rest) = POk a rest.
Proof.
  intros H. induction H as [|c a Hc _ IH].
  - reflexivity.
  - apply item_char_spec in Hc. destruct Hc as (_ & H2 & H3 & H4).
    change ((c :: a) ++ DQ :: rest) with (c :: (a ++ DQ :: rest)).
    cbn [parse_chars]. rewrite H2, H3, H4, IH. reflexivity.
Qed.

Lemma parse_string_plain (n : nat) (a rest : jstr) :
  Forall (fun c => item_char c = true) a ->
  parse_value (S n) (DQ :: a ++ DQ :: rest) = POk (JStr a) rest.
Proof.
  intros H. cbn [parse_value]. change (cu_eqb DQ DQ) with true. cbv iota.
  rewrite parse_chars_plain by exact H. reflexivity.
Qed.

Lemma parse_elems_strings (n : nat) (more : list jstr) :
  Forall (fun a => Forall (fun c => item_char c = true) a) more ->
  forall (first : jstr) (m : nat) (tl : jstr),
  Forall (fun c => item_char c = true) first ->
  length more < m ->
  parse_elems (parse_value (S n)) m
    (DQ :: first ++ DQ :: flat_map (fun a => [44%N; DQ] ++ a ++ [DQ]) more ++ 93%N :: tl)
  = POk (JStr first :: map JStr more) tl.
Proof.
  intros H. induction H as [|a more Ha _ IH]; intros first m tl Hf Hm.
  - destruct m as [|m]; [simpl in Hm; lia |].
    cbn [parse_elems flat_map app]. rewrite parse_string_plain by exact Hf.
    reflexivity.
  - destruct m as [|m]; [simpl in Hm; lia |].
    cbn [parse_elems]. rewrite parse_string_plain by exact Hf.
    cbn [flat_map].
    replace ((([44%N; DQ] ++ a ++ [DQ]) ++ flat_map (fun a0 => [44%N; DQ] ++ a0 ++ [DQ]) more)
             ++ 93%N :: tl)
      with (44%N :: DQ :: a ++ DQ :: flat_map (fun a0 => [44%N; DQ] ++ a0 ++ [DQ]) more
                                     ++ 93%N :: tl)
      by (simpl; rewrite <- !app_assoc; reflexivity).
    cbn [skip_ws]. change (isJsonWs 44) with false. cbv iota.
    change (cu_eqb 44 44) with true. cbv iota.
    cbn [skip_ws]. change (isJsonWs DQ) with false. cbv iota.
    rewrite IH; [reflexivity | exact Ha | simpl in Hm; lia].
Qed.

Lemma quoted_array_length (q : cu) (first : jstr) (more : list jstr) :
  length more + 3 <= length (quoted_array q first more).
Proof.
  assert (H : length more <= length (flat_map (fun a => [44%N; q] ++ a ++ [q]) more)).
  { induction more as [|a more IH]; [simpl; lia |].
    cbn [flat_map]. rewrite !length_app. cbn [length]. lia. }
  unfold quoted_array.
  change ([91%N; q] ++ first ++ [q] ++ flat_map (fun a => [44%N; q] ++ a ++ [q]) more ++ [93%N])
    with (91%N :: q :: (first ++ q :: (flat_map (fun a => [44%N; q] ++ a ++ [q]) more ++ [93%N]))).
  cbn [length]. rewrite length_app. cbn [length]. rewrite length_app. cbn [length].
  lia.
Qed.

Lemma parse_array_open (k : nat) (r : jstr) :
  parse_value (S k) (91%N :: DQ :: r)
  = pmap JArr (parse_elems (parse_value k) k (DQ :: r)).
Proof. reflexivity. Qed.

Lemma JSON_parse_quoted_array (first : jstr) (more : list jstr) :
  Forall (fun a => Forall (fun c => item_char c = true) a) (first :: more) ->
  JSON_parse (quoted_array DQ first more) = POk (JArr (map JStr (first :: more))) [].
Proof.
  intros H. inversion H as [|? ? Hf Hm]; subst.
  unfold JSON_parse, JSON_parse_fuel.
  pose proof (quoted_array_length DQ first more) as Hlen.
  set (k := length (quoted_array DQ first more)) in *.
  assert (E : quoted_array DQ first more
              = 91%N :: DQ :: first ++ DQ
                  :: flat_map (fun a => [44%N; DQ] ++ a ++ [DQ]) more ++ 93%N :: [])
    by reflexivity.
  rewrite E.
  change (skip_ws (91%N :: DQ :: first ++ DQ
                     :: flat_map (fun a => [44%N; DQ] ++ a ++ [DQ]) more ++ [93%N]))
    with (91%N :: DQ :: first ++ DQ
            :: flat_map (fun a => [44%N; DQ] ++ a ++ [DQ]) more ++ [93%N]).
  rewrite parse_array_open.
  destruct k as [|k]; [lia |].
  rewrite parse_elems_strings; [reflexivity | exact Hm | exact Hf | lia].
Qed.

Section Quoted.
Context {P : Platform}.

(** X13: an array of strings written with single quotes and
    nothing between a comma and the quote after it is repaired and read as
    JSON: the list holds its items, trimmed, the empty ones left out.  (The
    items hold no quote, no backslash and no control character.) *)
Theorem X13_single_quoted_array_repaired (first : jstr) (more : list jstr) :
  Forall (fun a => Forall (fun c => item_char c = true) a) (first :: more) ->
  jsonLike (quoted_array SQ first more) = quoted_array DQ first more
  /\ normalizeToList_text (quoted_array SQ first more)
     = filter nonEmpty (map trim (first :: more))
  /\ (Forall (fun a => a <> [] /\ trim a = a) (first :: more) ->
      generate_list (quoted_array SQ first more) (Z.of_nat (length (first :: more)))
      = first :: more).
Proof.
  intros H.
  assert (Ej := jsonLike_quoted_array H).
  assert (En : normalizeToList_text (quoted_array SQ first more)
               = filter nonEmpty (map trim (first :: more))).
  { unfold normalizeToList_text.
    assert (Et : trim (quoted_array SQ first more) = quoted_array SQ first more).
    { apply tight_trim. split; [reflexivity |].
      unfold quoted_array. rewrite !rev_app_distr. reflexivity. }
    assert (Es : startsWith (lit "[") (quoted_array SQ first more) = true) by reflexivity.
    assert (Ee : endsWith (lit "]") (quoted_array SQ first more) = true).
    { unfold endsWith, quoted_array. rewrite !rev_app_distr. reflexivity. }
    change (isEmpty (quoted_array SQ first more)) with false. cbv iota.
    rewrite Et, Es, Ee. cbn [andb orb].
    unfold try_json_array. rewrite Ej, (JSON_parse_quoted_array H).
    rewrite mapM_strings. reflexivity. }
  split; [exact Ej |]. split; [exact En |].
  intros Ht. unfold generate_list. rewrite En.
  rewrite map_trim_id by (eapply Forall_impl; [| exact Ht]; intros a Ha; apply Ha).
  rewrite filter_nonEmpty_id by (eapply Forall_impl; [| exact Ht]; intros a Ha; apply Ha).
  unfold resize. rewrite Z.ltb_irrefl. rewrite slice0_nonneg by lia.
  rewrite Nat2Z.id. apply firstn_all.
Qed.

End Quoted.

(** ** Texts without items, prompts and contents that are no text, and the
    key of the token request *)

Lemma hexDigit_unreserved (n : N) : (n < 16)%N -> isUnreserved (hexDigit n) = true.
Proof.
  intros H.
  assert (K : In n [0; 1; 2; 3; 4; 5; 6; 7; 8; 9; 10; 11; 12; 13; 14; 15]%N).
  { simpl. lia. }
  simpl in K.
  repeat (destruct K as [<- | K]; [reflexivity |]). destruct K.
Qed.

Lemma pctByte_chars (b : N) :
  (b < 256)%N -> Forall (fun c => uri_char c = true) (pctByte b).
Proof.
  intros H. unfold pctByte, uri_char.
  assert (H1 : (b / 16 < 16)%N) by (apply N.Div0.div_lt_upper_bound; lia).
  assert (H2 : (b mod 16 < 16)%N) by (apply N.mod_lt; lia).
  repeat constructor.
  - rewrite (hexDigit_unreserved H1). reflexivity.
  - rewrite (hexDigit_unreserved H2). reflexivity.
Qed.

Lemma utf8_bytes (cp : N) :
  (cp < 1114112)%N -> Forall (fun b => (b < 256)%N) (utf8 cp).
Proof.
  intros H. unfold utf8.
  destruct (N.ltb_spec cp 128); [repeat constructor; lia |].
  destruct (N.ltb_spec cp 2048).
  { assert (cp / 64 < 32)%N by (apply N.Div0.div_lt_upper_bound; lia).
    assert (cp mod 64 < 64)%N by (apply N.mod_lt; lia).
    repeat constructor; lia. }
  destruct (N.ltb_spec cp 65536).
  { assert (cp / 4096 < 16)%N by (apply N.Div0.div_lt_upper_bound; lia).
    assert ((cp / 64) mod 64 < 64)%N by (apply N.mod_lt; lia).
    assert (cp mod 64 < 64)%N by (apply N.mod_lt; lia).
    repeat constructor; lia. }
  assert (cp / 262144 < 5)%N by (apply N.Div0.div_lt_upper_bound; lia).
  assert ((cp / 4096) mod 64 < 64)%N by (apply N.mod_lt; lia).
  assert ((cp / 64) mod 64 < 64)%N by (apply N.mod_lt; lia).
  assert (cp mod 64 < 64)%N by (apply N.mod_lt; lia).
  repeat constructor; lia.
Qed.

Lemma escape_chars (cp : N) :
  (cp < 1114112)%N -> Forall (fun c => uri_char c = true) (flat_map pctByte (utf8 cp)).
Proof.
  intros H. assert (K := utf8_bytes H).
  induction K as [|b l Hb _ IH]; [constructor |].
  cbn [flat_map]. apply Forall_app. split; [apply pctByte_chars; exact Hb | exact IH].
Qed.

(** What [encodeURIComponent] returns is made of unreserved characters and
    percent signs, and it fails only on a surrogate without its partner. *)
Lemma encode_chars (n : nat) :
  forall s, length s <= n -> Forall (fun c => (c < 65536)%N) s ->
  (forall e, encodeURIComponent s = Ok e -> Forall (fun c => uri_char c = true) e)
  /\ (Forall (fun c => isHighSurrogate c = false /\ isLowSurrogate c = false) s ->
      exists e, encodeURIComponent s = Ok e).
Proof.
  induction n as [|n IH]; intros s Hn Hs.
  - destruct s; [| simpl in Hn; lia]. split.
    + intros e E. injection E as <-. constructor.
    + intros _. exists []. reflexivity.
  - destruct s as [|c r].
    { split; [intros e E; injection E as <-; constructor | intros _; exists []; reflexivity]. }
    inversion Hs as [|? ? Hc Hr]; subst. simpl in Hn.
    destruct (IH r ltac:(lia) Hr) as [IH1 IH2].
    cbn [encodeURIComponent].
    destruct (isUnreserved c) eqn:Eu.
    + split.
      * intros e E. destruct (encodeURIComponent r) as [e0|]; [| discriminate].
        simpl in E. injection E as <-. constructor.
        -- unfold uri_char. rewrite Eu. reflexivity.
        -- apply IH1. reflexivity.
      * intros Hsur. inversion Hsur; subst.
        destruct IH2 as (e0 & E0); [assumption |]. rewrite E0. eexists. reflexivity.
    + destruct (isLowSurrogate c) eqn:El.
      { split; [discriminate |]. intros Hsur. inversion Hsur as [|? ? [_ K] _]; subst.
        congruence. }
      destruct (isHighSurrogate c) eqn:Eh.
      * split.
        -- destruct r as [|d r']; [discriminate |].
           destruct (isLowSurrogate d) eqn:Ed; [| discriminate].
           inversion Hr as [|? ? Hd Hr']; subst. simpl in Hn.
           destruct (IH r' ltac:(lia) Hr') as [IH1' _].
           intros e E. destruct (encodeURIComponent r') as [e0|]; [| discriminate].
           simpl in E. injection E as <-. apply Forall_app. split; [| apply IH1'; reflexivity].
           apply escape_chars.
           unfold isHighSurrogate in Eh. unfold isLowSurrogate in Ed.
           apply andb_prop in Eh, Ed. destruct Eh as [Eh1 Eh2]. destruct Ed as [Ed1 Ed2].
           apply N.leb_le in Eh1, Eh2, Ed1, Ed2. lia.
        -- intros Hsur. inversion Hsur as [|? ? [K _] _]; subst. congruence.
      * split.
        -- intros e E. destruct (encodeURIComponent r) as [e0|]; [| discriminate].
           simpl in E. injection E as <-. apply Forall_app. split; [| apply IH1; reflexivity].
           apply escape_chars. lia.
        -- intros Hsur. inversion Hsur; subst.
           destruct IH2 as (e0 & E0); [assumption |]. rewrite E0. eexists. reflexivity.
Qed.

Section Edges.
Context {P : Platform}.




(** The conversion to a string fails only with a TypeError. *)
Lemma ToString_throws : forall (v : jsval) (e : exn), ToString v = Throw e -> e = TypeError.
Proof.
  fix IH 1. intros v e. destruct v as [| |b|l|s|l|f]; try discriminate.
  - cbn [ToString].
    match goal with |- ?j l = _ -> _ => set (J := j) end.
    revert e. generalize l. clear l. fix IHr 1. intros l e.
    destruct l as [|x r]; [discriminate |].
    change (J (x :: r))
      with (sx <- match x with
                  | JUndef | JNull => Ok []
                  | _ => ToString x
                  end;;
            match r with
            | [] => Ok sx
            | _ :: _ => sr <- J r;; Ok (sx ++ lit "," ++ sr)
            end).
    assert (Hx : forall e', match x with
                            | JUndef | JNull => Ok []
                            | _ => ToString x
                            end = Throw e' -> e' = TypeError).
    { intros e'. pose proof (IH x e') as K. destruct x; try discriminate; exact K. }
    destruct (match x with JUndef | JNull => Ok [] | _ => ToString x end) as [sx|ex] eqn:Ex.
    + cbn [bind]. pose proof (IHr r) as Hrec. destruct r as [|y r']; [discriminate |].
      destruct (J (y :: r')) as [sr|er] eqn:Er.
      * discriminate.
      * cbn [bind]. intros H. injection H as <-. apply Hrec. reflexivity.
    + cbn [bind]. intros H. injection H as <-. apply Hx. reflexivity.
  - cbn [ToString]. destruct (own (lit "toString") f); intros H; [| discriminate].
    injection H as <-. reflexivity.
Qed.

(** X16: the prompt of a table request is lower-cased
    only when the header fallback runs.  With a prompt that is a text the
    handler answers as above; with any other prompt (or none) it answers
    as for a text, whichever text, when the model gave exactly [cols]
    acceptable headers, and with a TypeError otherwise (rows and cols being
    array lengths: above, the answer is the RangeError of the placeholders
    for every prompt). *)
Theorem X16_prompt_read_by_fallback_only
    (genData text prompt : jsval) (rows cols : Z) :
  extract_text_table genData = Ok text ->
  (forall p, prompt = JStr p ->
     generateTable_request genData prompt rows cols = generateTable genData p rows cols)
  /\ ((forall p, prompt <> JStr p) ->
      let parsed := fst (fst (structured_parse text rows cols)) in
      (Z.of_nat (length parsed) <> cols ->
       (rows <= 4294967295)%Z -> (cols <= 4294967295)%Z ->
       generateTable_request genData prompt rows cols = Status500 TypeError)
      /\ (Z.of_nat (length parsed) = cols ->
          forall s, ToString prompt = Ok s ->
          forall p : jstr,
          generateTable_request genData prompt rows cols
          = generateTable genData p rows cols)).
Proof.
  intros Ht. unfold generateTable_request, generateTable. split.
  - intros p ->. destruct (placeholders rows cols) as [[]|]; [| reflexivity].
    cbn [ToString bind]. rewrite Ht. cbn [bind].
    unfold table_of_request, table_of_text, fallback_headers_of.
    destruct (structured_parse text rows cols) as [[ph pr] c].
    destruct (negb (Z.of_nat (length ph) =? cols)%Z); reflexivity.
  - intros Hp. cbv zeta.
    assert (Hf : fallback_headers_of prompt cols = Throw TypeError).
    { destruct prompt; try reflexivity. exfalso. exact (Hp s eq_refl). }
    split.
    + intros Hne Hr Hc. rewrite placeholders_ok by assumption. cbn [bind].
      destruct (ToString prompt) as [s|e] eqn:Es; cbn [bind respond].
      * rewrite Ht. cbn [bind]. unfold table_of_request. rewrite Hf.
        destruct (structured_parse text rows cols) as [[ph pr] c]. cbn [fst] in Hne.
        apply Z.eqb_neq in Hne. rewrite Hne. reflexivity.
      * rewrite (ToString_throws _ Es). reflexivity.
    + intros He s Es p. destruct (placeholders rows cols) as [[]|]; [| reflexivity].
      cbn [bind]. rewrite Es, Ht. cbn [bind].
      unfold table_of_request, table_of_text. rewrite Hf.
      destruct (structured_parse text rows cols) as [[ph pr] c]. cbn [fst] in He.
      apply Z.eqb_eq in He. rewrite He. reflexivity.
Qed.


(** X18: the key of the token request, whatever characters it
    holds, is written into the form body as [encodeURIComponent] gives it,
    after [apikey=]: unreserved characters and percent escapes, with no
    ampersand and no equals sign, so the body keeps its two fields; a key
    of unreserved characters (letters, digits, - _ . ! ~ * ' ( )) is
    written as it is.  A key without surrogate code units is always
    accepted. *)
Theorem X18_api_key_stays_one_field (key : jstr) :
  Forall (fun c => (c < 65536)%N) key ->
  (forall req, exchange_request (JStr key) = Ok req ->
     exists e,
       encodeURIComponent key = Ok e
       /\ fetch_body req
          = lit "grant_type=urn:ibm:params:oauth:grant-type:apikey&apikey=" ++ e
       /\ Forall (fun c => uri_char c = true) e
       /\ ~ In (ch "&") e /\ ~ In (ch "=") e
       /\ (Forall (fun c => isUnreserved c = true) key -> e = key))
  /\ (Forall (fun c => isHighSurrogate c = false /\ isLowSurrogate c = false) key ->
      exists req, exchange_request (JStr key) = Ok req).
Proof.
  intros Hk. destruct (@encode_chars (length key) key (le_n _) Hk) as [H1 H2].
  unfold exchange_request. cbn [ToString bind]. split.
  - intros req E. destruct (encodeURIComponent key) as [e|] eqn:Ee; [| discriminate].
    cbn [bind] in E. injection E as <-. exists e. cbn [fetch_body].
    split; [reflexivity |]. split; [reflexivity |].
    specialize (H1 e eq_refl). split; [exact H1 |].
    split; [| split].
    + rewrite Forall_forall in H1. intros Hin. specialize (H1 _ Hin). discriminate.
    + rewrite Forall_forall in H1. intros Hin. specialize (H1 _ Hin). discriminate.
    + intros Hu. rewrite (encode_unreserved Hu) in Ee. injection Ee as <-. reflexivity.
  - intros Hs. destruct (H2 Hs) as (e & Ee). rewrite Ee. eexists. reflexivity.
Qed.

(** X19: when the server holds no key and the body names
    none, the handler does not stop: it asks the exchange service for a
    token with the key [undefined]. *)
Theorem X19_missing_key_sent_as_undefined
    (WATSON_API_KEY : option jstr) (fields : list (jstr * jsval)) :
  key_exists WATSON_API_KEY = false ->
  own (lit "apiKey") fields = None ->
  exists req,
    token_request WATSON_API_KEY (JObj fields) = Ok req
    /\ fetch_url req = lit "https://iam.cloud.ibm.com/identity/token"
    /\ fetch_body req
       = lit "grant_type=urn:ibm:params:oauth:grant-type:apikey&apikey=undefined".
Proof.
  intros Hk Ho. unfold token_request, token_apiKey.
  unfold key_exists in Hk. rewrite Hk. cbn [get]. rewrite Ho. cbn [bind].
  eexists. split; [reflexivity |]. split; reflexivity.
Qed.

End Edges.

(** ** Arrays written with single quotes and a space after each comma *)

Lemma follows_found (x y : cu) (p r : jstr) : follows x y (p ++ x :: y :: r) = true.
Proof.
  induction p as [|c p IH].
  - simpl. unfold cu_eqb. rewrite !N.eqb_refl. reflexivity.
  - change ((c :: p) ++ x :: y :: r) with (c :: (p ++ x :: y :: r)).
    cbn [follows]. destruct (p ++ x :: y :: r) eqn:E.
    + destruct p; discriminate.
    + rewrite IH. apply orb_true_r.
Qed.

Lemma follows_skip (x y : cu) (a s : jstr) :
  Forall (fun c => cu_eqb c x = false) a -> follows x y (a ++ s) = follows x y s.
Proof.
  intros H. induction H as [|c a Hc _ IH]; [reflexivity |].
  change ((c :: a) ++ s) with (c :: (a ++ s)). cbn [follows].
  rewrite Hc. cbn [andb orb]. rewrite IH.
  destruct (a ++ s) eqn:E; [| reflexivity].
  apply app_eq_nil in E. destruct E as [_ ->]. reflexivity.
Qed.

(** Line 68 leaves a text in which no comma is directly followed by a
    single quote. *)
Lemma mid_rule_absent (s : jstr) :
  follows 44 SQ s = false -> replaceAll re_list_mid to_list_mid s = s.
Proof.
  intros H. apply replace_go_stays. intros pre s' E.
  destruct (match_here re_list_mid (true && isEmpty pre) s') as [m|] eqn:Em; [| reflexivity].
  exfalso. apply mid_rule_needs in Em. destruct Em as (r & ->).
  rewrite E, follows_found in H. discriminate.
Qed.


Lemma word_char_spec (c : cu) :
  word_char c = true -> item_char c = true /\ cu_eqb c 44 = false.
Proof.
  unfold word_char. intros H. apply andb_prop in H. destruct H as [H1 H2].
  apply negb_true_iff in H2. split; assumption.
Qed.

Lemma word_item (a : jstr) :
  Forall (fun c => word_char c = true) a ->
  Forall (fun c => item_char c = true) a /\ Forall (fun c => cu_eqb c 44 = false) a.
Proof.
  intros H. split; eapply Forall_impl; try exact H; intros c Hc;
    apply word_char_spec in Hc; apply Hc.
Qed.

Lemma join_cons_more (sep x : jstr) (r : list jstr) :
  r <> [] -> join sep (x :: r) = x ++ sep ++ join sep r.
Proof. destruct r; [congruence | reflexivity]. Qed.

Lemma follows_none (x y : cu) (a : jstr) :
  Forall (fun c => cu_eqb c x = false) a -> follows x y a = false.
Proof.
  intros H. rewrite <- (app_nil_r a). rewrite follows_skip by exact H. reflexivity.
Qed.

Lemma follows_cons (x y c d : cu) (r : jstr) :
  follows x y (c :: d :: r) = (cu_eqb c x && cu_eqb d y) || follows x y (d :: r).
Proof. reflexivity. Qed.

Lemma follows_join (P : list jstr) :
  Forall (fun p => Forall (fun c => cu_eqb c 44 = false) p) P ->
  follows 44 SQ (join [44%N; 32%N] P) = false.
Proof.
  intros H. induction H as [|x P Hx HP IH]; [reflexivity |].
  destruct P as [|y P].
  - simpl. apply follows_none. exact Hx.
  - rewrite join_cons_more by discriminate.
    rewrite follows_skip by exact Hx.
    change ([44%N; 32%N] ++ join [44%N; 32%N] (y :: P))
      with (44%N :: ([32%N] ++ join [44%N; 32%N] (y :: P))).
    cbn [app]. rewrite follows_cons.
    change (cu_eqb 32 SQ) with false. rewrite andb_false_r. cbn [orb].
    change (32%N :: join [44%N; 32%N] (y :: P)) with ([32%N] ++ join [44%N; 32%N] (y :: P)).
    rewrite follows_skip by (repeat constructor). exact IH.
Qed.

(** Where line 69 matches: on a single quote. *)
Lemma end_rule_needs (b : bool) (s : jstr) (m : jstr * caps) :
  match_here re_list_end b s = Some m -> exists r, s = SQ :: r.
Proof.
  unfold match_here, re_list_end. destruct s as [|c r]; cbn; [discriminate |].
  destruct (cu_eqb c SQ) eqn:E; [| discriminate].
  apply N.eqb_eq in E. subst c. intros _. exists r. reflexivity.
Qed.

(** A greedy run none of whose stops the continuation accepts fails. *)
Lemma star_greedy_none (R : Type) (k : cclass) (run rest : jstr)
    (cont : bool -> jstr -> option R) :
  Forall (fun c => class_ok k c = true) run ->
  head_fails (class_ok k) rest ->
  (forall u v b, run = u ++ v -> cont b (v ++ rest) = None) ->
  forall bol, star_greedy k bol (run ++ rest) cont = None.
Proof.
  intros Hrun Hrest. induction Hrun as [|c run Hc _ IH]; intros Hcont bol.
  - simpl. pose proof (Hcont [] [] bol eq_refl) as K. simpl in K.
    destruct rest as [|d r]; simpl; [exact K |].
    simpl in Hrest. rewrite Hrest. exact K.
  - change ((c :: run) ++ rest) with (c :: (run ++ rest)). cbn [star_greedy].
    rewrite Hc. rewrite IH.
    + simpl. apply (Hcont [] (c :: run) bol eq_refl).
    + intros u v b E. apply (Hcont (c :: u) v b). rewrite E. reflexivity.
Qed.

(** Line 69 does not match on a quoted item that a comma follows. *)
Lemma end_rule_stops (b : bool) (a rest : jstr) :
  Forall (fun c => item_char c = true) a ->
  match_here re_list_end b (SQ :: a ++ SQ :: 44%N :: rest) = None.
Proof.
  intros Ha. unfold match_here, re_list_end. cbn.
  apply star_greedy_none.
  - apply item_not_quote. exact Ha.
  - reflexivity.
  - intros u v b' E. destruct v as [|c v].
    + reflexivity.
    + assert (Hc : In c a) by (rewrite E; apply in_or_app; right; left; reflexivity).
      rewrite Forall_forall in Ha. specialize (Ha _ Hc).
      apply item_char_spec in Ha. destruct Ha as (H1 & _).
      simpl. rewrite H1. reflexivity.
Qed.

(** A text that opens as an array of a string and a single quote is no
    JSON. *)
Lemma JSON_parse_single_quote (a rest : jstr) :
  Forall (fun c => item_char c = true) a ->
  JSON_parse (91%N :: DQ :: a ++ [DQ; 44%N; 32%N; SQ] ++ rest) = PErr.
Proof.
  intros Ha. unfold JSON_parse, JSON_parse_fuel.
  set (k := length (91%N :: DQ :: a ++ [DQ; 44%N; 32%N; SQ] ++ rest)).
  assert (Hk : 4 <= k).
  { unfold k. cbn [length]. rewrite length_app. cbn [app length]. lia. }
  change (skip_ws (91%N :: DQ :: a ++ [DQ; 44%N; 32%N; SQ] ++ rest))
    with (91%N :: DQ :: a ++ [DQ; 44%N; 32%N; SQ] ++ rest).
  rewrite parse_array_open.
  destruct k as [|[|[|k]]]; try lia.
  change (a ++ [DQ; 44%N; 32%N; SQ] ++ rest) with (a ++ DQ :: 44%N :: 32%N :: SQ :: rest).
  cbn [parse_elems]. rewrite parse_string_plain by exact Ha.
  reflexivity.
Qed.


(** The quote at the start of a text is what the pattern of an edge quote
    takes first. *)
Lemma edge_lead (q : cu) (r : jstr) :
  replace_go (re_edge q) [] true 0 (q :: r) = replace_go (re_edge q) [] false 0 r.
Proof.
  cbn [replace_go].
  assert (E : match_here (re_edge q) true (q :: r) = Some (r, [])).
  { unfold match_here, re_edge. cbn. unfold cu_eqb. rewrite N.eqb_refl. reflexivity. }
  rewrite E. cbn [expand flat_map app].
  replace (length (q :: r) - length r) with 1 by (cbn [length]; lia).
  reflexivity.
Qed.

(** Past the start, the quote that ends the text is the only one taken. *)
Lemma edge_trail (q : cu) (core : jstr) :
  replace_go (re_edge q) [] false 0 (core ++ [q]) = core.
Proof.
  rewrite replace_go_prefix.
  - cbn [andb replace_go].
    assert (E : match_here (re_edge q) false [q] = Some ([], [])).
    { unfold match_here, re_edge. cbn. unfold cu_eqb. rewrite N.eqb_refl. reflexivity. }
    rewrite E. cbn. apply app_nil_r.
  - intros p1 p2 E Hne. cbn [andb].
    destruct (match_here (re_edge q) false (p2 ++ [q])) as [m|] eqn:Em; [| reflexivity].
    exfalso. apply edge_match in Em. destruct Em as [[K _] | K]; [discriminate |].
    destruct p2 as [|c [|d p2]]; [congruence | discriminate | discriminate].
Qed.

(** Past the start, a text that does not end with the quote is kept. *)
Lemma edge_keep (q : cu) (s : jstr) :
  head_fails (fun c => cu_eqb c q) (rev s) ->
  replace_go (re_edge q) [] false 0 s = s.
Proof.
  intros H. rewrite <- (app_nil_r s) at 1. rewrite replace_go_prefix.
  - cbn. apply app_nil_r.
  - intros p1 p2 E Hne. cbn [andb]. rewrite app_nil_r.
    destruct (match_here (re_edge q) false p2) as [m|] eqn:Em; [| reflexivity].
    exfalso. apply edge_match in Em. destruct Em as [[K _] | K]; [discriminate |].
    subst s p2. rewrite rev_app_distr in H. simpl in H.
    unfold cu_eqb in H. rewrite N.eqb_refl in H. discriminate.
Qed.

(** What line 80 leaves of the three kinds of pieces of such an array. *)
Lemma strip_quotes_first (a : jstr) :
  strip_quotes ([91%N] ++ in_quotes a) = [91%N; SQ] ++ a.
Proof.
  unfold strip_quotes. rewrite (@edge_absent DQ).
  - unfold replaceAll.
    change ([91%N] ++ in_quotes a) with ([91%N] ++ ((SQ :: a) ++ [SQ])).
    rewrite replace_go_prefix.
    + cbn [andb isEmpty]. rewrite edge_trail. reflexivity.
    + intros p1 p2 E Hne.
      destruct (match_here (re_edge SQ) (true && isEmpty p1) (p2 ++ (SQ :: a) ++ [SQ]))
        as [m|] eqn:Em; [| reflexivity].
      exfalso. apply edge_match in Em.
      destruct p1 as [|c p1].
      * simpl in E. subst p2. destruct Em as [[_ (r & K)] | K]; discriminate.
      * destruct p1; [| discriminate]. destruct p2; [congruence | discriminate].
  - reflexivity.
  - unfold in_quotes. rewrite !rev_app_distr. reflexivity.
Qed.

Lemma strip_quotes_middle (a : jstr) : strip_quotes (in_quotes a) = a.
Proof.
  unfold strip_quotes. rewrite (@edge_absent DQ).
  - unfold replaceAll, in_quotes. change ([SQ] ++ a ++ [SQ]) with (SQ :: (a ++ [SQ])).
    rewrite edge_lead. apply edge_trail.
  - reflexivity.
  - unfold in_quotes. rewrite !rev_app_distr. reflexivity.
Qed.

Lemma strip_quotes_last (a : jstr) :
  strip_quotes (in_quotes a ++ [93%N]) = a ++ [SQ; 93%N].
Proof.
  unfold strip_quotes. rewrite (@edge_absent DQ).
  - unfold replaceAll, in_quotes.
    replace (([SQ] ++ a ++ [SQ]) ++ [93%N]) with (SQ :: (a ++ [SQ; 93%N]))
      by (simpl; rewrite <- app_assoc; reflexivity).
    rewrite edge_lead. apply edge_keep. rewrite rev_app_distr. reflexivity.
  - reflexivity.
  - rewrite rev_app_distr. reflexivity.
Qed.


(** A piece of such an array holds no comma, no line feed, and is tight. *)
Lemma in_quotes_piece (c : cu) (a : jstr) :
  cu_eqb c SQ = false -> ~ In c a -> ~ In c (in_quotes a).
Proof.
  intros Hc Ha Hin. unfold in_quotes in Hin. simpl in Hin.
  destruct Hin as [K | Hin]; [subst c; discriminate |].
  apply in_app_or in Hin. destruct Hin as [K | [K | []]]; [exact (Ha K) |].
  subst c. discriminate.
Qed.

Lemma word_lacks (c : cu) (a : jstr) :
  (c = 44%N \/ c = 10%N) -> Forall (fun x => word_char x = true) a -> ~ In c a.
Proof.
  intros Hc Ha Hin. rewrite Forall_forall in Ha. specialize (Ha _ Hin).
  apply word_char_spec in Ha. destruct Ha as [H1 H2].
  destruct Hc as [-> | ->]; discriminate.
Qed.

Lemma spaced_pieces_lack (c : cu) (first : jstr) (middle : list jstr) (last : jstr) :
  (c = 44%N \/ c = 10%N) ->
  Forall (fun a => Forall (fun x => word_char x = true) a) (first :: middle ++ [last]) ->
  Forall (fun p => ~ In c p)
         (([91%N] ++ in_quotes first) :: map in_quotes middle ++ [in_quotes last ++ [93%N]]).
Proof.
  intros Hc H. inversion H as [|? ? Hf Hr]; subst.
  apply Forall_app in Hr. destruct Hr as [Hm Hl].
  inversion Hl as [|? ? Hl' _]; subst.
  assert (Hq : cu_eqb c SQ = false) by (destruct Hc as [-> | ->]; reflexivity).
  constructor.
  - intros [K | K]; [destruct Hc as [-> | ->]; discriminate |].
    revert K. apply in_quotes_piece; [exact Hq | apply word_lacks; assumption].
  - apply Forall_app. split.
    + apply Forall_map. eapply Forall_impl; [| exact Hm]. intros a Ha.
      apply in_quotes_piece; [exact Hq | apply word_lacks; assumption].
    + constructor; [| constructor]. intros K. apply in_app_or in K.
      destruct K as [K | [K | []]]; [| destruct Hc as [-> | ->]; discriminate].
      revert K. apply in_quotes_piece; [exact Hq | apply word_lacks; assumption].
Qed.

Lemma spaced_pieces_tight (first : jstr) (middle : list jstr) (last : jstr) :
  Forall (fun p => p <> [] /\ tight p)
         (([91%N] ++ in_quotes first) :: map in_quotes middle ++ [in_quotes last ++ [93%N]]).
Proof.
  constructor.
  - split; [discriminate |]. split; [reflexivity |].
    unfold in_quotes. rewrite !rev_app_distr. reflexivity.
  - apply Forall_app. split.
    + apply Forall_map. apply Forall_forall. intros a _.
      split; [discriminate |]. split; [reflexivity |].
      unfold in_quotes. rewrite !rev_app_distr. reflexivity.
    + constructor; [| constructor].
      split; [discriminate |]. split; [reflexivity |].
      rewrite rev_app_distr. reflexivity.
Qed.

(** The three passes of the quote repair on such an array: the first item
    gets its double quotes, the quote that opens the second item stays. *)
Lemma jsonLike_spaced_array (first second : jstr) (middle : list jstr) (last : jstr) :
  Forall (fun a => Forall (fun x => word_char x = true) a)
         (first :: (second :: middle) ++ [last]) ->
  exists rest,
    jsonLike (spaced_array first (second :: middle) last)
    = 91%N :: DQ :: first ++ [DQ; 44%N; 32%N; SQ] ++ rest.
Proof.
  intros H.
  assert (Hlack := @spaced_pieces_lack 44%N first (second :: middle) last
                     (or_introl eq_refl) H).
  inversion H as [|? ? Hf Hr]; subst. inversion Hr as [|? ? Hs Hr']; subst.
  destruct (word_item Hf) as [Hfi Hfc]. destruct (word_item Hs) as [Hsi Hsc].
  set (tailJ := join [44%N; 32%N] (map in_quotes middle ++ [in_quotes last ++ [93%N]])).
  assert (Hne : map in_quotes middle ++ [in_quotes last ++ [93%N]] <> [])
    by (destruct middle; discriminate).
  assert (E0 : spaced_array first (second :: middle) last
               = 91%N :: SQ :: first
                 ++ SQ :: (44%N :: 32%N :: SQ :: second ++ SQ :: 44%N :: 32%N :: tailJ)).
  { unfold spaced_array. cbn [map app].
    rewrite join_cons_more by discriminate.
    change ((in_quotes second :: map in_quotes middle) ++ [in_quotes last ++ [93%N]])
      with (in_quotes second :: (map in_quotes middle ++ [in_quotes last ++ [93%N]])).
    rewrite join_cons_more by exact Hne.
    fold tailJ. unfold in_quotes. simpl. rewrite <- !app_assoc. reflexivity. }
  unfold jsonLike. rewrite E0. rewrite start_rule_array by exact Hfi.
  rewrite mid_rule_absent.
  - unfold replaceAll.
    replace (91%N :: DQ :: first
             ++ DQ :: 44%N :: 32%N :: SQ :: second ++ SQ :: 44%N :: 32%N :: tailJ)
      with ((91%N :: DQ :: first ++ [DQ; 44%N; 32%N; SQ])
            ++ (second ++ SQ :: 44%N :: 32%N :: tailJ))
      by (simpl; rewrite <- !app_assoc; reflexivity).
    rewrite replace_go_prefix.
    + eexists. simpl. rewrite <- !app_assoc. reflexivity.
    + intros p1 p2 E Hp2.
      destruct (match_here re_list_end (true && isEmpty p1)
                  (p2 ++ second ++ SQ :: 44%N :: 32%N :: tailJ)) as [m|] eqn:Em;
        [| reflexivity].
      exfalso. pose proof Em as Em'. apply end_rule_needs in Em'. destruct Em' as (r & Er).
      destruct p2 as [|c p2]; [congruence |].
      simpl in Er. injection Er as -> _.
      destruct p2 as [|d p2].
      * simpl in Em. rewrite end_rule_stops in Em by exact Hsi. discriminate.
      * assert (Hin : In SQ (removelast (91%N :: DQ :: first ++ [DQ; 44%N; 32%N; SQ]))).
        { rewrite E. rewrite removelast_app by discriminate.
          apply in_or_app. right. left. reflexivity. }
        change (91%N :: DQ :: first ++ [DQ; 44%N; 32%N; SQ])
          with ((91%N :: DQ :: first) ++ [DQ; 44%N; 32%N; SQ]) in Hin.
        rewrite removelast_app in Hin by discriminate.
        apply in_app_or in Hin. simpl in Hin.
        destruct Hin as [[K | [K | K]] | [K | [K | [K | []]]]]; try discriminate.
        rewrite Forall_forall in Hfi. specialize (Hfi _ K). discriminate.
  - replace (91%N :: DQ :: first
             ++ DQ :: 44%N :: 32%N :: SQ :: second ++ SQ :: 44%N :: 32%N :: tailJ)
      with (join [44%N; 32%N]
              ((91%N :: DQ :: first ++ [DQ])
               :: map in_quotes (second :: middle) ++ [in_quotes last ++ [93%N]])).
    + apply follows_join. inversion Hlack as [|? ? _ Hrest]; subst.
      constructor.
      * constructor; [reflexivity |]. constructor; [reflexivity |].
        apply Forall_app. split; [exact Hfc | repeat constructor].
      * eapply Forall_impl; [| exact Hrest]. intros p Hp.
        apply Forall_forall. intros c Hc. unfold cu_eqb. apply N.eqb_neq.
        intros ->. exact (Hp Hc).
    + cbn [map app].
      rewrite join_cons_more by discriminate.
      change ((in_quotes second :: map in_quotes middle) ++ [in_quotes last ++ [93%N]])
        with (in_quotes second :: (map in_quotes middle ++ [in_quotes last ++ [93%N]])).
      rewrite join_cons_more by exact Hne.
      fold tailJ. unfold in_quotes. simpl. rewrite <- !app_assoc. reflexivity.
Qed.


(** Such an array is trimmed already, opens with a bracket and ends with
    one. *)
Lemma spaced_array_shape (first : jstr) (middle : list jstr) (last : jstr) :
  let text := spaced_array first middle last in
  isEmpty text = false /\ trim text = text
  /\ startsWith (lit "[") text = true /\ endsWith (lit "]") text = true.
Proof.
  intros text.
  set (pieces := ([91%N] ++ in_quotes first)
                 :: map in_quotes middle ++ [in_quotes last ++ [93%N]]).
  assert (Etext : text = join [44%N; 32%N] pieces) by reflexivity.
  assert (Hmore : map in_quotes middle ++ [in_quotes last ++ [93%N]] <> [])
    by (destruct middle; discriminate).
  assert (Ehead : text = 91%N :: in_quotes first
                         ++ [44%N; 32%N]
                         ++ join [44%N; 32%N]
                              (map in_quotes middle ++ [in_quotes last ++ [93%N]])).
  { rewrite Etext. unfold pieces. rewrite join_cons_more by exact Hmore. reflexivity. }
  split; [rewrite Ehead; reflexivity |].
  split.
  { rewrite Etext. apply tight_trim, tight_join; [discriminate |].
    apply spaced_pieces_tight. }
  split; [rewrite Ehead; reflexivity |].
  rewrite Etext. unfold pieces.
  change (([91%N] ++ in_quotes first)
          :: map in_quotes middle ++ [in_quotes last ++ [93%N]])
    with ((([91%N] ++ in_quotes first) :: map in_quotes middle)
          ++ [in_quotes last ++ [93%N]]).
  destruct (join_last [44%N; 32%N] (([91%N] ++ in_quotes first) :: map in_quotes middle)
              (in_quotes last ++ [93%N])) as (front & E).
  rewrite E. unfold endsWith. rewrite !rev_app_distr. reflexivity.
Qed.

Lemma map_trim_spaced (w : jstr) (L : list jstr) :
  Forall (fun c => isWhiteSpace c = true) w ->
  Forall (fun p => p <> [] /\ tight p) L ->
  map trim (map (app w) L) = L.
Proof.
  intros Hw HL. induction HL as [|p L [_ Hp] _ IH]; [reflexivity |].
  cbn [map]. rewrite IH. f_equal.
  rewrite <- (app_nil_r p) at 1.
  apply trim_around; [exact Hw | constructor | exact Hp].
Qed.

Section Spaced.
Context {P : Platform}.

(** X20: an array of three or more strings written with
    single quotes, a comma and a space between them, is not repaired: the
    quote repair leaves the quotes of the items in the middle, the text is
    no JSON, and the comma branch splits the raw text, so the first entry
    keeps the opening bracket and its quote, the last one its quote and the
    closing bracket; the empty items in the middle are left out.  (The items
    hold no quote, no comma, no backslash and no control character.) *)
Theorem X20_spaced_array_left_unrepaired (first : jstr) (middle : list jstr) (last : jstr) :
  middle <> [] ->
  Forall (fun a => Forall (fun x => word_char x = true) a) (first :: middle ++ [last]) ->
  try_json_array (spaced_array first middle last) = None
  /\ normalizeToList_text (spaced_array first middle last)
     = ([91%N; SQ] ++ first) :: filter nonEmpty middle ++ [last ++ [SQ; 93%N]].
Proof.
  intros Hm H.
  set (pieces := ([91%N] ++ in_quotes first)
                 :: map in_quotes middle ++ [in_quotes last ++ [93%N]]).
  set (text := spaced_array first middle last).
  assert (Etext : text = join [44%N; 32%N] pieces) by reflexivity.
  assert (Htry : try_json_array text = None).
  { unfold text. destruct middle as [|second middle]; [congruence |].
    destruct (jsonLike_spaced_array H) as (rest & E).
    unfold try_json_array. rewrite E.
    assert (Hf : Forall (fun c => item_char c = true) first).
    { inversion H as [|? ? Hf _]; subst. apply (word_item Hf). }
    rewrite (JSON_parse_single_quote rest Hf). reflexivity. }
  split; [exact Htry |].
  assert (Htight := spaced_pieces_tight first middle last). fold pieces in Htight.
  assert (Hne : pieces <> []) by discriminate.
  destruct (spaced_array_shape first middle last) as (Hte & Et & Hs & He).
  fold text in Hte, Et, Hs, He.
  assert (Hmore : map in_quotes middle ++ [in_quotes last ++ [93%N]] <> [])
    by (destruct middle; discriminate).
  assert (Ehead : text = 91%N :: in_quotes first
                         ++ [44%N; 32%N]
                         ++ join [44%N; 32%N]
                              (map in_quotes middle ++ [in_quotes last ++ [93%N]])).
  { rewrite Etext. unfold pieces. rewrite join_cons_more by exact Hmore. reflexivity. }
  assert (Hcomma : In 44%N text).
  { rewrite Ehead. right. apply in_or_app. right. left. reflexivity. }
  assert (Hnl : ~ In 10%N text).
  { rewrite Etext. intros Hin. apply join_In in Hin.
    destruct Hin as [[K | [K | []]] | (a & Ha & Hc)]; try discriminate.
    pose proof (@spaced_pieces_lack 10%N first middle last (or_intror eq_refl) H) as Hl.
    rewrite Forall_forall in Hl. exact (Hl a Ha Hc). }
  unfold normalizeToList_text. fold text.
  rewrite Hte, Et, Hs, He. cbn [andb orb]. rewrite Htry.
  change (lit ",") with [44%N]. change (ch ",") with 44%N.
  rewrite (In_includes _ _ Hcomma).
  rewrite (@includes_absent 10%N [10%N] text (or_introl eq_refl) Hnl).
  cbn [andb negb].
  rewrite Etext. rewrite split_join.
  - unfold pieces. cbn [hd tl map].
    inversion Htight as [|? ? [_ H1] Hrest]; subst.
    rewrite (@tight_trim ([91%N] ++ in_quotes first) H1).
    rewrite map_trim_spaced by (repeat constructor; assumption).
    rewrite strip_quotes_first. rewrite map_app, map_map. cbn [map].
    rewrite strip_quotes_last.
    rewrite (map_ext _ (fun a => a) strip_quotes_middle), map_id.
    cbn [filter nonEmpty isEmpty app negb]. f_equal.
    rewrite filter_app. f_equal.
    destruct last; reflexivity.
  - exact Hne.
  - apply (@spaced_pieces_lack 44%N first middle last (or_introl eq_refl) H).
  - intros [K | []]. discriminate.
Qed.

End Spaced.


(** ** Two strings in single quotes, a comma and a space between them *)

(** Line 69 on the last item of an array. *)
Lemma end_rule_last (b : bool) (a : jstr) :
  Forall (fun c => item_char c = true) a ->
  exists cs, match_here re_list_end b (SQ :: a ++ [SQ; 93%N]) = Some ([], cs)
             /\ cap 1 cs = a.
Proof.
  intros Ha. unfold match_here, re_list_end. cbn.
  eexists. split.
  - apply star_greedy_run with (run := a) (rest := [SQ; 93%N]).
    + apply item_not_quote. exact Ha.
    + reflexivity.
    + intros b'. reflexivity.
  - cbn [cap Nat.eqb].
    apply (@firstn_consumed _ a [SQ; 93%N]).
Qed.

Lemma jsonLike_spaced_pair (first last : jstr) :
  Forall (fun x => word_char x = true) first ->
  Forall (fun x => word_char x = true) last ->
  jsonLike (spaced_array first [] last)
  = 91%N :: DQ :: first ++ [DQ; 44%N; 32%N] ++ DQ :: last ++ [DQ; 93%N].
Proof.
  intros Hf Hl.
  destruct (word_item Hf) as [Hfi Hfc]. destruct (word_item Hl) as [Hli Hlc].
  assert (E0 : spaced_array first [] last
               = 91%N :: SQ :: first ++ SQ :: (44%N :: 32%N :: SQ :: last ++ [SQ; 93%N])).
  { unfold spaced_array, in_quotes. simpl. rewrite <- !app_assoc. reflexivity. }
  unfold jsonLike. rewrite E0. rewrite start_rule_array by exact Hfi.
  rewrite mid_rule_absent.
  - unfold replaceAll.
    replace (91%N :: DQ :: first ++ DQ :: 44%N :: 32%N :: SQ :: last ++ [SQ; 93%N])
      with ((91%N :: DQ :: first ++ [DQ; 44%N; 32%N]) ++ (SQ :: last ++ [SQ; 93%N]))
      by (simpl; rewrite <- !app_assoc; reflexivity).
    rewrite replace_go_prefix.
    + cbn [andb isEmpty].
      destruct (end_rule_last false Hli) as (cs & Em & Ec).
      set (tail := last ++ [SQ; 93%N]) in *.
      cbn [replace_go]. rewrite Em.
      unfold to_list_end. cbn [expand flat_map]. rewrite Ec.
      replace (length (SQ :: tail) - length (@nil cu)) with (S (length tail))
        by (cbn [length]; lia).
      cbv iota.
      pose proof (replace_go_skip re_list_end [Txt [DQ]; Ref 1; Txt [DQ; ch "]"]]
                    tail [] false) as K.
      rewrite app_nil_r in K. rewrite K.
      unfold ch. simpl. rewrite <- !app_assoc. simpl. reflexivity.
    + intros p1 p2 E Hp2.
      destruct (match_here re_list_end (true && isEmpty p1)
                  (p2 ++ SQ :: last ++ [SQ; 93%N])) as [m|] eqn:Em; [| reflexivity].
      exfalso. apply end_rule_needs in Em. destruct Em as (r & Er).
      destruct p2 as [|c p2]; [congruence |].
      simpl in Er. injection Er as -> _.
      assert (Hin : In SQ (91%N :: DQ :: first ++ [DQ; 44%N; 32%N]))
        by (rewrite E; apply in_or_app; right; left; reflexivity).
      simpl in Hin. destruct Hin as [K | [K | Hin]]; try discriminate.
      apply in_app_or in Hin. simpl in Hin.
      destruct Hin as [K | [K | [K | [K | []]]]]; try discriminate.
      rewrite Forall_forall in Hfi. specialize (Hfi _ K). discriminate.
  - replace (91%N :: DQ :: first ++ DQ :: 44%N :: 32%N :: SQ :: last ++ [SQ; 93%N])
      with (join [44%N; 32%N] [91%N :: DQ :: first ++ [DQ]; in_quotes last ++ [93%N]])
      by (unfold in_quotes; simpl; rewrite <- !app_assoc; reflexivity).
    apply follows_join. constructor; [| constructor; [| constructor]].
    + constructor; [reflexivity |]. constructor; [reflexivity |].
      apply Forall_app. split; [exact Hfc | repeat constructor].
    + unfold in_quotes. apply Forall_app. split; [| repeat constructor].
      constructor; [reflexivity |]. apply Forall_app. split; [exact Hlc | repeat constructor].
Qed.

(** Two strings in double quotes, a comma and a space between them, are a
    JSON array. *)
Lemma JSON_parse_spaced_pair (a b : jstr) :
  Forall (fun c => item_char c = true) a ->
  Forall (fun c => item_char c = true) b ->
  JSON_parse (91%N :: DQ :: a ++ [DQ; 44%N; 32%N] ++ DQ :: b ++ [DQ; 93%N])
  = POk (JArr [JStr a; JStr b]) [].
Proof.
  intros Ha Hb. unfold JSON_parse, JSON_parse_fuel.
  set (k := length (91%N :: DQ :: a ++ [DQ; 44%N; 32%N] ++ DQ :: b ++ [DQ; 93%N])).
  assert (Hk : 5 <= k).
  { unfold k. cbn [length]. rewrite length_app. cbn [app length]. lia. }
  change (skip_ws (91%N :: DQ :: a ++ [DQ; 44%N; 32%N] ++ DQ :: b ++ [DQ; 93%N]))
    with (91%N :: DQ :: a ++ [DQ; 44%N; 32%N] ++ DQ :: b ++ [DQ; 93%N]).
  rewrite parse_array_open.
  destruct k as [|[|[|[|k]]]]; try lia.
  change (a ++ [DQ; 44%N; 32%N] ++ DQ :: b ++ [DQ; 93%N])
    with (a ++ DQ :: 44%N :: 32%N :: DQ :: b ++ DQ :: [93%N]).
  cbn [parse_elems]. rewrite parse_string_plain by exact Ha.
  cbn [skip_ws]. change (isJsonWs 44) with false. cbv iota.
  change (cu_eqb 44 44) with true. cbv iota.
  cbn [skip_ws]. change (isJsonWs 32) with true. cbv iota.
  cbn [skip_ws]. change (isJsonWs DQ) with false. cbv iota.
  cbn [parse_elems]. rewrite parse_string_plain by exact Hb.
  reflexivity.
Qed.

Section Pair.
Context {P : Platform}.

(** X21: an array of two strings written with single
    quotes, a comma and a space between them, is repaired and read as JSON:
    the list holds the two items, trimmed, an empty one left out.  (The
    items hold no quote, no comma, no backslash and no control
    character.) *)
Theorem X21_spaced_pair_repaired (first last : jstr) :
  Forall (fun x => word_char x = true) first ->
  Forall (fun x => word_char x = true) last ->
  normalizeToList_text (spaced_array first [] last)
  = filter nonEmpty [trim first; trim last].
Proof.
  intros Hf Hl. unfold normalizeToList_text.
  destruct (spaced_array_shape first [] last) as (Hte & Et & Hs & He).
  rewrite Hte, Et, Hs, He. cbn [andb orb].
  unfold try_json_array. rewrite (jsonLike_spaced_pair Hf Hl).
  rewrite (JSON_parse_spaced_pair (proj1 (word_item Hf)) (proj1 (word_item Hl))).
  rewrite (mapM_strings [first; last]). reflexivity.
Qed.

End Pair.

(** * Evaluated instances

    The theorems applied to concrete requests, and the concrete requests on
    which the specification and the code part, on the reference platform. *)

#[local] Existing Instance reference.

Lemma not_In_existsb (c : cu) (s : jstr) : existsb (N.eqb c) s = false -> ~ In c s.
Proof.
  intros H Hin. assert (E : existsb (N.eqb c) s = true).
  { apply existsb_exists. exists c. split; [assumption | apply N.eqb_refl]. }
  congruence.
Qed.


(** C2 at a text that is no JSON, rows 2 and cols 3. *)
Lemma C2_table_dimensions_witness :
  (0 <= 2 <= 4294967295)%Z /\ (0 <= 3 <= 4294967295)%Z
  /\ exists t,
       generateTable (chat_envelope (lit "not json")) (lit "user management system") 2 3
       = Json200 t
       /\ length (tbl_headers t) = 3
       /\ length (tbl_rows t) = 2
       /\ Forall (fun row => length row = 3 /\ Forall (fun x => x <> None) row)
                 (tbl_rows t).
Proof.
  assert (Hr : (0 <= 2 <= 4294967295)%Z) by lia.
  assert (Hc : (0 <= 3 <= 4294967295)%Z) by lia.
  split; [exact Hr |]. split; [exact Hc |].
  destruct (@C2_table_dimensions reference (JStr (lit "not json"))
              (lit "user management system") 2 3 Hr Hc)
    as (t & _ & Hg & H1 & H2 & H3).
  exists t. split; [apply Hg; reflexivity |].
  split; [exact H1 |]. split; [exact H2 | exact H3].
Defined.

(** C3 at a chat envelope whose text is no JSON. *)
Lemma C3_parse_failure_not_surfaced_witness :
  extract_text_table (chat_envelope (lit "not json")) = Ok (JStr (lit "not json"))
  /\ exists t,
       generateTable (chat_envelope (lit "not json")) (lit "orders") 2 2 = Json200 t
       /\ full_fallback (lit "orders") 2 2 = Ok t.
Proof.
  assert (Hx : extract_text_table (chat_envelope (lit "not json"))
               = Ok (JStr (lit "not json"))) by reflexivity.
  split; [exact Hx |].
  destruct (@C3_parse_failure_not_surfaced reference _ _ (lit "orders") 2 2 Hx)
    as (Hres & _ & Hfail & _).
  destruct (Hres ltac:(lia) ltac:(lia)) as (t & Et & Eg).
  exists t. split; [exact Eg |].
  destruct (Hfail (Error (lit "Failed to parse JSON after cleanup"))
              ltac:(vm_compute; reflexivity)) as [_ Ht].
  rewrite <- Ht. exact Et.
Defined.


(** C5: the rule of line 456 is never reached.  A column whose lower-cased
    header is exactly [status] is answered by the rule of line 433, which
    comes first: on every platform, for every row, its cell is [Active] or
    [Inactive] by the parity of the row, never [Up] or [Down].  So it is in
    the table synthesized for the prompt [server uptime] and 8 columns,
    whose last header is [Status]. *)
Theorem C5_status_alone_is_parity :
  (forall (P : Platform) (name : jstr) (r c : Z) (n : nat),
     synth_cell name r c (lit "status") n
     = (Some (if (r mod 2 =? 0)%Z then lit "Active" else lit "Inactive"), n))
  /\ exists t,
       table_of_text (JStr (lit "not json")) (lit "server uptime") 3 8 = Ok t
       /\ nth_error (tbl_headers t) 7 = Some (lit "Status")
       /\ map (fun row => nth_error row 7) (tbl_rows t)
          = [Some (Some (lit "Active")); Some (Some (lit "Inactive"));
             Some (Some (lit "Active"))].
Proof.
  split.
  - intros P name r c n. reflexivity.
  - eexists. split; [vm_compute; reflexivity |]. split; reflexivity.
Qed.

(** C6 at the prompt [Sales report] and cols 16. *)
Lemma C6_header_fallback_witness :
  (0 <= 16)%Z
  /\ fallback_headers (lit "Sales report") 16
     = orderBase ++ orderExtras ++ [lit "Column 15"; lit "Column 16"]
  /\ length (fallback_headers (lit "Sales report") 16) = 16.
Proof.
  assert (H : (0 <= 16)%Z) by lia.
  split; [exact H |].
  destruct (@C6_header_fallback reference (lit "Sales report") 16 H) as [E L].
  split; [| exact L].
  rewrite E. vm_compute. reflexivity.
Defined.

(** C8 at a JSON array of three names with apostrophes and count 2. *)
Lemma C8_json_array_prefix_witness :
  JSON_parse (bq "[`it's`, `O'Brien`, `Men's Shoes`]")
  = POk (JArr (map JStr [lit "it's"; lit "O'Brien"; lit "Men's Shoes"])) []
  /\ jsonLike (trim (bq "[`it's`, `O'Brien`, `Men's Shoes`]"))
     = trim (bq "[`it's`, `O'Brien`, `Men's Shoes`]")
  /\ Forall (fun s => s <> [] /\ trim s = s) [lit "it's"; lit "O'Brien"; lit "Men's Shoes"]
  /\ (0 <= 2 <= Z.of_nat (length [lit "it's"; lit "O'Brien"; lit "Men's Shoes"]))%Z
  /\ generate_list (bq "[`it's`, `O'Brien`, `Men's Shoes`]") 2
     = [lit "it's"; lit "O'Brien"].
Proof.
  assert (Hp : JSON_parse (bq "[`it's`, `O'Brien`, `Men's Shoes`]")
               = POk (JArr (map JStr [lit "it's"; lit "O'Brien"; lit "Men's Shoes"])) [])
    by (vm_compute; reflexivity).
  assert (Hq : jsonLike (trim (bq "[`it's`, `O'Brien`, `Men's Shoes`]"))
               = trim (bq "[`it's`, `O'Brien`, `Men's Shoes`]"))
    by (vm_compute; reflexivity).
  assert (HL : Forall (fun s => s <> [] /\ trim s = s)
                 [lit "it's"; lit "O'Brien"; lit "Men's Shoes"])
    by (repeat constructor; (discriminate || (vm_compute; reflexivity))).
  assert (Hc : (0 <= 2 <= Z.of_nat (length [lit "it's"; lit "O'Brien"; lit "Men's Shoes"]))%Z)
    by (vm_compute; split; discriminate).
  repeat (split; [assumption |]).
  exact (@C8_json_array_prefix reference _ _ 2 Hp Hq HL Hc).
Defined.

(** C9 at the output of the pipeline on [it's, O'Brien] with count 3. *)
Lemma C9_renormalize_witness :
  (0 <= 3)%Z
  /\ JSON_parse (bq "[`it's`,`O'Brien`,`it's`]")
     = POk (JArr (map JStr (generate_list (lit "it's, O'Brien") 3))) []
  /\ jsonLike (trim (bq "[`it's`,`O'Brien`,`it's`]")) = trim (bq "[`it's`,`O'Brien`,`it's`]")
  /\ Forall (fun s => trim s = s) (generate_list (lit "it's, O'Brien") 3)
  /\ generate_list (bq "[`it's`,`O'Brien`,`it's`]") 3
     = generate_list (lit "it's, O'Brien") 3.
Proof.
  assert (Hc : (0 <= 3)%Z) by lia.
  assert (Hp : JSON_parse (bq "[`it's`,`O'Brien`,`it's`]")
               = POk (JArr (map JStr (generate_list (lit "it's, O'Brien") 3))) [])
    by (vm_compute; reflexivity).
  assert (Hq : jsonLike (trim (bq "[`it's`,`O'Brien`,`it's`]"))
               = trim (bq "[`it's`,`O'Brien`,`it's`]"))
    by (vm_compute; reflexivity).
  assert (Ht : Forall (fun s => trim s = s) (generate_list (lit "it's, O'Brien") 3))
    by (vm_compute; repeat constructor).
  repeat (split; [assumption |]).
  exact (@C9_renormalize reference (lit "it's, O'Brien") 3
           (bq "[`it's`,`O'Brien`,`it's`]") Hc Hp Hq Ht).
Defined.

(** C10 at a server key and two bodies with a key of their own. *)
Lemma C10_token_key_witness :
  lit "server-key" <> []
  /\ token_request (Some (lit "server-key")) (JObj [(lit "apiKey", JStr (lit "mine"))])
     = token_request (Some (lit "server-key")) (JObj [(lit "apiKey", JStr (lit "yours"))])
  /\ exists req,
       token_request (Some (lit "server-key")) (JObj [(lit "apiKey", JStr (lit "mine"))])
       = Ok req
       /\ fetch_body req
          = lit "grant_type=urn:ibm:params:oauth:grant-type:apikey&apikey=server-key".
Proof.
  assert (H : lit "server-key" <> []) by discriminate.
  split; [exact H |].
  destruct (@C10_token_key reference (lit "server-key")
              [(lit "apiKey", JStr (lit "mine"))] [(lit "apiKey", JStr (lit "yours"))] H)
    as (E1 & _ & E3 & _).
  split; [exact E1 |].
  destruct E3 as (req & Er & _ & Eb); [repeat constructor |].
  exists req. split; [exact Er | exact Eb].
Defined.

(** C2 fails as stated: with rows, or cols, above the greatest array
    length (here 4294967296) the handler makes no table; [Array.from]
    throws a RangeError and the answer is the 500 of the [catch]. *)
Lemma C2_counterexample :
  (0 <= 4294967296)%Z
  /\ generateTable (chat_envelope (lit "not json")) (lit "users") 4294967296 1
     = Status500 RangeError
  /\ generateTable (chat_envelope (lit "not json")) (lit "users") 1 4294967296
     = Status500 RangeError
  /\ table_of_text (JStr (lit "not json")) (lit "users") 4294967296 1
     = Throw RangeError.
Proof. repeat split; vm_compute; (reflexivity || discriminate). Qed.


(** C8 fails as stated, in three ways, each on a well-formed array of
    distinct strings: a string with a leading space comes back trimmed; an
    empty string is left out; and an array in which the list-end rule of
    the quote repair matches (a quoted word before a closing bracket, inside
    a string) is no JSON after the repair and comes back whole as one
    entry. *)
Lemma C8_counterexample :
  (JSON_parse (bq "[` a`, `b`]") = POk (JArr (map JStr [lit " a"; lit "b"])) []
   /\ NoDup [lit " a"; lit "b"]
   /\ generate_list (bq "[` a`, `b`]") 2 = [lit "a"; lit "b"]
   /\ generate_list (bq "[` a`, `b`]") 2 <> firstn 2 [lit " a"; lit "b"])
  /\ (JSON_parse (bq "[``, `a`]") = POk (JArr (map JStr [[]; lit "a"])) []
      /\ NoDup [[]; lit "a"]
      /\ generate_list (bq "[``, `a`]") 1 = [lit "a"]
      /\ generate_list (bq "[``, `a`]") 1 <> firstn 1 [[]; lit "a"])
  /\ (JSON_parse (bq "[`dict['key']`]") = POk (JArr (map JStr [lit "dict['key']"])) []
      /\ jsonLike (bq "[`dict['key']`]") = bq "[`dict[`key`]`]"
      /\ generate_list (bq "[`dict['key']`]") 1 = [bq "[`dict['key']`]"]
      /\ generate_list (bq "[`dict['key']`]") 1 <> firstn 1 [lit "dict['key']"]).
Proof.
  split; [| split].
  - split; [vm_compute; reflexivity |].
    split; [repeat constructor; cbn; intuition discriminate |].
    split; vm_compute; [reflexivity | discriminate].
  - split; [vm_compute; reflexivity |].
    split; [repeat constructor; cbn; intuition discriminate |].
    split; vm_compute; [reflexivity | discriminate].
  - split; [vm_compute; reflexivity |].
    split; [vm_compute; reflexivity |].
    split; vm_compute; [reflexivity | discriminate].
Qed.

(** C9 fails as stated, in two ways.  The pipeline returns the one-entry
    list of the text x'']; fed the JSON array of that list it returns
    another list (the list-end rule of the quote repair breaks the array,
    and the whole text comes back as the one entry), and fed the list itself
    it throws.  And the comma branch, which strips a quote after it trimmed,
    returns an entry with a leading space, which the second run trims. *)
Lemma C9_counterexample :
  (generate_list (lit "x'']") 1 = [lit "x'']"]
   /\ JSON_parse (bq "[`x'']`]") = POk (JArr (map JStr [lit "x'']"])) []
   /\ generate_list (bq "[`x'']`]") 1 = [bq "[`x'']`]"]
   /\ generate_list (bq "[`x'']`]") 1 <> generate_list (lit "x'']") 1
   /\ normalizeToList (JArr (map JStr [lit "x'']"])) = Throw TypeError)
  /\ (generate_list (bq "` a`, b") 2 = [lit " a"; lit "b"]
      /\ JSON_parse (bq "[` a`,`b`]") = POk (JArr (map JStr [lit " a"; lit "b"])) []
      /\ jsonLike (bq "[` a`,`b`]") = bq "[` a`,`b`]"
      /\ generate_list (bq "[` a`,`b`]") 2 = [lit "a"; lit "b"]
      /\ generate_list (bq "[` a`,`b`]") 2 <> generate_list (bq "` a`, b") 2).
Proof. repeat split; vm_compute; (reflexivity || discriminate). Qed.

(** C10 fails as stated: with WATSON_API_KEY set, to the empty string, two
    bodies that differ only in apiKey give two different requests, each
    with the key of its body. *)
Lemma C10_counterexample :
  token_request (Some []) (JObj [(lit "apiKey", JStr (lit "mine"))])
  <> token_request (Some []) (JObj [(lit "apiKey", JStr (lit "yours"))])
  /\ exists req,
       token_request (Some []) (JObj [(lit "apiKey", JStr (lit "mine"))]) = Ok req
       /\ fetch_body req
          = lit "grant_type=urn:ibm:params:oauth:grant-type:apikey&apikey=mine".
Proof.
  split; [vm_compute; discriminate |].
  eexists. split; [vm_compute; reflexivity | reflexivity].
Qed.

(** ** The further properties on concrete requests *)

(** X1 at a table of two people. *)
Lemma X1_conforming_table_unchanged_witness :
  let text :=
    bq "{`headers`: [`Name`, `City`], `rows`: [[`Ann`, `Oslo`], [`Bob`, `Rome`]]}" in
  let H := [lit "Name"; lit "City"] in
  let R := [[lit "Ann"; lit "Oslo"]; [lit "Bob"; lit "Rome"]] in
  let obj := JObj [(lit "headers", JArr (map JStr H)); (lit "rows", rows_value R)] in
  JSON_parse (cleanText text) = POk obj []
  /\ Forall (fun x => header_ok x = true) H
  /\ Forall (fun r => length r = length H) R
  /\ (Z.of_nat (length R) <= 4294967295)%Z
  /\ table_of_text (JStr text) (lit "people") 2 2
     = Ok {| tbl_headers := H; tbl_rows := map (map Some) R |}.
Proof.
  cbv zeta.
  assert (Hp : JSON_parse (cleanText (bq "{`headers`: [`Name`, `City`], `rows`: [[`Ann`, `Oslo`], [`Bob`, `Rome`]]}"))
               = POk (JObj [(lit "headers", JArr (map JStr [lit "Name"; lit "City"]));
                            (lit "rows", rows_value [[lit "Ann"; lit "Oslo"]; [lit "Bob"; lit "Rome"]])]) [])
    by (vm_compute; reflexivity).
  assert (Hok : Forall (fun x => header_ok x = true) [lit "Name"; lit "City"])
    by (repeat constructor).
  assert (Hw : Forall (fun r : list (list N) => length r = length [lit "Name"; lit "City"])
                      [[lit "Ann"; lit "Oslo"]; [lit "Bob"; lit "Rome"]])
    by (repeat constructor).
  assert (Hlen : (Z.of_nat (length [[lit "Ann"; lit "Oslo"]; [lit "Bob"; lit "Rome"]])
                  <= 4294967295)%Z) by (vm_compute; discriminate).
  split; [exact Hp |]. split; [exact Hok |]. split; [exact Hw |]. split; [exact Hlen |].
  exact (@X1_conforming_table_unchanged reference _ _ _ _ (lit "people")
           Hp eq_refl eq_refl Hok Hw Hlen).
Defined.

(** X2 at a table with a header in brackets and one row where two were
    asked for. *)
Lemma X2_table_kept_or_replaced_witness :
  let text := bq "{`headers`: [`A`, `[B]`, `C`], `rows`: [[`1`]]}" in
  (0 <= 2 <= 4294967295)%Z /\ (0 < 2 <= 4294967295)%Z
  /\ exists t,
       table_of_text (JStr text) (lit "things") 2 2 = Ok t
       /\ tbl_headers t = [lit "A"; lit "C"]
       /\ Ok (tbl_rows t) = fallback_rows [lit "A"; lit "C"] 2 2.
Proof.
  cbv zeta.
  assert (Hr : (0 <= 2 <= 4294967295)%Z) by lia.
  assert (Hc : (0 < 2 <= 4294967295)%Z) by lia.
  split; [exact Hr |]. split; [exact Hc |].
  destruct (@X2_table_kept_or_replaced reference
              (bq "{`headers`: [`A`, `[B]`, `C`], `rows`: [[`1`]]}")
              (JObj [(lit "headers", JArr (map JStr [lit "A"; lit "[B]"; lit "C"]));
                     (lit "rows", rows_value [[lit "1"]])])
              [lit "A"; lit "[B]"; lit "C"] [[lit "1"]] (lit "things") 2 2
              ltac:(vm_compute; reflexivity) eq_refl eq_refl Hr Hc) as (t & Et & E1 & E2).
  exists t. split; [exact Et |].
  assert (E1' : tbl_headers t = [lit "A"; lit "C"]) by (rewrite E1; reflexivity).
  split; [exact E1' |].
  rewrite E2, E1'. reflexivity.
Defined.

(** X3 at two rows of which the second is a string. *)
Lemma X3_model_rows_all_kept_witness :
  clean_rows [JArr [JStr (lit "x")]; JStr (lit "oops")] 5 2
  = Ok [[lit "x"; []]; [[]; []]]
  /\ (0 < 2)%Z /\ (0 <= 5)%Z
  /\ length [[lit "x"; []]; [[]; @nil N]] = Nat.min (Z.to_nat 5) 2
  /\ nth_error [[lit "x"; []]; [[]; @nil N]] 1 = Some (repeat [] (Z.to_nat 2)).
Proof.
  assert (H : clean_rows [JArr [JStr (lit "x")]; JStr (lit "oops")] 5 2
              = Ok [[lit "x"; []]; [[]; []]]) by (vm_compute; reflexivity).
  assert (Hc : (0 < 2)%Z) by lia.
  assert (Hr : (0 <= 5)%Z) by lia.
  split; [exact H |]. split; [exact Hc |]. split; [exact Hr |].
  destruct (@X3_model_rows_all_kept reference _ _ _ _ H Hc Hr) as [E1 E2].
  split; [exact E1 |].
  apply (E2 1 (JStr (lit "oops"))); [vm_compute; lia | reflexivity | reflexivity].
Defined.

(** X4 at a fenced table with the tag [json]. *)
Lemma X4_fence_is_transparent_witness :
  let body := bq "{`headers`: [`A`], `rows`: [[`1`]]}" ++ [10%N] in
  Forall (fun c => isLetter c = true) (lit "json")
  /\ cleanText (fenced (lit "json") body) = trim body
  /\ table_of_text (JStr (fenced (lit "json") body)) (lit "things") 1 1
     = table_of_text (JStr body) (lit "things") 1 1.
Proof.
  cbv zeta.
  assert (H : Forall (fun c => isLetter c = true) (lit "json")) by (repeat constructor).
  split; [exact H |].
  destruct (@X4_fence_is_transparent reference (lit "json")
              (bq "{`headers`: [`A`], `rows`: [[`1`]]}" ++ [10%N]) (lit "things") 1 1 H)
    as [E1 E2].
  split; [exact E1 |].
  apply E2; vm_compute; reflexivity.
Defined.

(** X6 at a prompt about fruit and a text that is no JSON. *)
Lemma X6_generic_table_without_keywords_witness :
  Forall (fun kw => has (toLowerCase (lit "Kinds of fruit")) kw = false) prompt_keywords
  /\ structured_parse (JStr (lit "no table here")) 2 2
     = ([], [], Caught (Error (lit "Failed to parse JSON after cleanup")))
  /\ (0 <= 2 <= 4294967295)%Z
  /\ table_of_text (JStr (lit "no table here")) (lit "Kinds of fruit") 2 2
     = Ok {| tbl_headers := [lit "Column 1"; lit "Column 2"];
             tbl_rows := [[Some (lit "Value 1-1"); Some (lit "Value 1-2")];
                          [Some (lit "Value 2-1"); Some (lit "Value 2-2")]] |}.
Proof.
  assert (Hk : Forall (fun kw => has (toLowerCase (lit "Kinds of fruit")) kw = false)
                      prompt_keywords) by (repeat constructor).
  assert (Hs : structured_parse (JStr (lit "no table here")) 2 2
               = ([], [], Caught (Error (lit "Failed to parse JSON after cleanup"))))
    by (vm_compute; reflexivity).
  assert (Hb : (0 <= 2 <= 4294967295)%Z) by lia.
  split; [exact Hk |]. split; [exact Hs |]. split; [exact Hb |].
  exact (proj1 (@X6_generic_table_without_keywords reference (fun s _ => eq_refl)
                  (JStr (lit "no table here")) (lit "Kinds of fruit") 2 2 _ Hk Hs
                  Hb Hb)).
Defined.

(** X8 at the second row of a table of names, user names and e-mails. *)
Lemma X8_row_identity_shared_witness :
  (2 <= 4294967295)%Z /\ (Z.of_nat 1 < 2)%Z
  /\ exists body first last,
       fallback_rows [lit "Name"; lit "Username"; lit "Email"] 2 3 = Ok body
       /\ In first firstNames /\ In last lastNames
       /\ cell_at body 1 2
          = Some (Some (usernameFrom (first ++ lit " " ++ last) ++ lit "2@example.com")).
Proof.
  assert (Hm : (2 <= 4294967295)%Z) by lia.
  assert (Hr : (Z.of_nat 1 < 2)%Z) by (vm_compute; reflexivity).
  split; [exact Hm |]. split; [exact Hr |].
  destruct (@X8_row_identity_shared reference
              [lit "Name"; lit "Username"; lit "Email"] 2 3 1 Hm Hr)
    as (body & f & l & Eb & Hf & Hl & H).
  exists body, f, l. split; [exact Eb |]. split; [exact Hf |]. split; [exact Hl |].
  destruct (H 2 ltac:(vm_compute; reflexivity) eq_refl) as (_ & _ & H3).
  exact (H3 eq_refl eq_refl eq_refl).
Defined.

(** X11 at three fruits. *)
Lemma X11_comma_list_round_trip_witness :
  normalizeToList_text (lit "apple, banana split, cherry")
  = [lit "apple"; lit "banana split"; lit "cherry"]
  /\ generate_list (lit "apple, banana split, cherry") 3
     = [lit "apple"; lit "banana split"; lit "cherry"].
Proof.
  apply (@X11_comma_list_round_trip reference
           [lit "apple"; lit "banana split"; lit "cherry"] (lit " ")).
  - vm_compute. lia.
  - repeat constructor; try discriminate; try reflexivity;
      apply not_In_existsb; reflexivity.
  - repeat constructor.
  - apply not_In_existsb. reflexivity.
  - reflexivity.
Defined.

(** X12 at a dashed line and a numbered line. *)
Lemma X12_marked_lines_round_trip_witness :
  join [10%N] (map line_of [(lit "- ", lit "apple"); (lit "2) ", lit "pear, ripe")])
  = lit "- apple" ++ [10%N] ++ lit "2) pear, ripe"
  /\ normalizeToList_text (lit "- apple" ++ [10%N] ++ lit "2) pear, ripe")
     = [lit "apple"; lit "pear, ripe"].
Proof.
  split; [reflexivity |].
  apply (@X12_marked_lines_round_trip reference
           [(lit "- ", lit "apple"); (lit "2) ", lit "pear, ripe")]).
  - vm_compute. lia.
  - repeat constructor; try discriminate; try reflexivity;
      apply not_In_existsb; reflexivity.
  - reflexivity.
Defined.


(** X16 at a request without prompt and a model text that is no JSON. *)
Lemma X16_prompt_read_by_fallback_only_witness :
  extract_text_table (chat_envelope (lit "not json")) = Ok (JStr (lit "not json"))
  /\ generateTable_request (chat_envelope (lit "not json")) JUndef 1 1
     = Status500 TypeError.
Proof.
  split; [reflexivity |].
  apply (@X16_prompt_read_by_fallback_only reference
           (chat_envelope (lit "not json")) (JStr (lit "not json")) JUndef 1 1 eq_refl).
  - discriminate.
  - vm_compute. discriminate.
  - lia.
  - lia.
Defined.

(** X18 at a key that holds an ampersand and an equals sign. *)
Lemma X18_api_key_stays_one_field_witness :
  Forall (fun c => (c < 65536)%N) (lit "a&b=c")
  /\ exists req, exchange_request (JStr (lit "a&b=c")) = Ok req
       /\ fetch_body req
          = lit "grant_type=urn:ibm:params:oauth:grant-type:apikey&apikey=a%26b%3Dc".
Proof.
  assert (H : Forall (fun c => (c < 65536)%N) (lit "a&b=c"))
    by (repeat constructor).
  split; [exact H |].
  destruct (@X18_api_key_stays_one_field reference (lit "a&b=c") H) as [_ H2].
  destruct H2 as (req & E); [repeat constructor |].
  exists req. split; [exact E |].
  vm_compute in E. injection E as <-. reflexivity.
Defined.

(** X19 at an empty body and no server key. *)
Lemma X19_missing_key_sent_as_undefined_witness :
  key_exists None = false /\ own (lit "apiKey") [] = None
  /\ exists req,
       token_request None (JObj []) = Ok req
       /\ fetch_body req
          = lit "grant_type=urn:ibm:params:oauth:grant-type:apikey&apikey=undefined".
Proof.
  split; [reflexivity |]. split; [reflexivity |].
  destruct (@X19_missing_key_sent_as_undefined reference None [] eq_refl eq_refl)
    as (req & E & _ & Eb).
  exists req. split; assumption.
Defined.

(** X7 at a prompt about user accounts, two rows asked for, the second
    row. *)
Lemma X7_user_table_witness :
  has (toLowerCase (lit "User accounts")) "user" = true
  /\ structured_parse (JStr (lit "no table here")) 2 6
     = ([], [], Caught (Error (lit "Failed to parse JSON after cleanup")))
  /\ (2 <= 4294967295)%Z /\ (Z.of_nat 1 < 2)%Z
  /\ exists t,
       table_of_text (JStr (lit "no table here")) (lit "User accounts") 2 6 = Ok t
       /\ tbl_headers t
          = [lit "User ID"; lit "Name"; lit "Email"; lit "Role"; lit "Department";
             lit "Status"]
       /\ exists first last role dept,
            nth_error (tbl_rows t) 1
            = Some [Some (lit "USR-1001"); Some (first ++ lit " " ++ last);
                    Some (usernameFrom (first ++ lit " " ++ last) ++ lit "2@example.com");
                    Some role; Some dept; Some (lit "Inactive")].
Proof.
  assert (Hu : has (toLowerCase (lit "User accounts")) "user" = true) by reflexivity.
  assert (Hs : structured_parse (JStr (lit "no table here")) 2 6
               = ([], [], Caught (Error (lit "Failed to parse JSON after cleanup"))))
    by (vm_compute; reflexivity).
  assert (Hm : (2 <= 4294967295)%Z) by lia.
  assert (Hr : (Z.of_nat 1 < 2)%Z) by (vm_compute; reflexivity).
  split; [exact Hu |]. split; [exact Hs |]. split; [exact Hm |]. split; [exact Hr |].
  destruct (@X7_user_table reference (fun s _ => eq_refl)
              (JStr (lit "no table here")) (lit "User accounts") 2 _ 1 Hu Hs Hm Hr)
    as (t & Et & Eh & f & l & role & dept & _ & _ & _ & _ & Erow).
  exists t. split; [exact Et |]. split; [exact Eh |].
  exists f, l, role, dept. exact Erow.
Defined.

(** X13 at the three names of the scenario of the specification, written
    without spaces after the commas. *)
Lemma X13_single_quoted_array_repaired_witness :
  quoted_array SQ (lit "Acme Corp") [lit "Globex"; lit "Initech"]
  = lit "['Acme Corp','Globex','Initech']"
  /\ Forall (fun a => Forall (fun c => item_char c = true) a)
            [lit "Acme Corp"; lit "Globex"; lit "Initech"]
  /\ generate_list (lit "['Acme Corp','Globex','Initech']") 3
     = [lit "Acme Corp"; lit "Globex"; lit "Initech"].
Proof.
  assert (H : Forall (fun a => Forall (fun c => item_char c = true) a)
                     [lit "Acme Corp"; lit "Globex"; lit "Initech"])
    by (repeat constructor).
  split; [reflexivity |]. split; [exact H |].
  destruct (@X13_single_quoted_array_repaired reference (lit "Acme Corp")
              [lit "Globex"; lit "Initech"] H) as (_ & _ & E).
  apply E. repeat constructor; discriminate.
Defined.
(** X20 at the three names of the scenario of the specification, written
    with a space after each comma. *)
Lemma X20_spaced_array_left_unrepaired_witness :
  spaced_array (lit "Acme Corp") [lit "Globex"] (lit "Initech")
  = lit "['Acme Corp', 'Globex', 'Initech']"
  /\ [lit "Globex"] <> []
  /\ Forall (fun a => Forall (fun x => word_char x = true) a)
            (lit "Acme Corp" :: [lit "Globex"] ++ [lit "Initech"])
  /\ normalizeToList_text (lit "['Acme Corp', 'Globex', 'Initech']")
     = [lit "['Acme Corp"; lit "Globex"; lit "Initech']"].
Proof.
  assert (Hm : [lit "Globex"] <> []) by discriminate.
  assert (H : Forall (fun a => Forall (fun x => word_char x = true) a)
                     (lit "Acme Corp" :: [lit "Globex"] ++ [lit "Initech"]))
    by (repeat constructor).
  split; [reflexivity |]. split; [exact Hm |]. split; [exact H |].
  destruct (@X20_spaced_array_left_unrepaired reference (lit "Acme Corp")
              [lit "Globex"] (lit "Initech") Hm H) as (_ & E).
  exact E.
Defined.

(** X21 at two of these names. *)
Lemma X21_spaced_pair_repaired_witness :
  spaced_array (lit "Acme Corp") [] (lit "Globex") = lit "['Acme Corp', 'Globex']"
  /\ Forall (fun x => word_char x = true) (lit "Acme Corp")
  /\ Forall (fun x => word_char x = true) (lit "Globex")
  /\ normalizeToList_text (lit "['Acme Corp', 'Globex']")
     = [lit "Acme Corp"; lit "Globex"].
Proof.
  assert (H1 : Forall (fun x => word_char x = true) (lit "Acme Corp"))
    by (repeat constructor).
  assert (H2 : Forall (fun x => word_char x = true) (lit "Globex"))
    by (repeat constructor).
  split; [reflexivity |]. split; [exact H1 |]. split; [exact H2 |].
  exact (@X21_spaced_pair_repaired reference (lit "Acme Corp") (lit "Globex") H1 H2).
Defined.
